(** * Overleaf-Pull: a shallow embedding of [overleaf_pull.py]

    The script downloads an Overleaf project as a zip archive and unpacks it.
    This development embeds its functions and proves (or refutes) the
    statements of the specification about them.

    Modelling conventions.
    - A Python [str] is a [string]: a sequence of 8-bit characters, read as
      the code points 0..255.  Text outside that range is not represented.
    - A Python [bytes] is a [list byte].
    - A [set] of strings is a [gset string]; a [CaseInsensitiveDict] is a
      [gmap] keyed by the lower-cased name; the file tree is a [gmap] from
      absolute paths (lists of names) to nodes.
    - Exceptions are values of [exn]; a computation that may raise is a
      function from the state to a [result] and the state reached.
    - The functions of the script keep their names and are written from its
      lines.  What they call in [requests], [re], [pathlib], [os] and
      [zipfile] is written from the behaviour of those libraries, on a disk
      without links and permissions; the HTTP exchange, the text decoder,
      [repr], the zip container reader and [Path.resolve] are parameters
      ([Platform]). *)

From Stdlib Require Import Ascii String ZArith Strings.Byte.
From stdpp Require Import gmap strings list fin_maps.

Open Scope string_scope.

(** ** Python string primitives *)

Module Py.

(** [s.startswith(p)] *)
Definition startswith (s p : string) : bool := String.prefix p s.

(** [s.lstrip(...)]: drop the leading characters that satisfy [p]. *)
Fixpoint lstrip_by (p : ascii -> bool) (s : string) : string :=
  match s with
  | EmptyString => EmptyString
  | String c s' => if p c then lstrip_by p s' else s
  end.

(** [s.rstrip(...)]: drop the trailing characters that satisfy [p]. *)
Fixpoint rstrip_by (p : ascii -> bool) (s : string) : string :=
  match s with
  | EmptyString => EmptyString
  | String c s' =>
      match rstrip_by p s' with
      | EmptyString => if p c then EmptyString else String c EmptyString
      | r => String c r
      end
  end.

(** [str.isspace] on one character, for the code points below 256:
    TAB..CR, FS..US, SPACE, NEL and NBSP. *)
Definition isspace (c : ascii) : bool :=
  let n := N_of_ascii c in
  ((9 <=? n) && (n <=? 13) || (28 <=? n) && (n <=? 32)
   || (n =? 133) || (n =? 160))%N.

(** [s.strip()] *)
Definition strip (s : string) : string := rstrip_by isspace (lstrip_by isspace s).

(** [str.lower] on one character, for the code points below 256: the ASCII
    capitals and the Latin-1 capitals (all of 0xC0..0xDE but the
    multiplication sign) move up by 32. *)
Definition lower_char (c : ascii) : ascii :=
  let n := N_of_ascii c in
  if ((65 <=? n) && (n <=? 90)
      || (192 <=? n) && (n <=? 222) && negb (n =? 215))%N
  then ascii_of_N (n + 32) else c.

(** [s.lower()] *)
Fixpoint lower (s : string) : string :=
  match s with
  | EmptyString => EmptyString
  | String c s' => String (lower_char c) (lower s')
  end.

(** [s.split(sep)] for a one-character separator: never the empty list. *)
Fixpoint split (sep : ascii) (s : string) : list string :=
  match s with
  | EmptyString => [EmptyString]
  | String c s' =>
      if Ascii.eqb c sep then EmptyString :: split sep s'
      else match split sep s' with
           | [] => [String c EmptyString]
           | w :: ws => String c w :: ws
           end
  end.

(** Truthiness of a string: [bool(s)]. *)
Definition truthy (s : string) : bool := negb (String.eqb s "").

(** [s[n:]] *)
Fixpoint drop (n : nat) (s : string) : string :=
  match n, s with
  | O, _ => s
  | S _, EmptyString => EmptyString
  | S n', String _ s' => drop n' s'
  end.

End Py.

(** ** Session builder: lines 16-24 *)

Definition _normalize_base_url (url : string) : string :=
  Py.rstrip_by (Ascii.eqb "/") url.

Definition _cookie_header (cookie : string) : string :=
  if Py.startswith (Py.lower (Py.strip cookie)) "overleaf.sid="
  then Py.strip cookie
  else "overleaf.sid=" ++ Py.strip cookie.

(** ** Common-root detection: lines 55-69 *)

(** [[p for p in name.split("/") if p]] *)
Definition name_parts (name : string) : list string :=
  List.filter Py.truthy (Py.split "/" name).

(** The loop of lines 57-62, one iteration and the whole. *)
Definition top_dirs_step (top_dirs : gset string) (name : string) : gset string :=
  match name_parts name with
  | [] => top_dirs
  | p0 :: _ => {[ p0 ]} ∪ top_dirs
  end.

Definition top_dirs_of (names : list string) : gset string :=
  foldl top_dirs_step ∅ names.

Definition _single_root_dir (names : list string) : option string :=
  let top_dirs := top_dirs_of names in
  if negb (Nat.eqb (size top_dirs) 1) then None
  else match elements top_dirs with
       | [] => None
       | single :: _ =>
           if negb (existsb (fun n => Py.startswith n (single ++ "/")) names)
           then None
           else Some single
       end.

(** ** Exceptions and results *)

(** The [errno] values the file-system calls of the script can meet. *)
Inductive os_error := ENOENT | EEXIST | ENOTDIR | EISDIR.

(** [requests.Response], with the attributes the script reads.  [headers] is
    a [CaseInsensitiveDict]: it is keyed by the lower-cased header name and
    keeps the name as it was written next to the value. *)
Record Response := {
  status_code : Z;
  url : string;
  headers : gmap string (string * string);
  content : list byte;
  text : string
}.

Inductive exn :=
| HTTPError (r : Response)        (* [requests.HTTPError], holds its response *)
| RuntimeError (msg : string)
| OSError (e : os_error)          (* FileNotFoundError, FileExistsError, ... *)
| ValueError (msg : string)
| KeyError (key : string)
| BadZipFile.

Inductive result (A : Type) :=
| Ok (a : A)
| Raise (e : exn).
Arguments Ok {A} a.
Arguments Raise {A} e.

(** A computation over a state [St] that returns or raises; the state
    reached is kept in both cases. *)
Definition M (St A : Type) : Type := St -> result A * St.

Definition ret {St A} (a : A) : M St A := fun s => (Ok a, s).
Definition raise {St A} (e : exn) : M St A := fun s => (Raise e, s).
Definition bind {St A B} (m : M St A) (k : A -> M St B) : M St B :=
  fun s => match m s with
           | (Ok a, s') => k a s'
           | (Raise e, s') => (Raise e, s')
           end.
(** [try: m except: h] *)
Definition catch {St A} (m : M St A) (h : exn -> M St A) : M St A :=
  fun s => match m s with
           | (Ok a, s') => (Ok a, s')
           | (Raise e, s') => h e s'
           end.

Notation "'let*' x ':=' m 'in' k" := (bind m (fun x => k))
  (at level 10, x name, m at level 100, k at level 200, only parsing).
Notation "'do' m 'then' k" := (bind m (fun _ => k))
  (at level 10, m at level 100, k at level 200, only parsing).

(** [for x in xs: body x] *)
Fixpoint for_each {St A} (xs : list A) (body : A -> M St unit) : M St unit :=
  match xs with
  | [] => ret tt
  | x :: xs' => do body x then for_each xs' body
  end.

(** ** The regular expression of line 32

    [re.search] is modelled by a backtracking matcher for the two kinds of
    item the pattern is made of: a literal character, and a capturing group
    that greedily takes characters other than a given one (a negated
    character class under a star). *)

Inductive re_item :=
| Lit (c : ascii)
| GroupStarNot (c : ascii).

(** Match the pattern at the start of [s]; the result lists the groups. *)
Fixpoint re_match (p : list re_item) (s : string) : option (list string) :=
  match p with
  | [] => Some []
  | Lit c :: p' =>
      match s with
      | String d s' => if Ascii.eqb d c then re_match p' s' else None
      | EmptyString => None
      end
  | GroupStarNot c :: p' =>
      (fix star (s : string) : option (list string) :=
         let stop := option_map (cons EmptyString) (re_match p' s) in
         match s with
         | String d s' =>
             if Ascii.eqb d c then stop
             else match star s' with
                  | Some (g :: gs) => Some (String d g :: gs)
                  | _ => stop
                  end
         | EmptyString => stop
         end) s
  end.

(** [re.search]: the match at the leftmost position that has one. *)
Fixpoint re_search (p : list re_item) (s : string) : option (list string) :=
  match re_match p s with
  | Some gs => Some gs
  | None =>
      match s with
      | String _ s' => re_search p s'
      | EmptyString => None
      end
  end.

(** The double quote, as a character and as a string. *)
Definition dquote : ascii := "034"%char.
Definition dq : string := String dquote EmptyString.

(** The text of the pattern before its group. *)
Definition csrf_meta_open : string :=
  "<meta name=" ++ dq ++ "ol-csrfToken" ++ dq ++ " content=" ++ dq.

(** The pattern of line 32: the opening text, the group of characters other
    than a double quote, and the closing double quote. *)
Definition csrf_pattern : list re_item :=
  map Lit (list_ascii_of_string csrf_meta_open)
  ++ [GroupStarNot dquote; Lit dquote].

(** ** The platform

    What the script gets from its libraries and the machine, taken as
    parameters: the HTTP exchange behind [session.get], the UTF-8 decoder
    with replacement, [repr] of a string, the zip container reader,
    [Path.resolve], and the headers a new [requests.Session] starts with. *)

Record ZipInfo := {
  filename : string;
  payload : list byte       (* the decompressed data of the member *)
}.

Record Platform := {
  transport : string -> gmap string (string * string) -> Response;
  decode_utf8_replace : list byte -> string;
  repr : string -> string;
  zip_open : list byte -> option (list ZipInfo);
  resolve : string -> list string;
  default_headers : gmap string (string * string)
}.

(** ** The file tree *)

Inductive node :=
| Dir
| File (data : list byte).

(** Side effects of a run, in order. *)
Inductive event :=
| EvSetHeader (key value : string)
| EvGet (url : string) (hdrs : gmap string (string * string))
| EvPrint (line : string).

(** The state a run acts on: the session's header map, the disk, and the
    log of the observable effects. *)
Record World := {
  session_headers : gmap string (string * string);
  disk : gmap (list string) node;
  trace : list event
}.

(** [session.headers[key] = value] *)
Definition set_header (key value : string) : M World unit :=
  fun w => (Ok tt,
            {| session_headers := <[Py.lower key := (key, value)]> (session_headers w);
               disk := disk w;
               trace := trace w ++ [EvSetHeader key value] |}).

(** [requests.Session()]: a session with the default headers. *)
Definition new_session (pf : Platform) : M World unit :=
  fun w => (Ok tt,
            {| session_headers := default_headers pf;
               disk := disk w;
               trace := trace w |}).

(** [session.get(url)] *)
Definition session_get (pf : Platform) (u : string) : M World Response :=
  fun w => (Ok (transport pf u (session_headers w)),
            {| session_headers := session_headers w;
               disk := disk w;
               trace := trace w ++ [EvGet u (session_headers w)] |}).

(** [r.raise_for_status()], as the [requests] library defines it: the
    client and the server errors raise. *)
Definition raise_for_status {St} (r : Response) : M St unit :=
  if ((400 <=? status_code r) && (status_code r <? 600))%Z
  then raise (HTTPError r)
  else ret tt.

(** [d.get(key, default)] on a [CaseInsensitiveDict] *)
Definition cidict_get (d : gmap string (string * string)) (key default : string) : string :=
  match d !! Py.lower key with
  | Some (_, v) => v
  | None => default
  end.

(** ** Token fetcher: lines 27-33 *)

Definition get_csrf_token (pf : Platform) (base_url project_id : string)
  : M World (option string) :=
  let u := base_url ++ "/project/" ++ project_id in
  let* r := session_get pf u in
  do raise_for_status r then
  match re_search csrf_pattern (text r) with
  | Some gs => ret (Some (nth 0 gs EmptyString))
  | None => ret None
  end.

(** ** Archive fetcher: lines 36-52 *)

(** [data.startswith(p)] on bytes *)
Fixpoint bytes_startswith (data p : list byte) : bool :=
  match p, data with
  | [], _ => true
  | _ :: _, [] => false
  | b :: p', d :: data' => Byte.eqb d b && bytes_startswith data' p'
  end.

(** [b"PK"] *)
Definition PK : list byte := [x50; x4b].

Definition not_a_zip_message (pf : Platform) (ct : string) (data : list byte) : string :=
  let preview := decode_utf8_replace pf (take 200 data) in
  "Server did not return a zip file (got Content-Type: " ++ ct ++ "). "
  ++ "First bytes: " ++ repr pf preview ++ "...".

Definition download_zip (pf : Platform) (base_url project_id : string)
  : M World (list byte) :=
  let u := base_url ++ "/project/" ++ project_id ++ "/download/zip" in
  let* r := session_get pf u in
  do raise_for_status r then
  let data := content r in
  if negb (bytes_startswith data PK) then
    let ct := cidict_get (headers r) "Content-Type" "" in
    raise (RuntimeError (not_a_zip_message pf ct data))
  else ret data.

(** ** The file system

    The disk maps the absolute path of every file and directory, as the list
    of its names from the root, to its node.  The root, the empty list, is
    always a directory.  There are no symbolic links and no permissions. *)

Definition fs_lookup (S : gmap (list string) node) (p : list string) : option node :=
  match p with
  | [] => Some Dir
  | _ => S !! p
  end.

(** [p.parent]: lexical, and the root is its own parent. *)
Definition parent (p : list string) : list string := removelast p.

(** The kernel's walk along the names [comps] from the directory [cur]:
    every name must be a directory, and [..] steps to the parent. *)
Fixpoint resolve_dir (S : gmap (list string) node) (cur comps : list string)
  : result (list string) :=
  match comps with
  | [] => Ok cur
  | c :: rest =>
      if String.eqb c ".." then resolve_dir S (parent cur) rest
      else match fs_lookup S (cur ++ [c])%list with
           | None => Raise (OSError ENOENT)
           | Some (File _) => Raise (OSError ENOTDIR)
           | Some Dir => resolve_dir S (cur ++ [c])%list rest
           end
  end.

(** A path as its directory part and its last name. *)
Definition split_last (p : list string) : option (list string * string) :=
  match rev p with
  | [] => None
  | c :: rpre => Some (rev rpre, c)
  end.

(** [os.stat(p)] *)
Definition stat (S : gmap (list string) node) (p : list string) : result node :=
  match split_last p with
  | None => Ok Dir
  | Some (pre, c) =>
      match resolve_dir S [] pre with
      | Raise e => Raise e
      | Ok cur =>
          if String.eqb c ".." then Ok Dir
          else match fs_lookup S (cur ++ [c])%list with
               | None => Raise (OSError ENOENT)
               | Some n => Ok n
               end
      end
  end.

(** [p.is_dir()], [os.path.isdir(p)] *)
Definition is_dir (S : gmap (list string) node) (p : list string) : bool :=
  match stat S p with
  | Ok Dir => true
  | _ => false
  end.

(** [os.path.exists(p)] *)
Definition exists_path (S : gmap (list string) node) (p : list string) : bool :=
  match stat S p with
  | Ok _ => true
  | Raise _ => false
  end.

(** [os.mkdir(p)] *)
Definition os_mkdir (p : list string) : M (gmap (list string) node) unit :=
  fun S =>
    match split_last p with
    | None => (Raise (OSError EEXIST), S)
    | Some (pre, c) =>
        match resolve_dir S [] pre with
        | Raise e => (Raise e, S)
        | Ok cur =>
            if String.eqb c ".." then (Raise (OSError EEXIST), S)
            else match fs_lookup S (cur ++ [c])%list with
                 | Some _ => (Raise (OSError EEXIST), S)
                 | None => (Ok tt, <[(cur ++ [c])%list := Dir]> S)
                 end
        end
    end.

(** [p.write_bytes(data)]: [open(p, "wb")] and the write. *)
Definition write_bytes (p : list string) (data : list byte)
  : M (gmap (list string) node) unit :=
  fun S =>
    match split_last p with
    | None => (Raise (OSError EISDIR), S)
    | Some (pre, c) =>
        match resolve_dir S [] pre with
        | Raise e => (Raise e, S)
        | Ok cur =>
            if String.eqb c ".." then (Raise (OSError EISDIR), S)
            else match fs_lookup S (cur ++ [c])%list with
                 | Some Dir => (Raise (OSError EISDIR), S)
                 | _ => (Ok tt, <[(cur ++ [c])%list := File data]> S)
                 end
        end
    end.

(** The [except OSError] clause shared by [Path.mkdir] and [os.makedirs]:
    with [exist_ok], the error is dropped when [p] is a directory. *)
Definition unless_is_dir (p : list string) (e : exn)
  : M (gmap (list string) node) unit :=
  fun S => if is_dir S p then (Ok tt, S) else (Raise e, S).

(** [p.mkdir(parents=False, exist_ok=True)] *)
Definition Path_mkdir_exist_ok (p : list string) : M (gmap (list string) node) unit :=
  catch (os_mkdir p)
    (fun e => match e with
              | OSError ENOENT => raise e
              | OSError _ => unless_is_dir p e
              | _ => raise e
              end).

(** [p.mkdir(parents=True, exist_ok=True)], by recursion on the names of
    [p] from the last one. *)
Fixpoint Path_mkdir_rev (rp : list string) : M (gmap (list string) node) unit :=
  catch (os_mkdir (rev rp))
    (fun e => match e with
              | OSError ENOENT =>
                  match rp with
                  | [] => raise e
                  | _ :: rparent =>
                      do Path_mkdir_rev rparent then
                      Path_mkdir_exist_ok (rev rp)
                  end
              | OSError _ => unless_is_dir (rev rp) e
              | _ => raise e
              end).

Definition Path_mkdir (p : list string) : M (gmap (list string) node) unit :=
  Path_mkdir_rev (rev p).

(** The names of a path text as [pathlib] keeps them: empty names and [.]
    are dropped, [..] stays. *)
Definition path_parts (s : string) : list string :=
  List.filter (fun x => Py.truthy x && negb (String.eqb x ".")) (Py.split "/" s).

(** [d / rel] for an absolute [d]: an absolute [rel] replaces [d]. *)
Definition path_join (d : list string) (rel : string) : list string :=
  if Py.startswith rel "/" then path_parts rel else (d ++ path_parts rel)%list.

(** [str(p)] for an absolute path *)
Definition path_str (p : list string) : string :=
  match p with
  | [] => "/"
  | _ => String.concat "" (map (fun x => "/" ++ x) p)
  end.

(** ** The archive *)

(** [s.endswith(p)] *)
Fixpoint endswith (s p : string) : bool :=
  String.eqb s p
  || match s with
     | String _ s' => endswith s' p
     | EmptyString => false
     end.

(** [zf.namelist()] *)
Definition namelist (zf : list ZipInfo) : list string := map filename zf.

(** [info.is_dir()] *)
Definition ZipInfo_is_dir (info : ZipInfo) : bool := endswith (filename info) "/".

(** [zf.getinfo(name)]: the member the name maps to is the last one of that
    name in the archive. *)
Definition zf_getinfo (zf : list ZipInfo) (name : string) : option ZipInfo :=
  List.find (fun i => String.eqb (filename i) name) (rev zf).

(** [zf.read(name)] *)
Definition zf_read {St} (zf : list ZipInfo) (name : string) : M St (list byte) :=
  match zf_getinfo zf name with
  | Some i => ret (payload i)
  | None => raise (KeyError name)
  end.

(** [os.makedirs(p, exist_ok=True)], as the standard library defines it, by
    recursion on the names of [p] from the last one. *)
Fixpoint makedirs_rev (rp : list string) : M (gmap (list string) node) unit :=
  do match rp with
     | [] => ret tt
     | _ :: rhead =>
         fun S =>
           if exists_path S (rev rhead) then (Ok tt, S)
           else catch (makedirs_rev rhead)
                  (fun e => match e with
                            | OSError EEXIST => ret tt
                            | _ => raise e
                            end) S
     end then
  catch (os_mkdir (rev rp)) (unless_is_dir (rev rp)).

Definition makedirs (p : list string) : M (gmap (list string) node) unit :=
  makedirs_rev (rev p).

(** The first step of [os.makedirs] on a path with a last name: the head of
    the path is made unless it exists. *)
Definition makedirs_head (rhead : list string) : M (gmap (list string) node) unit :=
  fun S =>
    if exists_path S (rev rhead) then (Ok tt, S)
    else catch (makedirs_rev rhead)
           (fun e => match e with
                     | OSError EEXIST => ret tt
                     | _ => raise e
                     end) S.

(** The names of a member's path that [extractall] keeps: [..], [.] and the
    empty ones are dropped. *)
Definition member_arcname (info : ZipInfo) : list string :=
  List.filter (fun x => Py.truthy x && negb (String.eqb x ".")
                        && negb (String.eqb x ".."))
    (Py.split "/" (filename info)).

(** The two steps of [extractall] on one member, as the standard library
    defines them: the upper directories of the target are made unless the
    path exists, then the member is written, a directory with [os.mkdir]
    unless it is one already, a file by opening it for writing. *)
Definition ensure_upperdirs (upperdirs : list string)
  : M (gmap (list string) node) unit :=
  fun S => if exists_path S upperdirs then (Ok tt, S) else makedirs upperdirs S.

Definition write_member (targetpath : list string) (info : ZipInfo)
  : M (gmap (list string) node) unit :=
  if ZipInfo_is_dir info then
    fun S =>
      if is_dir S targetpath then (Ok tt, S)
      else catch (os_mkdir targetpath)
             (fun e => match e with
                       | OSError EEXIST => unless_is_dir targetpath e
                       | _ => raise e
                       end) S
  else write_bytes targetpath (payload info).

(** One member of [zf.extractall(d)]. *)
Definition extract_member (d : list string) (info : ZipInfo)
  : M (gmap (list string) node) unit :=
  let arcname := member_arcname info in
  if (Nat.eqb (length arcname) 0) && negb (ZipInfo_is_dir info)
  then raise (ValueError "Empty filename.")
  else
    let targetpath := (d ++ arcname)%list in
    let upperdirs := parent targetpath in
    do ensure_upperdirs upperdirs then
    write_member targetpath info.

Definition extractall (zf : list ZipInfo) (d : list string)
  : M (gmap (list string) node) unit :=
  for_each zf (extract_member d).

(** ** Archive extractor: lines 72-96 *)

(** The body of the loop of lines 83-94. *)
Definition flatten_member (zf : list ZipInfo) (output_dir : list string)
  (prefix : string) (info : ZipInfo) : M (gmap (list string) node) unit :=
  if negb (Py.startswith (filename info) prefix) then ret tt
  else
    let rel := Py.rstrip_by (Ascii.eqb "/")
                 (Py.drop (String.length prefix) (filename info)) in
    if negb (Py.truthy rel) then ret tt
    else
      let dest := path_join output_dir rel in
      if ZipInfo_is_dir info then Path_mkdir dest
      else
        do Path_mkdir (parent dest) then
        let* data := zf_read zf (filename info) in
        write_bytes dest data.

(** Lines 78-96: the archive is open. *)
Definition extract_members (zf : list ZipInfo) (output_dir : list string)
  (flatten_single_root : bool) : M (gmap (list string) node) unit :=
  let names := namelist zf in
  let single_root := if flatten_single_root then _single_root_dir names else None in
  match single_root with
  | Some root =>
      if Py.truthy root then
        let prefix := root ++ "/" in
        for_each zf (flatten_member zf output_dir prefix)
      else extractall zf output_dir
  | None => extractall zf output_dir
  end.

(** An action on the disk, run in the world. *)
Definition on_disk {A} (m : M (gmap (list string) node) A) : M World A :=
  fun w =>
    let (r, S') := m (disk w) in
    (r, {| session_headers := session_headers w; disk := S'; trace := trace w |}).

Definition extract_zip (pf : Platform) (zip_bytes : list byte)
  (output_dir : string) (flatten_single_root : bool) : M World unit :=
  let output_dir := resolve pf output_dir in
  do on_disk (Path_mkdir output_dir) then
  match zip_open pf zip_bytes with
  | None => raise BadZipFile
  | Some zf => on_disk (extract_members zf output_dir flatten_single_root)
  end.

(** ** Entry point: lines 99-129 *)

Record Args := {
  arg_project_id : string;
  arg_cookie : string;
  arg_base_url : string;
  arg_output_dir : string
}.

(** [print(line)] *)
Definition print (line : string) : M World unit :=
  fun w => (Ok tt,
            {| session_headers := session_headers w;
               disk := disk w;
               trace := trace w ++ [EvPrint line] |}).

Definition main (pf : Platform) (args : Args) : M World unit :=
  let base_url := _normalize_base_url (arg_base_url args) in
  do new_session pf then
  do set_header "Cookie" (_cookie_header (arg_cookie args)) then
  let* csrf := get_csrf_token pf base_url (arg_project_id args) in
  do match csrf with
     | Some token => if Py.truthy token then set_header "X-CSRF-Token" token else ret tt
     | None => ret tt
     end then
  let* zip_bytes := download_zip pf base_url (arg_project_id args) in
  do extract_zip pf zip_bytes (arg_output_dir args) true then
  print ("Extracted to " ++ path_str (resolve pf (arg_output_dir args))).

(** * The statements of the specification

    The predicates the statements are written with, and the statements that
    the script does not meet, as they are worded. *)

(** [s] starts with the lower-case [p], whatever the case of its letters. *)
Definition istartswith (s p : string) : bool := Py.startswith (Py.lower s) p.

(** C4 as stated: a cookie that starts with the key, in any case, is the
    header as it is; any other is trimmed and prepended with the key. *)
Definition cookie_header_as_stated (C : string) : Prop :=
  (istartswith C "overleaf.sid=" = true -> _cookie_header C = C)
  /\ (istartswith C "overleaf.sid=" = false ->
      _cookie_header C = "overleaf.sid=" ++ Py.strip C).

(** The first path segment of an entry path, if it has one. *)
Definition first_segment (name : string) : option string := head (name_parts name).

(** C1 as stated: the root is detected exactly when the first segments of
    the entry paths are one and the same, and some entry path is strictly
    longer than that segment followed by a slash. *)
Definition common_root_as_stated (names : list string) (root : string) : Prop :=
  (forall x, (exists n, n ∈ names /\ first_segment n = Some x) <-> x = root)
  /\ (exists n, n ∈ names
                /\ Py.startswith n (root ++ "/") = true
                /\ String.length (root ++ "/") < String.length n).


(** A 2xx status. *)
Definition is_success (r : Response) : Prop := (200 <= status_code r < 300)%Z.

(** [v] holds no double quote. *)
Definition no_dquote (v : string) : Prop := ~ In dquote (list_ascii_of_string v).

(** The text holds, after [pre], the meta tag of the token with the value
    [v], closed: the shape the specification gives. *)
Definition marker_at (body pre v post : string) : Prop :=
  body = pre ++ csrf_meta_open ++ v ++ dq ++ ">" ++ post /\ no_dquote v.

(** The text holds, after [pre], the opening of the meta tag, the value [v]
    and the double quote that closes the value. *)
Definition token_at (body pre v post : string) : Prop :=
  body = pre ++ csrf_meta_open ++ v ++ dq ++ post /\ no_dquote v.

(** The response to the request of the token fetcher in the world [w]. *)
Definition token_response (pf : Platform) (base_url project_id : string)
  (w : World) : Response :=
  transport pf (base_url ++ "/project/" ++ project_id) (session_headers w).

(** The response to the request of the archive fetcher in the world [w]. *)
Definition archive_response (pf : Platform) (base_url project_id : string)
  (w : World) : Response :=
  transport pf (base_url ++ "/project/" ++ project_id ++ "/download/zip")
    (session_headers w).

(** C5 as stated: on a successful response the value of a marker of the
    exact shape is returned, and no token when there is no such marker. *)
Definition token_extraction_as_stated (pf : Platform) (base_url project_id : string)
  (w : World) : Prop :=
  let r := token_response pf base_url project_id w in
  is_success r ->
  (forall pre v post, marker_at (text r) pre v post ->
     fst (get_csrf_token pf base_url project_id w) = Ok (Some v))
  /\ ((forall pre v post, ~ marker_at (text r) pre v post) ->
      fst (get_csrf_token pf base_url project_id w) = Ok None).

(** [sub in s] *)
Fixpoint contains (s sub : string) : bool :=
  Py.startswith s sub
  || match s with
     | String _ s' => contains s' sub
     | EmptyString => false
     end.

(** ** A platform for the examples

    The server answers every request with the same response; the decoder
    reads each byte as one character and [repr] puts the text between
    single quotes; every byte sequence is an archive without entries. *)

Definition fixed_platform (r : Response) : Platform := {|
  transport := fun _ _ => r;
  decode_utf8_replace := fun data => string_of_list_byte data;
  repr := fun s => "'" ++ s ++ "'";
  zip_open := fun _ => Some [];
  resolve := fun _ => ["out"];
  default_headers := ∅
|}.

Definition html_response (status : Z) (body : string) : Response := {|
  status_code := status;
  url := "https://overleaf.example.com/project/p1";
  headers := {[ "content-type" := ("Content-Type", "text/html") ]};
  content := list_byte_of_string body;
  text := body
|}.

(** The world before a run: no session header, an empty disk, no effect. *)
Definition empty_world : World :=
  {| session_headers := ∅; disk := ∅; trace := [] |}.


(** A page whose token tag is self-closing: the value is not followed by
    the closing angle bracket. *)
Definition page_with_self_closing_tag : string :=
  "<head>" ++ csrf_meta_open ++ "abc" ++ dq ++ " /></head>".

(** A page with the tag in the shape the specification gives. *)
Definition page_with_token : string :=
  "<head>" ++ csrf_meta_open ++ "abc123" ++ dq ++ "></head>".

(** A 4xx or 5xx status: what [raise_for_status] raises on. *)
Definition is_http_error (r : Response) : Prop := (400 <= status_code r < 600)%Z.

(** The content type a response declares, the empty text when it declares
    none. *)
Definition declared_content_type (r : Response) : string :=
  match headers r !! "content-type" with
  | Some (_, v) => v
  | None => ""
  end.

(** C6 as stated: on a response that is not a success, both fetchers raise
    the error that holds the response. *)
Definition remote_failure_as_stated (pf : Platform) (base_url project_id : string)
  (w : World) : Prop :=
  (~ is_success (token_response pf base_url project_id w) ->
   fst (get_csrf_token pf base_url project_id w)
   = Raise (HTTPError (token_response pf base_url project_id w)))
  /\ (~ is_success (archive_response pf base_url project_id w) ->
      fst (download_zip pf base_url project_id w)
      = Raise (HTTPError (archive_response pf base_url project_id w))).

(** The first two statements of [main]: the session and its cookie. *)
Definition session_setup (pf : Platform) (args : Args) : M World unit :=
  do new_session pf then
  set_header "Cookie" (_cookie_header (arg_cookie args)).

(** The conditional of lines 124-125. *)
Definition attach_token (csrf : option string) : M World unit :=
  match csrf with
  | Some token => if Py.truthy token then set_header "X-CSRF-Token" token else ret tt
  | None => ret tt
  end.

(** The header writes among the effects. *)
Definition header_writes (tr : list event) : list (string * string) :=
  omap (fun ev => match ev with
                  | EvSetHeader k v => Some (k, v)
                  | _ => None
                  end) tr.

(** The header write that follows the token fetch, if any. *)
Definition token_attachment (res : result (option string)) : list event :=
  match res with
  | Ok (Some token) =>
      if Py.truthy token then [EvSetHeader "X-CSRF-Token" token] else []
  | _ => []
  end.


(** ** Comparing disks *)

(** Both nodes are directories, or both are files. *)
Definition same_kind (a b : node) : Prop :=
  match a, b with
  | Dir, Dir => True
  | File _, File _ => True
  | _, _ => False
  end.

(** [T] holds every path of [S], with a node of the same kind. *)
Definition fs_le (S T : gmap (list string) node) : Prop :=
  forall p n, S !! p = Some n -> exists n', T !! p = Some n' /\ same_kind n n'.

(** The same paths, with nodes of the same kinds. *)
Definition same_shape (S T : gmap (list string) node) : Prop :=
  fs_le S T /\ fs_le T S.

(** [S1] is [S] with new directories. *)
Definition dir_extends (S S1 : gmap (list string) node) : Prop :=
  forall p, S1 !! p = S !! p \/ (S !! p = None /\ S1 !! p = Some Dir).

(** An action took [S] to [S1] and, run again, [T] to [T1]: at every path
    the second run ends as the first did, or neither run changed it. *)
Definition replays (S S1 T T1 : gmap (list string) node) : Prop :=
  forall p, T1 !! p = S1 !! p \/ (T1 !! p = T !! p /\ S1 !! p = S !! p).

(** The disks an action is run again on: after a run that has returned, any
    disk that holds what the run left; after a run that has raised, any disk
    of the shape of the one it left. *)
Definition agrees {A} (r : result A) (S1 T : gmap (list string) node) : Prop :=
  match r with
  | Ok _ => fs_le S1 T
  | Raise _ => same_shape S1 T
  end.

(** The second outcome returns the value of the first, or both raise. *)
Definition same_outcome {A} (r r' : result A) : Prop :=
  match r with
  | Ok x => r' = Ok x
  | Raise _ => exists e', r' = Raise e'
  end.

(** An action that only adds to the disk, and that, run again, ends as its
    first run did and leaves the shape of the disk as it finds it. *)
Definition replayable {A} (a : M (gmap (list string) node) A) : Prop :=
  forall S r S1,
    a S = (r, S1) ->
    fs_le S S1
    /\ forall T, agrees r S1 T ->
         exists r' T1,
           a T = (r', T1) /\ same_outcome r r' /\ same_shape T T1
           /\ replays S S1 T T1.

(** No name of the path is [..]. *)
Definition plain (p : list string) : Prop := Forall (fun c => c <> "..") p.


(** ** An archive and a platform for the examples *)

(** The file [proj/main.tex] with the content ["X"], and the directory
    [proj/sub/]. *)
Definition example_archive : list ZipInfo :=
  [ {| filename := "proj/main.tex"; payload := [x58] |};
    {| filename := "proj/sub/"; payload := [] |} ].

(** A platform whose archive reader returns [zf] and whose output directory
    resolves to [/out]. *)
Definition archive_platform (zf : list ZipInfo) : Platform := {|
  transport := fun _ _ => html_response 200 "";
  decode_utf8_replace := fun data => string_of_list_byte data;
  repr := fun s => "'" ++ s ++ "'";
  zip_open := fun _ => Some zf;
  resolve := fun _ => ["out"];
  default_headers := ∅
|}.

(** [S1] is [S] with new directories on the way to [p]. *)
Definition mkdir_extends (p : list string) (S S1 : gmap (list string) node) : Prop :=
  forall q, S1 !! q = S !! q
            \/ (S !! q = None /\ S1 !! q = Some Dir /\ q `prefix_of` p).

(** No file stands on the way to [p], [p] included. *)
Definition no_file_on_the_way (S : gmap (list string) node) (p : list string) : Prop :=
  forall q d, q `prefix_of` p -> S !! q <> Some (File d).


(** ** Further platforms and path shapes *)

(** A platform whose archive reader refuses every byte sequence. *)
Definition unreadable_archive_platform : Platform := {|
  transport := fun _ _ => html_response 200 "";
  decode_utf8_replace := fun data => string_of_list_byte data;
  repr := fun s => "'" ++ s ++ "'";
  zip_open := fun _ => None;
  resolve := fun _ => ["out"];
  default_headers := ∅
|}.

(** A relative path text made of plain names: no empty name (so no slash
    at either end and no doubled slash), no [.] and no [..]. *)
Definition simple_path (s : string) : bool :=
  forallb (fun x => Py.truthy x && negb (String.eqb x ".") && negb (String.eqb x ".."))
    (Py.split "/" s).

(** The file members under [root/] have a simple path after that prefix. *)
Definition simple_under (root : string) (info : ZipInfo) : bool :=
  if Py.startswith (filename info) (root ++ "/") && negb (ZipInfo_is_dir info)
  then simple_path (Py.drop (String.length (root ++ "/")) (filename info))
  else true.

(** Where the loop of lines 83-94 writes a member of such an archive, and
    what: nothing for a member that is skipped or is a directory. *)
Definition flatten_target (zf : list ZipInfo) (d : list string) (root : string)
  (info : ZipInfo) : option (list string * list byte) :=
  if Py.startswith (filename info) (root ++ "/") && negb (ZipInfo_is_dir info)
  then match zf_getinfo zf (filename info) with
       | Some i =>
           Some ((d ++ Py.split "/" (Py.drop (String.length (root ++ "/")) (filename info)))%list,
                 payload i)
       | None => None
       end
  else None.

(** Where [extractall] writes a member, and what: nothing for a directory. *)
Definition extractall_target (d : list string) (info : ZipInfo)
  : option (list string * list byte) :=
  if ZipInfo_is_dir info then None
  else Some ((d ++ member_arcname info)%list, payload info).

(** The lines printed among the effects. *)
Definition printed (tr : list event) : list string :=
  omap (fun ev => match ev with
                  | EvPrint line => Some line
                  | _ => None
                  end) tr.

(** The requests among the effects, each with the headers it was sent
    with. *)
Definition requests (tr : list event) : list (string * gmap string (string * string)) :=
  omap (fun ev => match ev with
                  | EvGet u hdrs => Some (u, hdrs)
                  | _ => None
                  end) tr.

(** The session headers [main] sends the token request with, and those it
    sends the archive request with after the token fetch returned [csrf]. *)
Definition cookie_headers (pf : Platform) (args : Args) : gmap string (string * string) :=
  <["cookie" := ("Cookie", _cookie_header (arg_cookie args))]> (default_headers pf).

Definition token_headers (pf : Platform) (args : Args) (csrf : option string)
  : gmap string (string * string) :=
  match csrf with
  | Some token =>
      if Py.truthy token
      then <["x-csrf-token" := ("X-CSRF-Token", token)]> (cookie_headers pf args)
      else cookie_headers pf args
  | None => cookie_headers pf args
  end.

(** A platform for a whole run: the server answers the archive request
    with bytes that start with [PK] and any other request with the page
    that holds the token; the archive reader gives the example archive for
    bytes that start with [PK]. *)
Definition project_platform : Platform := {|
  transport := fun u _ =>
    if endswith u "/download/zip"
    then {| status_code := 200; url := u;
            headers := {[ "content-type" := ("Content-Type", "application/zip") ]};
            content := [x50; x4b; x03; x04]; text := "" |}
    else html_response 200 page_with_token;
  decode_utf8_replace := fun data => string_of_list_byte data;
  repr := fun s => "'" ++ s ++ "'";
  zip_open := fun data => if bytes_startswith data PK then Some example_archive else None;
  resolve := fun _ => ["out"];
  default_headers := ∅
|}.

(** The path text the loop of lines 83-94 joins to the output directory for
    a member: its name after the prefix, without its trailing slashes;
    nothing for a member the loop skips. *)
Definition member_rel (root : string) (info : ZipInfo) : option string :=
  if Py.startswith (filename info) (root ++ "/") then
    let rel := Py.rstrip_by (Ascii.eqb "/")
                 (Py.drop (String.length (root ++ "/")) (filename info)) in
    if Py.truthy rel then Some rel else None
  else None.

(** Every member the loop does not skip has a simple path. *)
Definition all_simple (root : string) (zf : list ZipInfo) : bool :=
  forallb (fun i => match member_rel root i with
                    | Some rel => simple_path rel
                    | None => true
                    end) zf.

(** No member is placed at the path of a file member or below it, but a
    file member at that same path. *)
Definition no_clash (root : string) (zf : list ZipInfo) : bool :=
  forallb (fun i =>
    match member_rel root i with
    | Some r =>
        ZipInfo_is_dir i
        || forallb (fun j =>
             match member_rel root j with
             | Some r' =>
                 negb (bool_decide (Py.split "/" r `prefix_of` Py.split "/" r'))
                 || (String.eqb r' r && negb (ZipInfo_is_dir j))
             | None => true
             end) zf
    | None => true
    end) zf.

(** What the loop has left under the output directory [d] once it is
    through the members [done]: [d] is a directory, and every node below it
    is the file of a file member or a directory on the way to a member. *)
Definition flattened_so_far (root : string) (d : list string) (done : list ZipInfo)
  (S : gmap (list string) node) : Prop :=
  is_dir S d = true
  /\ no_file_on_the_way S d
  /\ forall q n,
       d `prefix_of` q -> q <> d -> S !! q = Some n ->
       exists j rel,
         j ∈ done /\ member_rel root j = Some rel
         /\ match n with
            | Dir => q `prefix_of` (d ++ Py.split "/" rel)%list
                     /\ (ZipInfo_is_dir j = false -> q <> (d ++ Py.split "/" rel)%list)
            | File _ => ZipInfo_is_dir j = false /\ q = (d ++ Py.split "/" rel)%list
            end.
(** * Properties *)

(** ** Strings *)

Lemma string_app_cons (x : ascii) (a b : string) :
  String x a ++ b = String x (a ++ b).
Proof. reflexivity. Qed.

Lemma string_app_nil_l (a : string) : "" ++ a = a.
Proof. reflexivity. Qed.

(** [simpl] that also unfolds string concatenation on constructors. *)
Ltac ssimpl :=
  simpl; repeat (rewrite string_app_cons || rewrite string_app_nil_l); simpl.
Tactic Notation "ssimpl" "in" hyp(H) :=
  simpl in H;
  repeat (rewrite string_app_cons in H || rewrite string_app_nil_l in H);
  simpl in H.

Section StringFacts.

Lemma string_app_assoc (a b c : string) : (a ++ b) ++ c = a ++ (b ++ c).
Proof. induction a as [|x a IH]; ssimpl; [reflexivity | now rewrite IH]. Qed.

Lemma string_app_nil_r (a : string) : a ++ "" = a.
Proof. induction a as [|x a IH]; ssimpl; [reflexivity | now rewrite IH]. Qed.

Lemma string_app_length (a b : string) :
  String.length (a ++ b) = String.length a + String.length b.
Proof. induction a as [|x a IH]; ssimpl; [reflexivity | now rewrite IH]. Qed.

Lemma string_app_eq_nil (a b : string) : a ++ b = "" -> a = "" /\ b = "".
Proof. destruct a; ssimpl; [auto | discriminate]. Qed.

Lemma startswith_app (p s : string) : Py.startswith (p ++ s) p = true.
Proof.
  unfold Py.startswith. induction p as [|x p IH]; ssimpl.
  - now destruct s.
  - destruct (ascii_dec x x) as [_|F]; [exact IH | now destruct F].
Qed.

Lemma startswith_inv (s p : string) :
  Py.startswith s p = true -> exists r, s = p ++ r.
Proof.
  unfold Py.startswith. revert s. induction p as [|x p IH]; intros s H.
  - exists s. reflexivity.
  - destruct s as [|y s]; simpl in H; [discriminate|].
    destruct (ascii_dec x y) as [->|]; [|discriminate].
    destruct (IH _ H) as [r ->]. now exists r.
Qed.

Lemma startswith_iff (s p : string) :
  Py.startswith s p = true <-> exists r, s = p ++ r.
Proof.
  split; [apply startswith_inv | intros [r ->]; apply startswith_app].
Qed.

Lemma drop_app (p s : string) : Py.drop (String.length p) (p ++ s) = s.
Proof. induction p as [|x p IH]; ssimpl; [now destruct s | exact IH]. Qed.

Lemma truthy_false (s : string) : Py.truthy s = false <-> s = "".
Proof.
  unfold Py.truthy. destruct (String.eqb_spec s ""); simpl; split; congruence.
Qed.

Lemma truthy_true (s : string) : Py.truthy s = true <-> s <> "".
Proof.
  unfold Py.truthy. destruct (String.eqb_spec s ""); simpl; split; congruence.
Qed.

(** What [rstrip] leaves does not end with a stripped character. *)
Lemma rstrip_by_last (p : ascii -> bool) (s t : string) (c : ascii) :
  Py.rstrip_by p s = t ++ String c "" -> p c = false.
Proof.
  revert t. induction s as [|x s IH]; intros t H; simpl in H.
  - destruct t; discriminate.
  - destruct (Py.rstrip_by p s) as [|y r] eqn:E.
    + destruct (p x) eqn:Px; [destruct t; discriminate|].
      destruct t as [|z t]; ssimpl in H.
      * now inversion H; subst.
      * inversion H as [[Hz Ht]]. destruct t; discriminate.
    + destruct t as [|z t]; ssimpl in H; [discriminate|].
      inversion H as [[Hz Ht]]. now apply (IH t).
Qed.

Lemma rstrip_by_idem (p : ascii -> bool) (s : string) :
  Py.rstrip_by p (Py.rstrip_by p s) = Py.rstrip_by p s.
Proof.
  induction s as [|x s IH]; simpl; [reflexivity|].
  destruct (Py.rstrip_by p s) as [|y r] eqn:E.
  - destruct (p x) eqn:Px; simpl; [reflexivity | now rewrite Px].
  - change (Py.rstrip_by p (String x (String y r)))
      with (match Py.rstrip_by p (String y r) with
            | "" => if p x then "" else String x ""
            | r0 => String x r0
            end).
    now rewrite IH.
Qed.

(** [rstrip] removes a run of stripped characters from the end, nothing
    else. *)
Lemma rstrip_by_decompose (p : ascii -> bool) (s : string) :
  exists t, s = Py.rstrip_by p s ++ t
            /\ Forall (fun c => p c = true) (list_ascii_of_string t).
Proof.
  induction s as [|x s (t & Hs & Ht)]; simpl.
  - exists "". split; [reflexivity | constructor].
  - destruct (Py.rstrip_by p s) as [|y r] eqn:E.
    + destruct (p x) eqn:Px.
      * exists (String x t). ssimpl in Hs. subst t. split; [reflexivity|].
        simpl. constructor; assumption.
      * exists t. ssimpl in Hs. ssimpl. split; [now f_equal | assumption].
    + exists t. split; [ssimpl; now f_equal | assumption].
Qed.

Lemma rstrip_by_fixed (p : ascii -> bool) (s : string) (c : ascii) :
  p c = false -> Py.rstrip_by p (s ++ String c "") = s ++ String c "".
Proof.
  intros Pc. induction s as [|x s IH]; ssimpl.
  - now rewrite Pc.
  - rewrite IH. destruct s; reflexivity.
Qed.

Lemma lstrip_by_idem (p : ascii -> bool) (s : string) :
  Py.lstrip_by p (Py.lstrip_by p s) = Py.lstrip_by p s.
Proof.
  induction s as [|x s IH]; simpl; [reflexivity|].
  destruct (p x) eqn:Px; [exact IH | simpl; now rewrite Px].
Qed.

Lemma lstrip_by_head (p : ascii -> bool) (s t : string) (c : ascii) :
  Py.lstrip_by p s = String c t -> p c = false.
Proof.
  induction s as [|x s IH]; simpl; [discriminate|].
  destruct (p x) eqn:Px; [exact IH | intros [= -> _]; exact Px].
Qed.

(** Stripping on the right keeps a first character that is not stripped. *)
Lemma rstrip_by_head (p : ascii -> bool) (s : string) (c : ascii) :
  p c = false -> exists t, Py.rstrip_by p (String c s) = String c t.
Proof.
  intros Pc. simpl. destruct (Py.rstrip_by p s); rewrite ?Pc; eauto.
Qed.

Lemma strip_idem (s : string) : Py.strip (Py.strip s) = Py.strip s.
Proof.
  unfold Py.strip.
  destruct (Py.lstrip_by Py.isspace s) as [|c t] eqn:E; [reflexivity|].
  pose proof (lstrip_by_head _ _ _ _ E) as Pc.
  destruct (rstrip_by_head Py.isspace t c Pc) as [u Hu]. rewrite Hu.
  simpl. rewrite Pc. rewrite <- Hu. apply rstrip_by_idem.
Qed.

End StringFacts.

(** ** C8: base-URL normalization *)

(** C8.  For every base URL [U], a fortiori for one that ends with one or
    more slashes, [_normalize_base_url U] does not end with a slash, and
    normalizing it again changes nothing. *)
Theorem normalize_base_url_no_trailing_slash_idempotent (U : string) :
  (forall t, _normalize_base_url U <> t ++ "/")
  /\ _normalize_base_url (_normalize_base_url U) = _normalize_base_url U.
Proof.
  split.
  - intros t H. apply rstrip_by_last in H. discriminate.
  - apply rstrip_by_idem.
Qed.

(** The normalized URL is the given one without its final run of slashes. *)
Lemma normalize_base_url_decompose (U : string) :
  exists t, U = _normalize_base_url U ++ t
            /\ Forall (fun c => c = "/"%char) (list_ascii_of_string t).
Proof.
  destruct (rstrip_by_decompose (Ascii.eqb "/") U) as (t & Hs & Ht).
  exists t. split; [exact Hs|].
  eapply Forall_impl; [exact Ht|]. intros c Hc. simpl in Hc.
  symmetry. now apply Ascii.eqb_eq.
Qed.

Example normalize_base_url_example :
  _normalize_base_url "https://overleaf.example.com//" = "https://overleaf.example.com".
Proof. reflexivity. Qed.

(** ** C4: the cookie header *)

Section CookieHeader.

Lemma lower_app (a b : string) : Py.lower (a ++ b) = Py.lower a ++ Py.lower b.
Proof. induction a as [|x a IH]; ssimpl; [reflexivity | now rewrite IH]. Qed.

Lemma string_snoc_inv (s : string) :
  s <> "" -> exists u c, s = u ++ String c "".
Proof.
  induction s as [|x s IH]; [congruence|]. intros _.
  destruct s as [|y s].
  - exists "", x. reflexivity.
  - destruct IH as (u & c & E); [discriminate|].
    exists (String x u), c. ssimpl. now rewrite E.
Qed.

Lemma strip_last (s u : string) (c : ascii) :
  Py.strip s = u ++ String c "" -> Py.isspace c = false.
Proof. unfold Py.strip. apply rstrip_by_last. Qed.

(** The header built without the key in the cookie is already trimmed. *)
Lemma strip_key_app (t : string) :
  Py.strip t = t -> Py.strip ("overleaf.sid=" ++ t) = "overleaf.sid=" ++ t.
Proof.
  intros Ht. unfold Py.strip at 1.
  change (Py.lstrip_by Py.isspace ("overleaf.sid=" ++ t)) with ("overleaf.sid=" ++ t).
  destruct (string_dec t "") as [->|Hne]; [reflexivity|].
  destruct (string_snoc_inv t Hne) as (u & c & E).
  assert (Pc : Py.isspace c = false).
  { apply (strip_last t u). now rewrite Ht. }
  rewrite E, <- string_app_assoc. now apply rstrip_by_fixed.
Qed.

End CookieHeader.

(** C4, counterexample.  The cookie ["overleaf.sid=abc "] starts with the
    key, and the header is not the cookie: its final space is gone. *)
Lemma cookie_header_not_verbatim :
  ~ cookie_header_as_stated "overleaf.sid=abc ".
Proof.
  intros [H _]. specialize (H eq_refl). vm_compute in H. discriminate.
Qed.

(** C4, amended.  The test and the result are on the trimmed cookie: the
    header is the trimmed cookie when that starts with the key in any case,
    and the key followed by the trimmed cookie otherwise.  Either way the
    header starts with the key, in some case, and is trimmed. *)
Theorem cookie_header_trimmed (C : string) :
  _cookie_header C
  = (if istartswith (Py.strip C) "overleaf.sid=" then Py.strip C
     else "overleaf.sid=" ++ Py.strip C)
  /\ istartswith (_cookie_header C) "overleaf.sid=" = true
  /\ Py.strip (_cookie_header C) = _cookie_header C.
Proof.
  unfold _cookie_header, istartswith.
  destruct (Py.startswith (Py.lower (Py.strip C)) "overleaf.sid=") eqn:E.
  - repeat split; [exact E | apply strip_idem].
  - repeat split.
    + rewrite lower_app. apply startswith_app.
    + apply strip_key_app, strip_idem.
Qed.

(** On a cookie without surrounding white space the statement holds as it
    is worded. *)
Lemma cookie_header_as_stated_when_trimmed (C : string) :
  Py.strip C = C -> cookie_header_as_stated C.
Proof.
  intros HC. unfold cookie_header_as_stated, _cookie_header, istartswith.
  rewrite HC. split; intros E; rewrite E; reflexivity.
Qed.

Example cookie_header_bare_value : _cookie_header " s%3Aabc " = "overleaf.sid=s%3Aabc".
Proof. reflexivity. Qed.

Example cookie_header_full_pair : _cookie_header "Overleaf.SID=abc" = "Overleaf.SID=abc".
Proof. reflexivity. Qed.

(** ** C1: common-root detection *)

Section CommonRoot.

Lemma top_dirs_fold (names : list string) (X : gset string) (x : string) :
  x ∈ foldl top_dirs_step X names
  <-> x ∈ X \/ exists n, n ∈ names /\ first_segment n = Some x.
Proof.
  revert X. induction names as [|m names IH]; intros X; simpl.
  - split; [auto | intros [H | (n & Hn & _)]; [exact H | inversion Hn]].
  - rewrite IH. unfold top_dirs_step, first_segment.
    split.
    + intros [H | (n & Hn & Hx)].
      * destruct (name_parts m) as [|p0 ps] eqn:E.
        -- now left.
        -- apply elem_of_union in H as [H | H]; [|now left].
           apply elem_of_singleton in H. subst x. right. exists m.
           rewrite E. split; [left | reflexivity].
      * right. exists n. split; [now right | exact Hx].
    + intros [H | (n & Hn & Hx)].
      * left. destruct (name_parts m); [exact H|].
        apply elem_of_union. now right.
      * apply elem_of_cons in Hn as [-> | Hn].
        -- left. destruct (name_parts m) as [|p0 ps]; [discriminate|].
           simpl in Hx. injection Hx as ->.
           apply elem_of_union. left. now apply elem_of_singleton.
        -- right. exists n. auto.
Qed.

(** The set built by the loop is the set of the first segments. *)
Lemma top_dirs_of_spec (names : list string) (x : string) :
  x ∈ top_dirs_of names <-> exists n, n ∈ names /\ first_segment n = Some x.
Proof.
  unfold top_dirs_of. rewrite top_dirs_fold.
  split; [intros [F | H]; [now apply not_elem_of_empty in F | exact H] | auto].
Qed.

Lemma existsb_startswith (names : list string) (p : string) :
  existsb (fun n => Py.startswith n p) names = true
  <-> exists n, n ∈ names /\ Py.startswith n p = true.
Proof.
  rewrite existsb_exists. split; intros (n & Hn & H); exists n;
    (split; [now apply list_elem_of_In | exact H]).
Qed.

(** What the function computes: the set of the first segments is a
    singleton, and some entry path starts with its element and a slash. *)
Lemma single_root_dir_Some (names : list string) (root : string) :
  _single_root_dir names = Some root
  <-> top_dirs_of names = {[ root ]}
      /\ exists n, n ∈ names /\ Py.startswith n (root ++ "/") = true.
Proof.
  unfold _single_root_dir. split.
  - destruct (Nat.eqb_spec (size (top_dirs_of names)) 1) as [Hsz|]; simpl;
      [|discriminate].
    apply size_1_elem_of in Hsz as [x Hx]. apply leibniz_equiv in Hx.
    rewrite Hx, elements_singleton.
    destruct (existsb _ names) eqn:E; simpl; [|discriminate].
    intros [= <-]. split; [reflexivity|]. now apply existsb_startswith.
  - intros [-> Hex]. rewrite size_singleton, elements_singleton. simpl.
    apply existsb_startswith in Hex. now rewrite Hex.
Qed.

(** The same, on the entry paths themselves. *)
Lemma single_root_dir_iff (names : list string) (root : string) :
  _single_root_dir names = Some root
  <-> (forall x, (exists n, n ∈ names /\ first_segment n = Some x) <-> x = root)
      /\ exists n, n ∈ names /\ Py.startswith n (root ++ "/") = true.
Proof.
  rewrite single_root_dir_Some.
  split; intros [Hset Hex]; (split; [|exact Hex]).
  - intros x. rewrite <- top_dirs_of_spec, Hset. apply elem_of_singleton.
  - apply set_eq. intros x. rewrite top_dirs_of_spec, Hset. symmetry.
    apply elem_of_singleton.
Qed.

(** A root that meets the stated condition is detected. *)
Lemma common_root_as_stated_detected (names : list string) (root : string) :
  common_root_as_stated names root -> _single_root_dir names = Some root.
Proof.
  intros [Hset (n & Hn & Hp & _)]. apply single_root_dir_iff.
  split; [exact Hset | eauto].
Qed.

End CommonRoot.

Example single_root_dir_proj :
  _single_root_dir ["proj/a.tex"; "proj/sub/b.tex"] = Some "proj".
Proof. vm_compute. reflexivity. Qed.

Example single_root_dir_flat_files : _single_root_dir ["a.tex"; "b.tex"] = None.
Proof. vm_compute. reflexivity. Qed.

Example single_root_dir_two_tops : _single_root_dir ["proj/"; "other/"] = None.
Proof. vm_compute. reflexivity. Qed.

(** C1.  On the archive whose only entry is the directory ["proj/"], the
    function detects the root ["proj"], although no entry path is longer
    than ["proj/"]: the statement, and the comment of line 66 of the script,
    ask for an entry under the root. *)
Theorem single_root_dir_of_lone_directory :
  _single_root_dir ["proj/"] = Some "proj"
  /\ ~ common_root_as_stated ["proj/"] "proj".
Proof.
  split; [vm_compute; reflexivity|].
  intros [_ (n & Hn & _ & Hlen)].
  apply list_elem_of_singleton in Hn. subst n. simpl in Hlen. lia.
Qed.

(** ** C5: token extraction *)

Section TokenExtraction.

Lemma list_ascii_app (a b : string) :
  list_ascii_of_string (a ++ b)
  = (list_ascii_of_string a ++ list_ascii_of_string b)%list.
Proof. induction a as [|x a IH]; ssimpl; [reflexivity | now rewrite IH]. Qed.

Lemma contains_unfold (s sub : string) :
  contains s sub
  = Py.startswith s sub
    || match s with
       | String _ s' => contains s' sub
       | EmptyString => false
       end.
Proof. destruct s; reflexivity. Qed.

Lemma contains_app (a sub b : string) : contains (a ++ sub ++ b) sub = true.
Proof.
  induction a as [|x a IH]; rewrite contains_unfold.
  - rewrite string_app_nil_l, startswith_app. reflexivity.
  - rewrite string_app_cons, IH. apply orb_true_r.
Qed.

(** A run of literals matches exactly the text that starts with them. *)
Lemma re_match_lits (a : string) (p : list re_item) (s : string) (gs : list string) :
  re_match (map Lit (list_ascii_of_string a) ++ p) s = Some gs
  <-> exists r, s = a ++ r /\ re_match p r = Some gs.
Proof.
  revert s. induction a as [|x a IH]; intros s; simpl.
  - split; [intros H; now exists s | intros (r & -> & H); exact H].
  - destruct s as [|d s].
    + split; [discriminate | intros (r & E & _); discriminate].
    + destruct (Ascii.eqb_spec d x) as [->|Hne].
      * rewrite IH. split; intros (r & E & H); exists r; (split; [|exact H]).
        -- ssimpl. now rewrite E.
        -- ssimpl in E. now injection E.
      * split; [discriminate|]. intros (r & E & _). ssimpl in E.
        injection E as E _. contradiction.
Qed.

(** The group and the closing character: the group is the text before the
    first occurrence of the character. *)
Lemma re_match_group (q : ascii) (s : string) (gs : list string) :
  re_match [GroupStarNot q; Lit q] s = Some gs
  <-> exists v post, gs = [v] /\ s = v ++ String q post
                     /\ ~ In q (list_ascii_of_string v).
Proof.
  revert gs. induction s as [|d s IH]; intros gs.
  - simpl. split; [discriminate|].
    intros (v & post & _ & E & _). destruct v; discriminate.
  - cbn [re_match]. cbn [re_match] in IH.
    destruct (Ascii.eqb_spec d q) as [->|Hne].
    + simpl. split.
      * intros [= <-]. exists "", s. repeat split. simpl. tauto.
      * intros (v & post & -> & E & Hv). destruct v as [|y v]; [reflexivity|].
        ssimpl in E. injection E as -> _. simpl in Hv. tauto.
    + match goal with
      | |- context [match ?t s with _ => _ end] => destruct (t s) as [[|g gs']|] eqn:Es
      end.
      * exfalso. destruct (proj1 (IH []) eq_refl) as (v & post & F & _). discriminate.
      * destruct (proj1 (IH (g :: gs')) eq_refl) as (v & post & [= -> ->] & E & Hv).
        split.
        -- intros [= <-]. exists (String d v), post. repeat split.
           ++ ssimpl. now rewrite E.
           ++ simpl. intros [F | F]; [now apply Hne | now apply Hv].
        -- intros (v' & post' & -> & E' & Hv'). destruct v' as [|y v'].
           ++ ssimpl in E'. injection E' as F _. contradiction.
           ++ ssimpl in E'. injection E' as <- E'.
              assert (Some [v] = Some [v']) as [= ->]; [|reflexivity].
              apply (proj2 (IH _)). exists v', post'. repeat split; [exact E'|].
              simpl in Hv'. tauto.
      * simpl. split; [discriminate|].
        intros (v' & post' & -> & E' & Hv'). destruct v' as [|y v'].
        -- ssimpl in E'. injection E' as F _. contradiction.
        -- ssimpl in E'. injection E' as <- E'.
           assert (None = Some [v']) as F; [|discriminate].
           apply (proj2 (IH _)). exists v', post'. repeat split; [exact E'|].
           simpl in Hv'. tauto.
Qed.

(** The pattern matches at the start of a text exactly when the text
    starts with the opening of the tag, a value without double quote, and
    a double quote; the group is the value. *)
Lemma re_match_csrf (s : string) (gs : list string) :
  re_match csrf_pattern s = Some gs
  <-> exists v post, gs = [v] /\ token_at s "" v post.
Proof.
  unfold csrf_pattern, token_at. rewrite re_match_lits. split.
  - intros (r & -> & H). apply re_match_group in H as (v & post & -> & -> & Hv).
    exists v, post. repeat split; assumption.
  - intros (v & post & -> & E & Hv). ssimpl in E.
    exists (v ++ dq ++ post). split; [exact E|].
    apply re_match_group. exists v, post. repeat split; assumption.
Qed.

Lemma token_at_cons (c : ascii) (s pre v post : string) :
  token_at s pre v post -> token_at (String c s) (String c pre) v post.
Proof. intros [-> Hv]. split; [reflexivity | exact Hv]. Qed.

Lemma re_search_unfold (p : list re_item) (s : string) :
  re_search p s
  = match re_match p s with
    | Some gs => Some gs
    | None =>
        match s with
        | String _ s' => re_search p s'
        | EmptyString => None
        end
    end.
Proof. destruct s; reflexivity. Qed.

(** [re.search] returns the value of the leftmost occurrence. *)
Lemma re_search_csrf_leftmost (body pre v post : string) :
  token_at body pre v post ->
  (forall pre' v' post', token_at body pre' v' post' ->
     String.length pre <= String.length pre') ->
  re_search csrf_pattern body = Some [v].
Proof.
  revert body. induction pre as [|c pre IH]; intros body Hat Hleft;
    rewrite re_search_unfold.
  - assert (re_match csrf_pattern body = Some [v]) as Hm.
    { apply re_match_csrf. eauto. }
    now rewrite Hm.
  - destruct (re_match csrf_pattern body) as [gs|] eqn:Hm.
    + apply re_match_csrf in Hm as (v' & post' & _ & Hat').
      apply Hleft in Hat'. simpl in Hat'. lia.
    + destruct Hat as [-> Hv]. rewrite string_app_cons.
      apply IH; [split; [reflexivity | exact Hv]|].
      intros pre' v' post' Hat'.
      apply (token_at_cons c) in Hat'. rewrite <- string_app_cons in Hat'.
      apply Hleft in Hat'. simpl in Hat'. lia.
Qed.

(** [re.search] finds nothing when there is no occurrence. *)
Lemma re_search_csrf_none (body : string) :
  (forall pre v post, ~ token_at body pre v post) ->
  re_search csrf_pattern body = None.
Proof.
  induction body as [|c body IH]; intros Hno; rewrite re_search_unfold;
    destruct (re_match csrf_pattern _) as [gs|] eqn:Hm;
    try (apply re_match_csrf in Hm as (v & post & _ & Hat); now apply Hno in Hat).
  - reflexivity.
  - apply IH. intros pre v post Hat. apply (token_at_cons c) in Hat.
    now apply Hno in Hat.
Qed.

(** What is found is an occurrence, the leftmost one. *)
Lemma re_search_csrf_some (body : string) (gs : list string) :
  re_search csrf_pattern body = Some gs ->
  exists pre v post, gs = [v] /\ token_at body pre v post
    /\ forall pre' v' post', token_at body pre' v' post' ->
         String.length pre <= String.length pre'.
Proof.
  induction body as [|c body IH]; rewrite re_search_unfold;
    destruct (re_match csrf_pattern _) as [gs'|] eqn:Hm;
    try (intros [= ->]; apply re_match_csrf in Hm as (v & post & -> & Hat);
         exists "", v, post; repeat split; try apply Hat; intros; simpl; lia).
  intros H. apply IH in H as (pre & v & post & -> & Hat & Hleft).
  {
    exists (String c pre), v, post. split; [reflexivity|].
    split; [now apply token_at_cons|].
    intros pre' v' post' Hat'. destruct pre' as [|c' pre'].
    + exfalso. assert (re_match csrf_pattern (String c body) = Some [v']) as F.
      { apply re_match_csrf. eauto. }
      congruence.
    + destruct Hat' as [E Hv']. rewrite string_app_cons in E. injection E as -> E.
      simpl. apply le_n_S. apply (Hleft pre' v' post'). now split.
  }
Qed.

(** The fetcher, unfolded: one request, the status check, the search. *)
Lemma get_csrf_token_unfold (pf : Platform) (base_url project_id : string) (w : World) :
  let r := token_response pf base_url project_id w in
  let w' := {| session_headers := session_headers w;
               disk := disk w;
               trace := trace w ++ [EvGet (base_url ++ "/project/" ++ project_id)
                                         (session_headers w)] |} in
  get_csrf_token pf base_url project_id w
  = if ((400 <=? status_code r) && (status_code r <? 600))%Z
    then (Raise (HTTPError r), w')
    else (Ok (option_map (fun gs => nth 0 gs "") (re_search csrf_pattern (text r))), w').
Proof.
  unfold get_csrf_token, token_response, bind, session_get, raise_for_status.
  simpl. destruct (_ && _)%bool; simpl; [reflexivity|].
  destruct (re_search csrf_pattern _); reflexivity.
Qed.

Lemma success_not_error (r : Response) :
  is_success r -> ((400 <=? status_code r) && (status_code r <? 600))%Z = false.
Proof. unfold is_success. intros H. apply andb_false_iff. left. lia. Qed.

End TokenExtraction.

(** C5, counterexample.  The page with the self-closing tag holds no marker
    of the stated shape, and the fetcher returns the value ["abc"], not the
    absence of a token. *)
Lemma csrf_token_without_closing_bracket :
  ~ token_extraction_as_stated
      (fixed_platform (html_response 200 page_with_self_closing_tag))
      "https://overleaf.example.com" "p1" empty_world.
Proof.
  intros H. destruct H as [_ H]; [unfold is_success; simpl; lia|].
  assert (fst (get_csrf_token
                 (fixed_platform (html_response 200 page_with_self_closing_tag))
                 "https://overleaf.example.com" "p1" empty_world)
          = Ok (Some "abc")) as E by (vm_compute; reflexivity).
  rewrite E in H. enough (Ok (Some "abc") = @Ok (option string) None) by discriminate.
  apply H. intros pre v post [F _]. simpl in F.
  apply (f_equal (fun s => contains s (dq ++ ">"))) in F.
  replace (pre ++ csrf_meta_open ++ v ++ dq ++ ">" ++ post)
    with ((pre ++ csrf_meta_open ++ v) ++ (dq ++ ">") ++ post) in F
    by (now rewrite !string_app_assoc).
  rewrite contains_app in F. vm_compute in F. discriminate.
Qed.

(** C5, amended.  On a successful response the fetcher returns the value of
    the leftmost occurrence of the opening of the tag, a value without
    double quote and the double quote that closes it, whatever follows; it
    returns no token when there is no such occurrence; what it returns is
    the value of an occurrence; and it does not raise. *)
Theorem csrf_token_leftmost_value (pf : Platform) (base_url project_id : string)
  (w : World) :
  let r := token_response pf base_url project_id w in
  let res := fst (get_csrf_token pf base_url project_id w) in
  is_success r ->
  (forall pre v post,
     token_at (text r) pre v post ->
     (forall pre' v' post', token_at (text r) pre' v' post' ->
        String.length pre <= String.length pre') ->
     res = Ok (Some v))
  /\ ((forall pre v post, ~ token_at (text r) pre v post) -> res = Ok None)
  /\ (forall v, res = Ok (Some v) -> exists pre post, token_at (text r) pre v post)
  /\ (exists o, res = Ok o).
Proof.
  intros r res Hok. subst res. rewrite get_csrf_token_unfold.
  fold r. rewrite (success_not_error r Hok). simpl.
  repeat split.
  - intros pre v post Hat Hleft.
    now rewrite (re_search_csrf_leftmost _ _ _ _ Hat Hleft).
  - intros Hno. now rewrite (re_search_csrf_none _ Hno).
  - intros v. destruct (re_search csrf_pattern (text r)) as [gs|] eqn:E;
      [|discriminate].
    apply re_search_csrf_some in E as (pre & v' & post & -> & Hat & _).
    simpl. intros [= <-]. eauto.
  - eauto.
Qed.

Lemma csrf_token_leftmost_value_witness :
  fst (get_csrf_token
         (fixed_platform (html_response 200 (csrf_meta_open ++ "abc123" ++ dq ++ ">")))
         "https://overleaf.example.com" "p1" empty_world)
  = Ok (Some "abc123").
Proof.
  refine (proj1 (csrf_token_leftmost_value
                   (fixed_platform (html_response 200 (csrf_meta_open ++ "abc123" ++ dq ++ ">")))
                   "https://overleaf.example.com" "p1" empty_world _)
            "" "abc123" ">" _ _).
  - unfold is_success. simpl. lia.
  - split; [reflexivity|]. unfold no_dquote. simpl.
    intros [F|[F|[F|[F|[F|[F|F]]]]]]; try discriminate F; exact F.
  - intros pre' v' post' _. simpl. lia.
Defined.

(** A marker of the stated shape is an occurrence, followed by the
    bracket. *)
Lemma marker_at_token_at (body pre v post : string) :
  marker_at body pre v post -> token_at body pre v (">" ++ post).
Proof. intros [-> Hv]. split; [reflexivity | exact Hv]. Qed.

Example csrf_token_of_page :
  fst (get_csrf_token (fixed_platform (html_response 200 page_with_token))
         "https://overleaf.example.com" "p1" empty_world)
  = Ok (Some "abc123").
Proof. vm_compute. reflexivity. Qed.

Example csrf_token_absent :
  fst (get_csrf_token (fixed_platform (html_response 200 "<head></head>"))
         "https://overleaf.example.com" "p1" empty_world)
  = Ok None.
Proof. vm_compute. reflexivity. Qed.

(** With two tags, the value is that of the first. *)
Example csrf_token_first_of_two :
  fst (get_csrf_token
         (fixed_platform
            (html_response 200
               (csrf_meta_open ++ "a" ++ dq ++ ">" ++ csrf_meta_open ++ "b" ++ dq ++ ">")))
         "https://overleaf.example.com" "p1" empty_world)
  = Ok (Some "a").
Proof. vm_compute. reflexivity. Qed.

(** ** C2: archive validation *)

Section ArchiveValidation.

Lemma bytes_startswith_PK (data : list byte) :
  bytes_startswith data PK = true <-> exists rest, data = x50 :: x4b :: rest.
Proof.
  unfold PK. split.
  - destruct data as [|a [|b rest]]; simpl; try discriminate.
    + now rewrite andb_false_r.
    + intros H. apply andb_prop in H as [Ha H]. apply andb_prop in H as [Hb _].
      apply byte_dec_bl in Ha, Hb. subst. now exists rest.
  - intros [rest ->]. simpl. now destruct rest.
Qed.

(** The fetcher, unfolded: one request, the status check, the signature
    check. *)
Lemma download_zip_unfold (pf : Platform) (base_url project_id : string) (w : World) :
  let r := archive_response pf base_url project_id w in
  let w' := {| session_headers := session_headers w;
               disk := disk w;
               trace := trace w
                        ++ [EvGet (base_url ++ "/project/" ++ project_id ++ "/download/zip")
                                  (session_headers w)] |} in
  download_zip pf base_url project_id w
  = if ((400 <=? status_code r) && (status_code r <? 600))%Z
    then (Raise (HTTPError r), w')
    else if bytes_startswith (content r) PK then (Ok (content r), w')
         else (Raise (RuntimeError
                        (not_a_zip_message pf (declared_content_type r) (content r))),
               w').
Proof.
  unfold download_zip, archive_response, bind, session_get, raise_for_status.
  simpl. destruct (_ && _)%bool; simpl; [reflexivity|].
  destruct (bytes_startswith _ PK); reflexivity.
Qed.

End ArchiveValidation.

(** C2.  On a successful response the fetcher raises the format error (a
    [RuntimeError]) exactly when the body does not start with the two bytes
    [PK]; the message is made of the declared content type and of the
    rendering of the decoded first 200 bytes of the body, at most; when the
    body starts with [PK] the fetcher returns the body as it is. *)
Theorem download_zip_checks_signature (pf : Platform) (base_url project_id : string)
  (w : World) :
  let r := archive_response pf base_url project_id w in
  let res := fst (download_zip pf base_url project_id w) in
  is_success r ->
  ((exists msg, res = Raise (RuntimeError msg))
   <-> ~ exists rest, content r = x50 :: x4b :: rest)
  /\ (forall msg, res = Raise (RuntimeError msg) ->
        exists shown,
          shown = take 200 (content r)
          /\ length shown <= 200
          /\ msg = "Server did not return a zip file (got Content-Type: "
                   ++ declared_content_type r ++ "). First bytes: "
                   ++ repr pf (decode_utf8_replace pf shown) ++ "...")
  /\ ((exists rest, content r = x50 :: x4b :: rest) -> res = Ok (content r)).
Proof.
  intros r res Hok. subst res. rewrite download_zip_unfold. fold r.
  rewrite (success_not_error r Hok).
  destruct (bytes_startswith (content r) PK) eqn:E; simpl.
  - apply bytes_startswith_PK in E. repeat split.
    + intros [msg F]. discriminate.
    + intros F. contradiction.
    + intros msg F. discriminate.
  - assert (~ exists rest, content r = x50 :: x4b :: rest) as Hno.
    { intros F. apply bytes_startswith_PK in F. congruence. }
    repeat split.
    + intros _. exact Hno.
    + intros _. eauto.
    + intros msg [= <-]. exists (take 200 (content r)).
      split; [reflexivity|]. split; [rewrite length_take; lia|].
      reflexivity.
    + intros F. contradiction.
Qed.

Lemma download_zip_checks_signature_witness :
  fst (download_zip (fixed_platform (html_response 200 "PK-archive"))
         "https://overleaf.example.com" "p1" empty_world)
  = Ok (list_byte_of_string "PK-archive").
Proof.
  refine (proj2 (proj2 (download_zip_checks_signature
                          (fixed_platform (html_response 200 "PK-archive"))
                          "https://overleaf.example.com" "p1" empty_world _)) _).
  - unfold is_success. simpl. lia.
  - eexists. reflexivity.
Defined.

Example download_zip_login_page :
  fst (download_zip (fixed_platform (html_response 200 "<html>Log in</html>"))
         "https://overleaf.example.com" "p1" empty_world)
  = Raise (RuntimeError
             ("Server did not return a zip file (got Content-Type: text/html). "
              ++ "First bytes: '<html>Log in</html>'...")).
Proof. vm_compute. reflexivity. Qed.

(** ** C6: remote failures *)

Section RemoteFailure.

Lemma http_error_status (r : Response) :
  is_http_error r -> ((400 <=? status_code r) && (status_code r <? 600))%Z = true.
Proof. unfold is_http_error. intros H. apply andb_true_iff. lia. Qed.

(** [main] is its steps in sequence. *)
Lemma main_unfold (pf : Platform) (args : Args) (w : World) :
  main pf args w
  = bind (session_setup pf args)
      (fun _ =>
         bind (get_csrf_token pf (_normalize_base_url (arg_base_url args))
                 (arg_project_id args))
           (fun csrf =>
              bind (attach_token csrf)
                (fun _ =>
                   bind (download_zip pf (_normalize_base_url (arg_base_url args))
                           (arg_project_id args))
                     (fun zip_bytes =>
                        bind (extract_zip pf zip_bytes (arg_output_dir args) true)
                          (fun _ =>
                             print ("Extracted to "
                                    ++ path_str (resolve pf (arg_output_dir args)))))))) w.
Proof. reflexivity. Qed.

Lemma session_setup_ok (pf : Platform) (args : Args) (w : World) :
  fst (session_setup pf args w) = Ok tt.
Proof. reflexivity. Qed.

Lemma attach_token_ok (csrf : option string) (w : World) :
  fst (attach_token csrf w) = Ok tt.
Proof. destruct csrf as [t|]; simpl; [destruct (Py.truthy t)|]; reflexivity. Qed.

(** An exception of the token fetch is the outcome of [main]. *)
Lemma main_propagates_token_error (pf : Platform) (args : Args) (w : World) (e : exn) :
  fst (get_csrf_token pf (_normalize_base_url (arg_base_url args))
         (arg_project_id args) (snd (session_setup pf args w))) = Raise e ->
  fst (main pf args w) = Raise e.
Proof.
  intros H. rewrite main_unfold. unfold bind at 1.
  destruct (session_setup pf args w) as [r1 w1] eqn:E1.
  assert (r1 = Ok tt) as -> by (now rewrite <- (session_setup_ok pf args w), E1).
  simpl in H. unfold bind at 1.
  destruct (get_csrf_token _ _ _ w1) as [r2 w2]. simpl in H. now subst r2.
Qed.

(** An exception of the archive fetch is the outcome of [main]. *)
Lemma main_propagates_download_error (pf : Platform) (args : Args) (w w2 : World)
  (csrf : option string) (e : exn) :
  get_csrf_token pf (_normalize_base_url (arg_base_url args))
    (arg_project_id args) (snd (session_setup pf args w)) = (Ok csrf, w2) ->
  fst (download_zip pf (_normalize_base_url (arg_base_url args))
         (arg_project_id args) (snd (attach_token csrf w2))) = Raise e ->
  fst (main pf args w) = Raise e.
Proof.
  intros H2 H3. rewrite main_unfold. unfold bind at 1.
  destruct (session_setup pf args w) as [r1 w1] eqn:E1.
  assert (r1 = Ok tt) as -> by (now rewrite <- (session_setup_ok pf args w), E1).
  simpl in H2. unfold bind at 1. rewrite H2. unfold bind at 1.
  destruct (attach_token csrf w2) as [r3 w3] eqn:E3.
  assert (r3 = Ok tt) as -> by (now rewrite <- (attach_token_ok csrf w2), E3).
  simpl in H3. unfold bind at 1.
  destruct (download_zip _ _ _ w3) as [r4 w4]. simpl in H3. now subst r4.
Qed.

End RemoteFailure.

(** C6, counterexample.  The status 304 is not a success, and neither
    fetcher raises on it. *)
Lemma not_modified_is_not_raised :
  ~ remote_failure_as_stated (fixed_platform (html_response 304 ""))
      "https://overleaf.example.com" "p1" empty_world.
Proof.
  intros [H _].
  assert (~ is_success (token_response (fixed_platform (html_response 304 ""))
                          "https://overleaf.example.com" "p1" empty_world)) as Hns.
  { unfold is_success. simpl. lia. }
  apply H in Hns. vm_compute in Hns. discriminate.
Qed.

(** C6, amended.  On a response with a status from 400 to 599 each fetcher
    raises the error that holds the response, hence its URL and its status
    code; and an exception of either fetch is the outcome of the whole
    run. *)
Theorem http_error_raised_and_propagated (pf : Platform) (base_url project_id : string)
  (w : World) (args : Args) :
  (is_http_error (token_response pf base_url project_id w) ->
   fst (get_csrf_token pf base_url project_id w)
   = Raise (HTTPError (token_response pf base_url project_id w)))
  /\ (is_http_error (archive_response pf base_url project_id w) ->
      fst (download_zip pf base_url project_id w)
      = Raise (HTTPError (archive_response pf base_url project_id w)))
  /\ (forall e,
        fst (get_csrf_token pf (_normalize_base_url (arg_base_url args))
               (arg_project_id args) (snd (session_setup pf args w))) = Raise e ->
        fst (main pf args w) = Raise e)
  /\ (forall csrf w2 e,
        get_csrf_token pf (_normalize_base_url (arg_base_url args))
          (arg_project_id args) (snd (session_setup pf args w)) = (Ok csrf, w2) ->
        fst (download_zip pf (_normalize_base_url (arg_base_url args))
               (arg_project_id args) (snd (attach_token csrf w2))) = Raise e ->
        fst (main pf args w) = Raise e).
Proof.
  repeat split.
  - intros H. rewrite get_csrf_token_unfold. simpl.
    now rewrite (http_error_status _ H).
  - intros H. rewrite download_zip_unfold. simpl.
    now rewrite (http_error_status _ H).
  - apply main_propagates_token_error.
  - intros csrf w2 e. apply main_propagates_download_error.
Qed.

Lemma http_error_raised_and_propagated_witness :
  fst (get_csrf_token (fixed_platform (html_response 403 "Forbidden"))
         "https://overleaf.example.com" "p1" empty_world)
  = Raise (HTTPError (html_response 403 "Forbidden")).
Proof.
  refine (proj1 (http_error_raised_and_propagated
                   (fixed_platform (html_response 403 "Forbidden"))
                   "https://overleaf.example.com" "p1" empty_world
                   {| arg_project_id := "p1"; arg_cookie := "abc";
                      arg_base_url := "https://overleaf.example.com/";
                      arg_output_dir := "out" |}) _).
  unfold is_http_error. simpl. lia.
Defined.

(** A run against a server that forbids the project page ends with the
    error of the first request. *)
Example main_forbidden :
  fst (main (fixed_platform (html_response 403 "Forbidden"))
         {| arg_project_id := "p1"; arg_cookie := "abc";
            arg_base_url := "https://overleaf.example.com/";
            arg_output_dir := "out" |} empty_world)
  = Raise (HTTPError (html_response 403 "Forbidden")).
Proof. vm_compute. reflexivity. Qed.

(** ** C9: the session's headers *)

Section SessionFrame.

(** The extractor touches the disk only. *)
Lemma extract_zip_frame (pf : Platform) (zip_bytes : list byte) (output_dir : string)
  (flatten_single_root : bool) (w : World) :
  session_headers (snd (extract_zip pf zip_bytes output_dir flatten_single_root w))
  = session_headers w
  /\ trace (snd (extract_zip pf zip_bytes output_dir flatten_single_root w)) = trace w.
Proof.
  unfold extract_zip, bind, on_disk, raise.
  destruct (Path_mkdir (resolve pf output_dir) (disk w)) as [[[]|e] S1]; simpl;
    [|auto].
  destruct (zip_open pf zip_bytes) as [zf|]; simpl; [|auto].
  destruct (extract_members zf (resolve pf output_dir) flatten_single_root S1)
    as [r S2]; simpl; auto.
Qed.

Lemma header_writes_app (a b : list event) :
  header_writes (a ++ b) = (header_writes a ++ header_writes b)%list.
Proof. unfold header_writes. apply omap_app. Qed.

(** The archive fetch leaves the headers and logs its request. *)
Lemma download_zip_frame (pf : Platform) (base_url project_id : string) (w : World) :
  session_headers (snd (download_zip pf base_url project_id w)) = session_headers w
  /\ disk (snd (download_zip pf base_url project_id w)) = disk w
  /\ trace (snd (download_zip pf base_url project_id w))
     = (trace w ++ [EvGet (base_url ++ "/project/" ++ project_id ++ "/download/zip")
                      (session_headers w)])%list.
Proof.
  rewrite download_zip_unfold. simpl.
  destruct (_ && _)%bool; [|destruct (bytes_startswith _ _)]; simpl; auto.
Qed.

(** The token fetch leaves the headers and the disk, and logs its request. *)
Lemma get_csrf_token_frame (pf : Platform) (base_url project_id : string) (w : World) :
  session_headers (snd (get_csrf_token pf base_url project_id w)) = session_headers w
  /\ disk (snd (get_csrf_token pf base_url project_id w)) = disk w
  /\ trace (snd (get_csrf_token pf base_url project_id w))
     = (trace w ++ [EvGet (base_url ++ "/project/" ++ project_id) (session_headers w)])%list.
Proof.
  rewrite get_csrf_token_unfold. simpl. destruct (_ && _)%bool; simpl; auto.
Qed.

Lemma attach_token_trace (res : option string) (w : World) :
  trace (snd (attach_token res w)) = (trace w ++ token_attachment (Ok res))%list.
Proof.
  destruct res as [t|]; simpl; [destruct (Py.truthy t); simpl|];
    now rewrite ?app_nil_r.
Qed.

(** The effects of a run after the token fetch: the attachment of the token,
    then, when the fetch has returned, the request of the archive and what
    follows, without any header write. *)
Lemma main_trace (pf : Platform) (args : Args) (w : World) :
  let base_url := _normalize_base_url (arg_base_url args) in
  let o1 := get_csrf_token pf base_url (arg_project_id args)
              (snd (session_setup pf args w)) in
  exists tail,
    trace (snd (main pf args w))
    = (trace (snd o1) ++ token_attachment (fst o1) ++ tail)%list
    /\ header_writes tail = []
    /\ match fst o1 with
       | Ok csrf =>
           exists tl,
             tail = EvGet (base_url ++ "/project/" ++ arg_project_id args ++ "/download/zip")
                      (session_headers (snd (attach_token csrf (snd o1)))) :: tl
       | Raise _ => tail = []
       end.
Proof.
  intros base_url o1. rewrite main_unfold. unfold bind at 1.
  destruct (session_setup pf args w) as [r1 w1] eqn:E1.
  assert (r1 = Ok tt) as -> by (now rewrite <- (session_setup_ok pf args w), E1).
  subst o1. simpl snd. unfold bind at 1. fold base_url.
  destruct (get_csrf_token pf base_url (arg_project_id args) w1) as [[csrf|e] w2];
    simpl fst; simpl snd.
  2:{ exists []. simpl. now rewrite !app_nil_r. }
  unfold bind at 1.
  pose proof (attach_token_ok csrf w2) as Hok.
  pose proof (attach_token_trace csrf w2) as Htr.
  destruct (attach_token csrf w2) as [r3 w3]. simpl in Hok, Htr. subst r3.
  unfold bind at 1.
  pose proof (download_zip_frame pf base_url (arg_project_id args) w3) as (Hh & _ & Ht).
  destruct (download_zip pf base_url (arg_project_id args) w3) as [[zip_bytes|e] w4];
    simpl in Hh, Ht.
  2:{ simpl. eexists. rewrite Ht, Htr, <- app_assoc.
      split; [reflexivity|]. split; [reflexivity | eauto]. }
  unfold bind at 1.
  pose proof (extract_zip_frame pf zip_bytes (arg_output_dir args) true w4) as [_ Hx].
  destruct (extract_zip pf zip_bytes (arg_output_dir args) true w4) as [[[]|e] w5];
    simpl in Hx; simpl.
  - eexists. rewrite Hx, Ht, Htr, <- !app_assoc.
    split; [reflexivity|]. split; [reflexivity | eauto].
  - eexists. rewrite Hx, Ht, Htr, <- app_assoc.
    split; [reflexivity|]. split; [reflexivity | eauto].
Qed.

End SessionFrame.


(** A run against a server whose page holds the token: the cookie, the page,
    the token, the archive, in this order. *)
Example main_trace_with_token :
  trace (snd (main (fixed_platform (html_response 200 page_with_token))
                {| arg_project_id := "p1"; arg_cookie := "abc";
                   arg_base_url := "https://overleaf.example.com/";
                   arg_output_dir := "out" |} empty_world))
  = [ EvSetHeader "Cookie" "overleaf.sid=abc";
      EvGet "https://overleaf.example.com/project/p1"
        {[ "cookie" := ("Cookie", "overleaf.sid=abc") ]};
      EvSetHeader "X-CSRF-Token" "abc123";
      EvGet "https://overleaf.example.com/project/p1/download/zip"
        (<[ "x-csrf-token" := ("X-CSRF-Token", "abc123") ]>
           {[ "cookie" := ("Cookie", "overleaf.sid=abc") ]}) ].
Proof. vm_compute. reflexivity. Qed.

(** ** The file system *)

Section FileSystem.

Local Open Scope list_scope.

Implicit Types S T : gmap (list string) node.
Implicit Types p q cur : list string.

Lemma same_kind_refl (n : node) : same_kind n n.
Proof. now destruct n. Qed.

Lemma same_kind_sym (a b : node) : same_kind a b -> same_kind b a.
Proof. now destruct a, b. Qed.

Lemma same_kind_trans (a b c : node) : same_kind a b -> same_kind b c -> same_kind a c.
Proof. now destruct a, b, c. Qed.

Lemma same_kind_Dir (n : node) : same_kind Dir n -> n = Dir.
Proof. now destruct n. Qed.

Lemma same_kind_File (d : list byte) (n : node) :
  same_kind (File d) n -> exists d', n = File d'.
Proof. destruct n; [contradiction | eauto]. Qed.

Lemma fs_le_refl S : fs_le S S.
Proof. intros p n H. exists n. split; [exact H | apply same_kind_refl]. Qed.

Lemma fs_le_trans S T U : fs_le S T -> fs_le T U -> fs_le S U.
Proof.
  intros H1 H2 p n H. destruct (H1 _ _ H) as (n' & H' & K1).
  destruct (H2 _ _ H') as (n'' & H'' & K2). exists n''.
  split; [exact H'' | eapply same_kind_trans; eauto].
Qed.

Lemma same_shape_refl S : same_shape S S.
Proof. split; apply fs_le_refl. Qed.

Lemma same_shape_trans S T U : same_shape S T -> same_shape T U -> same_shape S U.
Proof. intros [A B] [C D]. split; eapply fs_le_trans; eauto. Qed.

Lemma dir_extends_refl S : dir_extends S S.
Proof. intros p. now left. Qed.

Lemma dir_extends_trans S T U : dir_extends S T -> dir_extends T U -> dir_extends S U.
Proof.
  intros H1 H2 p. destruct (H1 p) as [E1 | [E1 F1]], (H2 p) as [E2 | [E2 F2]].
  - left. congruence.
  - right. split; congruence.
  - right. split; congruence.
  - congruence.
Qed.

Lemma dir_extends_le S S1 : dir_extends S S1 -> fs_le S S1.
Proof.
  intros H p n Hp. destruct (H p) as [E | [E _]]; [|congruence].
  exists n. split; [congruence | apply same_kind_refl].
Qed.

(** Running again an action that has only added directories, on a disk that
    holds them, and without effect there. *)
Lemma dir_extends_replays S S1 T :
  dir_extends S S1 -> fs_le S1 T -> replays S S1 T T.
Proof.
  intros H Hle p. destruct (H p) as [E | [_ E]]; [now right|].
  left. destruct (Hle _ _ E) as (n' & Hn' & K).
  apply same_kind_Dir in K. congruence.
Qed.

Lemma replays_trans S S1 S2 T T1 T2 :
  replays S S1 T T1 -> replays S1 S2 T1 T2 -> replays S S2 T T2.
Proof.
  intros H1 H2 p. destruct (H2 p) as [E | [E F]]; [now left|].
  destruct (H1 p) as [E' | [E' F']]; [left | right; split]; congruence.
Qed.

Lemma fs_lookup_le S T p n :
  fs_le S T -> fs_lookup S p = Some n ->
  exists n', fs_lookup T p = Some n' /\ same_kind n n'.
Proof.
  intros H. destruct p as [|c p]; simpl.
  - intros [= <-]. now exists Dir.
  - apply H.
Qed.

Lemma fs_lookup_snoc S cur c : fs_lookup S (cur ++ [c]) = S !! (cur ++ [c]).
Proof. now destruct cur. Qed.

(** *** Paths *)

Lemma split_last_snoc p (c : string) : split_last (p ++ [c]) = Some (p, c).
Proof. unfold split_last. now rewrite rev_unit, rev_involutive. Qed.

Lemma split_last_Some p pre (c : string) :
  split_last p = Some (pre, c) -> p = pre ++ [c].
Proof.
  unfold split_last. destruct (rev p) as [|x r] eqn:E; [discriminate|].
  intros [= <- <-]. rewrite <- (rev_involutive p), E. reflexivity.
Qed.

Lemma split_last_None p : split_last p = None -> p = [].
Proof.
  unfold split_last. destruct (rev p) as [|x r] eqn:E; [|discriminate].
  intros _. rewrite <- (rev_involutive p), E. reflexivity.
Qed.

Lemma parent_snoc p (c : string) : parent (p ++ [c]) = p.
Proof. apply removelast_last. Qed.

(** *** The walk *)

Lemma resolve_dir_app S cur a b :
  resolve_dir S cur (a ++ b)
  = match resolve_dir S cur a with
    | Ok t => resolve_dir S t b
    | Raise e => Raise e
    end.
Proof.
  revert cur. induction a as [|c a IH]; intros cur; simpl; [reflexivity|].
  destruct (String.eqb c ".."); [apply IH|].
  destruct (fs_lookup S (cur ++ [c])) as [[|d]|]; auto.
Qed.

Lemma resolve_dir_le S T cur comps t :
  fs_le S T -> resolve_dir S cur comps = Ok t -> resolve_dir T cur comps = Ok t.
Proof.
  intros Hle. revert cur. induction comps as [|c comps IH]; intros cur; simpl;
    [auto|].
  destruct (String.eqb c ".."); [apply IH|].
  destruct (fs_lookup S (cur ++ [c])) as [[|d]|] eqn:E; try discriminate.
  destruct (fs_lookup_le _ _ _ _ Hle E) as (n' & -> & K).
  apply same_kind_Dir in K. subst n'. apply IH.
Qed.

(** Along a path without [..] the walk ends at the path. *)
Lemma resolve_dir_plain S cur comps t :
  plain comps -> resolve_dir S cur comps = Ok t -> t = cur ++ comps.
Proof.
  intros Hp. revert cur. induction Hp as [|c comps Hc Hp IH]; intros cur; simpl.
  - intros [= <-]. now rewrite app_nil_r.
  - apply String.eqb_neq in Hc. rewrite Hc.
    destruct (fs_lookup S (cur ++ [c])) as [[|d]|]; try discriminate.
    intros H. apply IH in H. now rewrite <- app_assoc in H.
Qed.

(** *** [stat] and its readers *)

Lemma stat_Dir_resolve S p :
  stat S p = Ok Dir <-> exists t, resolve_dir S [] p = Ok t.
Proof.
  unfold stat. destruct (split_last p) as [[pre c]|] eqn:E.
  - apply split_last_Some in E. subst p. rewrite resolve_dir_app.
    destruct (resolve_dir S [] pre) as [cur|e]; simpl.
    + destruct (String.eqb c ".."); [split; eauto|].
      destruct (fs_lookup S (cur ++ [c])) as [[|d]|]; split; eauto;
        try discriminate; intros [t F]; discriminate.
    + split; [discriminate | intros [t F]; discriminate].
  - apply split_last_None in E. subst p. simpl. split; eauto.
Qed.

Lemma is_dir_resolve S p :
  is_dir S p = true <-> exists t, resolve_dir S [] p = Ok t.
Proof.
  rewrite <- stat_Dir_resolve. unfold is_dir.
  destruct (stat S p) as [[|d]|e]; split; congruence.
Qed.

Lemma is_dir_le S T p : fs_le S T -> is_dir S p = true -> is_dir T p = true.
Proof.
  intros Hle. rewrite !is_dir_resolve. intros [t H]. exists t.
  eapply resolve_dir_le; eauto.
Qed.

Lemma is_dir_parent S p : is_dir S p = true -> is_dir S (parent p) = true.
Proof.
  rewrite !is_dir_resolve. intros [t H].
  destruct (split_last p) as [[pre c]|] eqn:E.
  - apply split_last_Some in E. subst p. rewrite parent_snoc.
    rewrite resolve_dir_app in H.
    destruct (resolve_dir S [] pre); [eauto | discriminate].
  - apply split_last_None in E. subst p. simpl. eauto.
Qed.

Lemma is_dir_exists S p : is_dir S p = true -> exists_path S p = true.
Proof. unfold is_dir, exists_path. now destruct (stat S p) as [[|d]|e]. Qed.

(** *** Disks of the same shape *)

Lemma same_shape_sym S T : same_shape S T -> same_shape T S.
Proof. intros [A B]. now split. Qed.

Lemma same_shape_le S T : same_shape S T -> fs_le S T.
Proof. now intros [A _]. Qed.

Lemma fs_lookup_shape S T p :
  same_shape S T ->
  match fs_lookup S p, fs_lookup T p with
  | Some a, Some b => same_kind a b
  | None, None => True
  | _, _ => False
  end.
Proof.
  intros [A B]. destruct (fs_lookup S p) as [a|] eqn:Ea.
  - destruct (fs_lookup_le _ _ _ _ A Ea) as (b & -> & K). exact K.
  - destruct (fs_lookup T p) as [b|] eqn:Eb; [|exact I].
    destruct (fs_lookup_le _ _ _ _ B Eb) as (a & F & _). congruence.
Qed.

(** The walk depends on the shape of the disk only. *)
Lemma resolve_dir_shape S T cur comps :
  same_shape S T -> resolve_dir S cur comps = resolve_dir T cur comps.
Proof.
  intros Hsh. revert cur. induction comps as [|c comps IH]; intros cur; simpl;
    [reflexivity|].
  destruct (String.eqb c ".."); [apply IH|].
  pose proof (fs_lookup_shape S T (cur ++ [c]) Hsh) as K.
  destruct (fs_lookup S (cur ++ [c])) as [[|a]|], (fs_lookup T (cur ++ [c])) as [[|b]|];
    simpl in K; try contradiction; auto.
Qed.

Lemma stat_shape S T p :
  same_shape S T ->
  match stat S p, stat T p with
  | Ok a, Ok b => same_kind a b
  | Raise e, Raise e' => e = e'
  | _, _ => False
  end.
Proof.
  intros Hsh. unfold stat. destruct (split_last p) as [[pre c]|]; [|exact I].
  rewrite (resolve_dir_shape S T [] pre Hsh).
  destruct (resolve_dir T [] pre) as [cur|e]; [|reflexivity].
  destruct (String.eqb c ".."); [exact I|].
  pose proof (fs_lookup_shape S T (cur ++ [c]) Hsh) as K.
  destruct (fs_lookup S (cur ++ [c])) as [a|], (fs_lookup T (cur ++ [c])) as [b|];
    simpl in K; try contradiction; auto.
Qed.

Lemma is_dir_shape S T p : same_shape S T -> is_dir S p = is_dir T p.
Proof.
  intros Hsh. pose proof (stat_shape S T p Hsh) as K. unfold is_dir.
  destruct (stat S p) as [[|a]|e], (stat T p) as [[|b]|e']; simpl in K;
    try contradiction; reflexivity.
Qed.

Lemma exists_path_shape S T p : same_shape S T -> exists_path S p = exists_path T p.
Proof.
  intros Hsh. pose proof (stat_shape S T p Hsh) as K. unfold exists_path.
  destruct (stat S p) as [a|e], (stat T p) as [b|e']; simpl in K;
    try contradiction; reflexivity.
Qed.

Lemma exists_path_le S T p :
  fs_le S T -> exists_path S p = true -> exists_path T p = true.
Proof.
  intros Hle. unfold exists_path, stat.
  destruct (split_last p) as [[pre c]|]; [|auto].
  destruct (resolve_dir S [] pre) as [cur|e] eqn:R; [|discriminate].
  rewrite (resolve_dir_le _ _ _ _ _ Hle R).
  destruct (String.eqb c ".."); [auto|].
  destruct (fs_lookup S (cur ++ [c])) as [a|] eqn:L; [|discriminate].
  destruct (fs_lookup_le _ _ _ _ Hle L) as (b & -> & _). auto.
Qed.

End FileSystem.

(** ** The actions on the disk *)

Section DiskActions.

Local Open Scope list_scope.

Implicit Types S T : gmap (list string) node.
Implicit Types p q cur : list string.

(** *** [os.mkdir] *)

Lemma os_mkdir_Ok p S S1 :
  os_mkdir p S = (Ok tt, S1) ->
  exists pre c cur,
    p = pre ++ [c] /\ resolve_dir S [] pre = Ok cur /\ c <> ".."%string
    /\ S !! (cur ++ [c]) = None /\ S1 = <[cur ++ [c] := Dir]> S.
Proof.
  unfold os_mkdir. destruct (split_last p) as [[pre c]|] eqn:E; [|discriminate].
  apply split_last_Some in E.
  destruct (resolve_dir S [] pre) as [cur|e] eqn:R; [|discriminate].
  destruct (String.eqb_spec c ".."); [discriminate|].
  rewrite fs_lookup_snoc.
  destruct (S !! (cur ++ [c])) eqn:L; [discriminate|].
  intros [= <-]. exists pre, c, cur. auto.
Qed.

Lemma os_mkdir_Raise p S S1 (e : exn) : os_mkdir p S = (Raise e, S1) -> S1 = S.
Proof.
  unfold os_mkdir. destruct (split_last p) as [[pre c]|]; [|congruence].
  destruct (resolve_dir S [] pre) as [cur|e']; [|congruence].
  destruct (String.eqb c ".."); [congruence|].
  destruct (fs_lookup S (cur ++ [c])); congruence.
Qed.

Lemma insert_dir_extends S q : S !! q = None -> dir_extends S (<[q := Dir]> S).
Proof.
  intros H p. destruct (decide (q = p)) as [<-|Hne].
  - right. split; [exact H | apply lookup_insert_eq].
  - left. now apply lookup_insert_ne.
Qed.

Lemma os_mkdir_dir_extends p S S1 : os_mkdir p S = (Ok tt, S1) -> dir_extends S S1.
Proof.
  intros H. apply os_mkdir_Ok in H as (pre & c & cur & _ & _ & _ & L & ->).
  now apply insert_dir_extends.
Qed.

Lemma os_mkdir_is_dir p S S1 : os_mkdir p S = (Ok tt, S1) -> is_dir S1 p = true.
Proof.
  intros H. pose proof (os_mkdir_dir_extends _ _ _ H) as Hext.
  apply os_mkdir_Ok in H as (pre & c & cur & -> & R & Hc & L & ->).
  apply is_dir_resolve. exists (cur ++ [c]). rewrite resolve_dir_app.
  rewrite (resolve_dir_le _ _ _ _ _ (dir_extends_le _ _ Hext) R). simpl.
  apply String.eqb_neq in Hc. rewrite Hc, fs_lookup_snoc, lookup_insert_eq.
  reflexivity.
Qed.

(** On a directory [os.mkdir] fails, and not for a missing parent. *)
Lemma os_mkdir_of_is_dir p T :
  is_dir T p = true -> os_mkdir p T = (Raise (OSError EEXIST), T).
Proof.
  intros H. apply is_dir_resolve in H as [t H]. unfold os_mkdir.
  destruct (split_last p) as [[pre c]|] eqn:E; [|reflexivity].
  apply split_last_Some in E. subst p. rewrite resolve_dir_app in H.
  destruct (resolve_dir T [] pre) as [cur|e]; [|discriminate]. simpl in H.
  destruct (String.eqb c ".."); [reflexivity|].
  destruct (fs_lookup T (cur ++ [c])) as [[|d]|]; try discriminate; reflexivity.
Qed.

(** *** [Path.mkdir] *)

Lemma unless_is_dir_Ok p (e : exn) S S1 :
  unless_is_dir p e S = (Ok tt, S1) -> S1 = S /\ is_dir S p = true.
Proof.
  unfold unless_is_dir. destruct (is_dir S p); [|discriminate].
  intros [= <-]. auto.
Qed.

Lemma unless_is_dir_state p (e : exn) S (r : result unit) S1 :
  unless_is_dir p e S = (r, S1) -> S1 = S.
Proof. unfold unless_is_dir. destruct (is_dir S p); congruence. Qed.

Lemma Path_mkdir_exist_ok_spec p S S1 :
  Path_mkdir_exist_ok p S = (Ok tt, S1) -> dir_extends S S1 /\ is_dir S1 p = true.
Proof.
  unfold Path_mkdir_exist_ok, catch.
  destruct (os_mkdir p S) as [[[]|e] S'] eqn:E.
  - intros [= <-]. split; [eapply os_mkdir_dir_extends | eapply os_mkdir_is_dir]; eauto.
  - apply os_mkdir_Raise in E as ->.
    destruct e as [| |[]| | |]; unfold raise; try discriminate;
      intros H; apply unless_is_dir_Ok in H as [-> H];
      (split; [apply dir_extends_refl | exact H]).
Qed.

Lemma Path_mkdir_rev_unfold (rp : list string) :
  Path_mkdir_rev rp
  = catch (os_mkdir (rev rp))
      (fun e => match e with
                | OSError ENOENT =>
                    match rp with
                    | [] => raise e
                    | _ :: rparent =>
                        bind (Path_mkdir_rev rparent)
                          (fun _ => Path_mkdir_exist_ok (rev rp))
                    end
                | OSError _ => unless_is_dir (rev rp) e
                | _ => raise e
                end).
Proof. destruct rp; reflexivity. Qed.

Lemma Path_mkdir_rev_spec (rp : list string) S S1 :
  Path_mkdir_rev rp S = (Ok tt, S1) ->
  dir_extends S S1 /\ is_dir S1 (rev rp) = true.
Proof.
  revert S S1. induction rp as [|c rparent IH]; intros S S1;
    rewrite Path_mkdir_rev_unfold; unfold catch;
    destruct (os_mkdir _ S) as [[[]|e] S'] eqn:E;
    try (intros [= <-];
         split; [eapply os_mkdir_dir_extends | eapply os_mkdir_is_dir]; eauto);
    apply os_mkdir_Raise in E as ->;
    destruct e as [| |[]| | |]; unfold raise; try discriminate;
    try (intros H; apply unless_is_dir_Ok in H as [-> H];
         split; [apply dir_extends_refl | exact H]).
  unfold bind. destruct (Path_mkdir_rev rparent S) as [[[]|e] Sa] eqn:Ea;
    [|discriminate].
  apply IH in Ea as [Hext _]. intros H.
  apply Path_mkdir_exist_ok_spec in H as [Hext' Hd].
  split; [eapply dir_extends_trans; eauto | exact Hd].
Qed.

Lemma Path_mkdir_spec p S S1 :
  Path_mkdir p S = (Ok tt, S1) -> dir_extends S S1 /\ is_dir S1 p = true.
Proof.
  unfold Path_mkdir. intros H. apply Path_mkdir_rev_spec in H.
  now rewrite rev_involutive in H.
Qed.

(** On a directory [Path.mkdir] returns and changes nothing. *)
Lemma Path_mkdir_of_is_dir p T : is_dir T p = true -> Path_mkdir p T = (Ok tt, T).
Proof.
  intros H. unfold Path_mkdir. rewrite Path_mkdir_rev_unfold, rev_involutive.
  unfold catch. rewrite (os_mkdir_of_is_dir _ _ H). unfold unless_is_dir.
  now rewrite H.
Qed.

(** *** [Path.write_bytes] *)

Lemma write_bytes_Ok p (data : list byte) S S1 :
  write_bytes p data S = (Ok tt, S1) ->
  exists pre c cur,
    p = pre ++ [c] /\ resolve_dir S [] pre = Ok cur /\ c <> ".."%string
    /\ S !! (cur ++ [c]) <> Some Dir /\ S1 = <[cur ++ [c] := File data]> S.
Proof.
  unfold write_bytes. destruct (split_last p) as [[pre c]|] eqn:E; [|discriminate].
  apply split_last_Some in E.
  destruct (resolve_dir S [] pre) as [cur|e] eqn:R; [|discriminate].
  destruct (String.eqb_spec c ".."); [discriminate|].
  rewrite fs_lookup_snoc.
  destruct (S !! (cur ++ [c])) as [[|d]|] eqn:L; try discriminate;
    intros [= <-]; exists pre, c, cur; repeat split; auto; congruence.
Qed.

Lemma write_bytes_at p (data : list byte) S pre c cur :
  p = pre ++ [c] -> resolve_dir S [] pre = Ok cur -> c <> ".."%string ->
  S !! (cur ++ [c]) <> Some Dir ->
  write_bytes p data S = (Ok tt, <[cur ++ [c] := File data]> S).
Proof.
  intros -> R Hc L. unfold write_bytes. rewrite split_last_snoc, R.
  apply String.eqb_neq in Hc. rewrite Hc, fs_lookup_snoc.
  destruct (S !! (cur ++ [c])) as [[|d]|]; congruence.
Qed.

(** *** Failures *)

Lemma os_mkdir_OSError p S (e : exn) S1 :
  os_mkdir p S = (Raise e, S1) -> exists oe, e = OSError oe.
Proof.
  unfold os_mkdir. destruct (split_last p) as [[pre c]|]; [|intros [= <- _]; eauto].
  destruct (resolve_dir S [] pre) as [cur|e'] eqn:R.
  - destruct (String.eqb c ".."); [intros [= <- _]; eauto|].
    destruct (fs_lookup S (cur ++ [c])); [intros [= <- _]; eauto | discriminate].
  - intros [= <- _]. clear -R. revert R. generalize (@nil string).
    induction pre as [|x pre IH]; intros cur; simpl; [discriminate|].
    destruct (String.eqb x ".."); [apply IH|].
    destruct (fs_lookup S (cur ++ [x])) as [[|d]|]; [apply IH| |]; intros [= <-]; eauto.
Qed.

(** A failure of [os.mkdir] depends on the shape of the disk only. *)
Lemma os_mkdir_shape p S T (e : exn) S1 :
  same_shape S T -> os_mkdir p S = (Raise e, S1) -> os_mkdir p T = (Raise e, T).
Proof.
  intros Hsh. unfold os_mkdir. destruct (split_last p) as [[pre c]|]; [|congruence].
  rewrite (resolve_dir_shape S T [] pre Hsh).
  destruct (resolve_dir T [] pre) as [cur|e']; [|congruence].
  destruct (String.eqb c ".."); [congruence|].
  pose proof (fs_lookup_shape S T (cur ++ [c]) Hsh) as K.
  destruct (fs_lookup S (cur ++ [c])) as [a|], (fs_lookup T (cur ++ [c])) as [b|];
    simpl in K; try contradiction; congruence.
Qed.

(** When [os.mkdir] makes the directory its parent is one. *)
Lemma os_mkdir_Ok_parent p S S1 :
  os_mkdir p S = (Ok tt, S1) -> is_dir S (parent p) = true.
Proof.
  intros H. apply os_mkdir_Ok in H as (pre & c & cur & -> & R & _).
  rewrite parent_snoc. apply is_dir_resolve. eauto.
Qed.

Lemma write_bytes_Raise p (data : list byte) S (e : exn) S1 :
  write_bytes p data S = (Raise e, S1) -> S1 = S.
Proof.
  unfold write_bytes. destruct (split_last p) as [[pre c]|]; [|congruence].
  destruct (resolve_dir S [] pre) as [cur|e']; [|congruence].
  destruct (String.eqb c ".."); [congruence|].
  destruct (fs_lookup S (cur ++ [c])) as [[|d]|]; congruence.
Qed.

Lemma write_bytes_shape p (data : list byte) S T (e : exn) S1 :
  same_shape S T ->
  write_bytes p data S = (Raise e, S1) -> write_bytes p data T = (Raise e, T).
Proof.
  intros Hsh. unfold write_bytes. destruct (split_last p) as [[pre c]|]; [|congruence].
  rewrite (resolve_dir_shape S T [] pre Hsh).
  destruct (resolve_dir T [] pre) as [cur|e']; [|congruence].
  destruct (String.eqb c ".."); [congruence|].
  pose proof (fs_lookup_shape S T (cur ++ [c]) Hsh) as K.
  destruct (fs_lookup S (cur ++ [c])) as [[|a]|], (fs_lookup T (cur ++ [c])) as [[|b]|];
    simpl in K; try contradiction; congruence.
Qed.

Lemma write_bytes_Ok_parent p (data : list byte) S S1 :
  write_bytes p data S = (Ok tt, S1) -> is_dir S (parent p) = true.
Proof.
  intros H. apply write_bytes_Ok in H as (pre & c & cur & -> & R & _).
  rewrite parent_snoc. apply is_dir_resolve. eauto.
Qed.

(** A failure of the last step of [Path.mkdir] leaves the disk, and depends
    on its shape only. *)
Lemma Path_mkdir_exist_ok_Raise p S (e : exn) S1 :
  Path_mkdir_exist_ok p S = (Raise e, S1) ->
  S1 = S /\ forall T, same_shape S T -> Path_mkdir_exist_ok p T = (Raise e, T).
Proof.
  unfold Path_mkdir_exist_ok, catch.
  destruct (os_mkdir p S) as [[[]|e1] S'] eqn:E; [discriminate|].
  pose proof (os_mkdir_Raise _ _ _ _ E) as ->.
  destruct (os_mkdir_OSError _ _ _ _ E) as [oe ->].
  assert (forall T, same_shape S T -> os_mkdir p T = (Raise (OSError oe), T)) as HT.
  { intros T Hsh. eapply os_mkdir_shape; eauto. }
  destruct oe; unfold raise;
    try (intros [= <- <-]; split; [reflexivity|]; intros T Hsh; now rewrite (HT T Hsh));
    unfold unless_is_dir; destruct (is_dir S p) eqn:Hd; try discriminate;
    intros [= <- <-]; (split; [reflexivity|]); intros T Hsh;
    rewrite (HT T Hsh), <- (is_dir_shape S T p Hsh), Hd; reflexivity.
Qed.

(** Whatever its outcome, [Path.mkdir] only adds directories. *)
Lemma Path_mkdir_rev_dir_extends (rp : list string) S (r : result unit) S1 :
  Path_mkdir_rev rp S = (r, S1) -> dir_extends S S1.
Proof.
  revert S r S1. induction rp as [|c rparent IH]; intros S r S1;
    rewrite Path_mkdir_rev_unfold; unfold catch;
    destruct (os_mkdir _ S) as [[[]|e] S'] eqn:E;
    try (intros [= _ <-]; eapply os_mkdir_dir_extends; eauto);
    pose proof (os_mkdir_Raise _ _ _ _ E) as ->;
    destruct (os_mkdir_OSError _ _ _ _ E) as [oe ->];
    destruct oe; unfold raise;
    try (intros [= _ <-]; apply dir_extends_refl);
    try (intros H; apply unless_is_dir_state in H as ->; apply dir_extends_refl).
  unfold bind. destruct (Path_mkdir_rev rparent S) as [[[]|e] Sa] eqn:Ea.
  - apply IH in Ea. unfold Path_mkdir_exist_ok, catch.
    destruct (os_mkdir _ Sa) as [[[]|e1] S''] eqn:E1.
    + intros [= _ <-]. eapply dir_extends_trans; [exact Ea|].
      eapply os_mkdir_dir_extends; eauto.
    + pose proof (os_mkdir_Raise _ _ _ _ E1) as ->.
      destruct e1 as [| |[]| | |]; unfold raise;
        try (intros [= _ <-]; exact Ea);
        intros H; apply unless_is_dir_state in H as ->; exact Ea.
  - intros [= _ <-]. eapply IH; eauto.
Qed.

Lemma Path_mkdir_rev_of_is_dir (rp : list string) T :
  is_dir T (rev rp) = true -> Path_mkdir_rev rp T = (Ok tt, T).
Proof.
  intros H. rewrite <- (rev_involutive rp). apply (Path_mkdir_of_is_dir _ _ H).
Qed.

(** On a disk of the shape that a failed [Path.mkdir] has left, it fails
    again and changes nothing. *)
Lemma Path_mkdir_rev_fails_again (rp : list string) S (e : exn) S1 :
  Path_mkdir_rev rp S = (Raise e, S1) ->
  forall T, same_shape S1 T -> exists e', Path_mkdir_rev rp T = (Raise e', T).
Proof.
  revert S e S1. induction rp as [|c rparent IH]; intros S e S1;
    rewrite Path_mkdir_rev_unfold; unfold catch;
    destruct (os_mkdir _ S) as [[[]|e0] S'] eqn:E; try discriminate;
    pose proof (os_mkdir_Raise _ _ _ _ E) as ->;
    destruct (os_mkdir_OSError _ _ _ _ E) as [oe ->].
  - (* the root *)
    discriminate E || (unfold os_mkdir in E; simpl in E; injection E as <-;
                       unfold unless_is_dir; simpl; discriminate).
  - assert (forall T, same_shape S T ->
              os_mkdir (rev (c :: rparent)) T = (Raise (OSError oe), T)) as HT.
    { intros T Hsh. eapply os_mkdir_shape; eauto. }
    assert (oe = ENOENT \/ oe <> ENOENT) as [-> | Hoe]
      by (destruct oe; auto; right; discriminate).
    + (* the parents were missing *)
      unfold bind. destruct (Path_mkdir_rev rparent S) as [[[]|ea] Sa] eqn:Ea.
      * (* the parents were made, the last step failed *)
        intros H. apply Path_mkdir_exist_ok_Raise in H as [-> Hagain].
        intros T Hsh. exists e.
        apply Path_mkdir_rev_spec in Ea as [_ Hd].
        assert (is_dir T (rev rparent) = true) as HdT
          by (now rewrite <- (is_dir_shape Sa T _ Hsh)).
        destruct (os_mkdir (rev (c :: rparent)) T) as [[[]|e1] T'] eqn:E1.
        -- exfalso. pose proof (Hagain T Hsh) as F.
           unfold Path_mkdir_exist_ok, catch in F. now rewrite E1 in F.
        -- pose proof (os_mkdir_Raise _ _ _ _ E1) as ->.
           pose proof (Hagain T Hsh) as F.
           unfold Path_mkdir_exist_ok, catch in F. rewrite E1 in F.
           destruct (os_mkdir_OSError _ _ _ _ E1) as [oe1 ->].
           destruct oe1; try exact F.
           unfold bind. rewrite (Path_mkdir_rev_of_is_dir _ _ HdT).
           unfold Path_mkdir_exist_ok, catch. now rewrite E1.
      * (* the parents could not be made *)
        intros [= <- <-]. intros T Hsh.
        destruct (IH _ _ _ Ea T Hsh) as [e' He'].
        assert (is_dir T (rev rparent) = false) as Hnd.
        { destruct (is_dir T (rev rparent)) eqn:Hd; [|reflexivity].
          rewrite (Path_mkdir_rev_of_is_dir _ _ Hd) in He'. discriminate. }
        destruct (os_mkdir (rev (c :: rparent)) T) as [[[]|e1] T'] eqn:E1.
        -- apply os_mkdir_Ok_parent in E1. simpl in E1.
           rewrite parent_snoc in E1. congruence.
        -- pose proof (os_mkdir_Raise _ _ _ _ E1) as ->.
           destruct (os_mkdir_OSError _ _ _ _ E1) as [oe1 ->].
           assert (is_dir T (rev (c :: rparent)) = false) as Hnd'.
           { destruct (is_dir T (rev (c :: rparent))) eqn:Hd; [|reflexivity].
             apply is_dir_parent in Hd. simpl in Hd. rewrite parent_snoc in Hd.
             congruence. }
           destruct oe1; unfold unless_is_dir; rewrite ?Hnd'; eauto.
           unfold bind. rewrite He'. eauto.
    + (* another error, and the path is not a directory *)
      assert (unless_is_dir (rev (c :: rparent)) (OSError oe) S = (Raise e, S1) ->
              forall T, same_shape S1 T ->
                exists e', Path_mkdir_rev (c :: rparent) T = (Raise e', T)) as Hgo.
      { unfold unless_is_dir. destruct (is_dir S _) eqn:Hd; [discriminate|].
        intros [= <- <-] T Hsh. exists (OSError oe).
        rewrite Path_mkdir_rev_unfold. unfold catch. rewrite (HT T Hsh).
        destruct oe; try contradiction; unfold unless_is_dir;
          now rewrite <- (is_dir_shape S T _ Hsh), Hd. }
      destruct oe; try contradiction; exact Hgo.
Qed.

(** *** Actions that can be run again *)

Lemma agrees_le {A} (r : result A) S1 T : agrees r S1 T -> fs_le S1 T.
Proof. destruct r; simpl; [auto | apply same_shape_le]. Qed.

Lemma agrees_shape {A} (r : result A) S1 T T1 :
  agrees r S1 T -> same_shape T T1 -> agrees r S1 T1.
Proof.
  destruct r; simpl; intros H Hsh.
  - eapply fs_le_trans; [exact H | apply Hsh].
  - eapply same_shape_trans; eauto.
Qed.

Lemma replays_unchanged S T : replays S S T T.
Proof. intros p. now right. Qed.

Lemma replayable_ret {A} (x : A) : replayable (ret x).
Proof.
  intros S r S1 [= <- <-]. split; [apply fs_le_refl|].
  intros T _. exists (Ok x), T. split; [reflexivity|].
  split; [reflexivity|]. split; [apply same_shape_refl | apply replays_unchanged].
Qed.

Lemma replayable_raise {A} (e : exn) :
  replayable (raise e : M (gmap (list string) node) A).
Proof.
  intros S r S1 [= <- <-]. split; [apply fs_le_refl|].
  intros T _. exists (Raise e), T. split; [reflexivity|].
  split; [simpl; eauto|]. split; [apply same_shape_refl | apply replays_unchanged].
Qed.

Lemma replayable_bind {A B : Type} (a : M (gmap (list string) node) A)
  (k : A -> M (gmap (list string) node) B) :
  replayable a -> (forall x, replayable (k x)) -> replayable (bind a k).
Proof.
  intros Ha Hk S r S2. unfold bind.
  destruct (a S) as [[x|e] S1] eqn:Ea.
  - intros Ek. destruct (Ha _ _ _ Ea) as [Hle1 Hre1].
    destruct (Hk x _ _ _ Ek) as [Hle2 Hre2].
    split; [eapply fs_le_trans; eauto|].
    intros T HT.
    destruct (Hre1 T (fs_le_trans _ _ _ Hle2 (agrees_le _ _ _ HT)))
      as (r1 & T1 & -> & Ho1 & Hsh1 & Hr1).
    simpl in Ho1. subst r1.
    destruct (Hre2 T1 (agrees_shape _ _ _ _ HT Hsh1))
      as (r2 & T2 & -> & Ho2 & Hsh2 & Hr2).
    exists r2, T2. split; [reflexivity|]. split; [exact Ho2|].
    split; [eapply same_shape_trans; eauto | eapply replays_trans; eauto].
  - intros [= <- <-]. destruct (Ha _ _ _ Ea) as [Hle1 Hre1].
    split; [exact Hle1|]. intros T HT.
    destruct (Hre1 T HT) as (r1 & T1 & -> & [e' ->] & Hsh1 & Hr1).
    exists (Raise e'), T1. split; [reflexivity|]. split; [simpl; eauto|]. auto.
Qed.

Lemma replayable_for_each {A} (xs : list A)
  (body : A -> M (gmap (list string) node) unit) :
  (forall x, replayable (body x)) -> replayable (for_each xs body).
Proof.
  intros Hb. induction xs as [|x xs IH]; simpl.
  - apply replayable_ret.
  - apply replayable_bind; [apply Hb | intros _; exact IH].
Qed.

Lemma replayable_Path_mkdir p : replayable (Path_mkdir p).
Proof.
  intros S r S1 H.
  pose proof (Path_mkdir_rev_dir_extends _ _ _ _ H) as Hext.
  split; [now apply dir_extends_le|]. intros T HT.
  destruct r as [[]|e]; simpl in HT.
  - apply Path_mkdir_spec in H as [_ Hd].
    exists (Ok tt), T. split; [apply Path_mkdir_of_is_dir; eapply is_dir_le; eauto|].
    split; [reflexivity|].
    split; [apply same_shape_refl | now apply dir_extends_replays].
  - destruct (Path_mkdir_rev_fails_again _ _ _ _ H T HT) as [e' He'].
    exists (Raise e'), T. split; [exact He'|]. split; [simpl; eauto|].
    split; [apply same_shape_refl|].
    apply dir_extends_replays; [exact Hext | now apply same_shape_le].
Qed.

Lemma insert_file_le S q (d d' : list byte) :
  S !! q <> Some Dir -> fs_le S (<[q := File d']> S).
Proof.
  intros H p n Hp. destruct (decide (q = p)) as [<-|Hne].
  - rewrite lookup_insert_eq. exists (File d'). split; [reflexivity|].
    destruct n; [congruence | exact I].
  - rewrite lookup_insert_ne by exact Hne. exists n.
    split; [exact Hp | apply same_kind_refl].
Qed.

Lemma insert_file_shape T q (d d' : list byte) :
  T !! q = Some (File d) -> same_shape T (<[q := File d']> T).
Proof.
  intros H. split.
  - apply (insert_file_le _ _ d). congruence.
  - intros p n. destruct (decide (q = p)) as [<-|Hne].
    + rewrite lookup_insert_eq. intros [= <-]. now exists (File d).
    + rewrite lookup_insert_ne by exact Hne. intros Hp. exists n.
      split; [exact Hp | apply same_kind_refl].
Qed.

Lemma replayable_write_bytes p (data : list byte) : replayable (write_bytes p data).
Proof.
  intros S r S1 H. destruct r as [[]|e].
  - apply write_bytes_Ok in H as (pre & c & cur & -> & R & Hc & L & ->).
    assert (fs_le S (<[cur ++ [c] := File data]> S)) as Hle.
    { now apply (insert_file_le _ _ data). }
    split; [exact Hle|]. intros T HT. simpl in HT.
    destruct (HT (cur ++ [c]) (File data)) as (n' & Hn' & K);
      [apply lookup_insert_eq|].
    apply same_kind_File in K as [d' ->].
    exists (Ok tt), (<[cur ++ [c] := File data]> T). split.
    + apply (write_bytes_at _ _ _ pre c cur); auto; [|congruence].
      eapply resolve_dir_le; [|exact R]. eapply fs_le_trans; eauto.
    + split; [reflexivity|]. split; [now apply (insert_file_shape _ _ d')|].
      intros p. destruct (decide (cur ++ [c] = p)) as [<-|Hne].
      * left. now rewrite !lookup_insert_eq.
      * right. now rewrite !lookup_insert_ne by exact Hne.
  - pose proof (write_bytes_Raise _ _ _ _ _ H) as ->.
    split; [apply fs_le_refl|]. intros T HT. simpl in HT.
    exists (Raise e), T. split; [eapply write_bytes_shape; eauto|].
    split; [simpl; eauto|]. split; [apply same_shape_refl | apply replays_unchanged].
Qed.

Lemma replayable_zf_read (zf : list ZipInfo) (name : string) :
  replayable (zf_read zf name).
Proof.
  unfold zf_read. destruct (zf_getinfo _ _); [apply replayable_ret | apply replayable_raise].
Qed.

(** Run on the disk it has left, an action that can be run again ends as it
    did and leaves that disk as it is. *)
Lemma replayable_idempotent {A} (a : M (gmap (list string) node) A) S
  (r : result A) S1 :
  replayable a -> a S = (r, S1) ->
  exists r', a S1 = (r', S1) /\ same_outcome r r'.
Proof.
  intros Ha H. destruct (Ha _ _ _ H) as [_ Hre].
  destruct (Hre S1) as (r' & T1 & E & Ho & _ & Hr).
  { destruct r; simpl; [apply fs_le_refl | apply same_shape_refl]. }
  exists r'. split; [|exact Ho]. rewrite E. f_equal. apply map_eq. intros p.
  destruct (Hr p) as [F | [F _]]; exact F.
Qed.

End DiskActions.
(** ** The extractor can be run again *)

Section Replay.

Local Open Scope list_scope.

Implicit Types S T : gmap (list string) node.
Implicit Types p q cur : list string.

Lemma makedirs_rev_unfold (rp : list string) :
  makedirs_rev rp
  = bind (match rp with
          | [] => ret tt
          | _ :: rhead =>
              fun S =>
                if exists_path S (rev rhead) then (Ok tt, S)
                else catch (makedirs_rev rhead)
                       (fun e => match e with
                                 | OSError EEXIST => ret tt
                                 | _ => raise e
                                 end) S
          end)
      (fun _ => catch (os_mkdir (rev rp)) (unless_is_dir (rev rp))).
Proof. destruct rp; reflexivity. Qed.

(** Whatever its outcome, [os.makedirs] only adds directories. *)
Lemma makedirs_rev_dir_extends (rp : list string) S (r : result unit) S1 :
  makedirs_rev rp S = (r, S1) -> dir_extends S S1.
Proof.
  revert S r S1. induction rp as [|c rhead IH]; intros S r S1;
    rewrite makedirs_rev_unfold; unfold bind.
  - unfold ret, catch. destruct (os_mkdir _ S) as [[[]|e] S'] eqn:E.
    + intros [= _ <-]. eapply os_mkdir_dir_extends; eauto.
    + apply os_mkdir_Raise in E as ->. intros H.
      apply unless_is_dir_state in H as ->. apply dir_extends_refl.
  - assert (exists Sa ra,
               (if exists_path S (rev rhead) then (Ok tt, S)
                else catch (makedirs_rev rhead)
                       (fun e => match e with
                                 | OSError EEXIST => ret tt
                                 | _ => raise e
                                 end) S) = (ra, Sa)
               /\ dir_extends S Sa) as (Sa & ra & -> & Hext).
    { destruct (exists_path S (rev rhead)).
      - exists S, (Ok tt). split; [reflexivity | apply dir_extends_refl].
      - unfold catch. destruct (makedirs_rev rhead S) as [[[]|e] Sa] eqn:Ea.
        + exists Sa, (Ok tt). split; [reflexivity | eapply IH; eauto].
        + apply IH in Ea.
          destruct e as [| |[]| | |]; unfold raise, ret; eauto. }
    destruct ra as [[]|e]; [|intros [= _ <-]; exact Hext].
    unfold catch. destruct (os_mkdir _ Sa) as [[[]|e] S'] eqn:E.
    + intros [= _ <-]. eapply dir_extends_trans; [exact Hext|].
      eapply os_mkdir_dir_extends; eauto.
    + apply os_mkdir_Raise in E as ->. intros H.
      apply unless_is_dir_state in H as ->. exact Hext.
Qed.

Lemma makedirs_rev_cons (c : string) (rhead : list string) :
  makedirs_rev (c :: rhead)
  = bind (makedirs_head rhead)
      (fun _ => catch (os_mkdir (rev (c :: rhead))) (unless_is_dir (rev (c :: rhead)))).
Proof. reflexivity. Qed.

Lemma makedirs_rev_nil S : makedirs_rev [] S = (Ok tt, S).
Proof. reflexivity. Qed.

(** When [os.makedirs] returns, the path is a directory. *)
Lemma makedirs_rev_is_dir (rp : list string) S S1 :
  makedirs_rev rp S = (Ok tt, S1) -> is_dir S1 (rev rp) = true.
Proof.
  destruct rp as [|c rhead].
  - rewrite makedirs_rev_nil. intros [= <-]. reflexivity.
  - rewrite makedirs_rev_cons. unfold bind.
    destruct (makedirs_head rhead S) as [[[]|e] Sa]; [|discriminate].
    unfold catch. destruct (os_mkdir _ Sa) as [[[]|e] S'] eqn:E.
    + intros [= <-]. eapply os_mkdir_is_dir; eauto.
    + apply os_mkdir_Raise in E as ->. intros H.
      now apply unless_is_dir_Ok in H as [-> H].
Qed.

(** The last step of [os.makedirs], when it fails. *)
Lemma makedirs_last_Raise p S (e : exn) S1 :
  catch (os_mkdir p) (unless_is_dir p) S = (Raise e, S1) ->
  S1 = S /\ is_dir S p = false
  /\ forall T, same_shape S T ->
       catch (os_mkdir p) (unless_is_dir p) T = (Raise e, T).
Proof.
  unfold catch. destruct (os_mkdir p S) as [[[]|e1] S'] eqn:E; [discriminate|].
  pose proof (os_mkdir_Raise _ _ _ _ E) as ->.
  unfold unless_is_dir. destruct (is_dir S p) eqn:Hd; [discriminate|].
  intros [= <- <-]. repeat split. intros T Hsh.
  rewrite (os_mkdir_shape _ _ _ _ _ Hsh E).
  now rewrite <- (is_dir_shape S T p Hsh), Hd.
Qed.

(** With a parent that is not a directory, the last step fails. *)
Lemma makedirs_last_orphan p T :
  is_dir T (parent p) = false ->
  exists e', catch (os_mkdir p) (unless_is_dir p) T = (Raise e', T).
Proof.
  intros Hnd. unfold catch. destruct (os_mkdir p T) as [[[]|e1] T'] eqn:E.
  - apply os_mkdir_Ok_parent in E. congruence.
  - pose proof (os_mkdir_Raise _ _ _ _ E) as ->. unfold unless_is_dir.
    destruct (is_dir T p) eqn:Hd; [|eauto].
    apply is_dir_parent in Hd. congruence.
Qed.

(** After a failure of [os.makedirs] the path is not a directory. *)
Lemma makedirs_rev_not_dir (rp : list string) S (e : exn) S1 :
  makedirs_rev rp S = (Raise e, S1) -> is_dir S1 (rev rp) = false.
Proof.
  revert S e S1. induction rp as [|c rhead IH]; intros S e S1.
  - rewrite makedirs_rev_nil. discriminate.
  - rewrite makedirs_rev_cons. unfold bind.
    destruct (makedirs_head rhead S) as [[[]|ea] Sa] eqn:Ea.
    + intros H. now apply makedirs_last_Raise in H as (-> & H & _).
    + intros [= <- <-]. unfold makedirs_head in Ea.
      destruct (exists_path S (rev rhead)); [discriminate|].
      unfold catch in Ea. destruct (makedirs_rev rhead S) as [[[]|e1] S'] eqn:E1;
        [discriminate|].
      assert (S' = Sa) as ->.
      { destruct e1 as [| |[]| | |]; unfold raise, ret in Ea; congruence. }
      apply IH in E1.
      destruct (is_dir Sa (rev (c :: rhead))) eqn:Hd; [|reflexivity].
      apply is_dir_parent in Hd. simpl in Hd. rewrite parent_snoc in Hd. congruence.
Qed.

(** On a disk of the shape that a failed [os.makedirs] has left, it fails
    again and changes nothing. *)
Lemma makedirs_rev_fails_again (rp : list string) S (e : exn) S1 :
  makedirs_rev rp S = (Raise e, S1) ->
  forall T, same_shape S1 T -> exists e', makedirs_rev rp T = (Raise e', T).
Proof.
  revert S e S1. induction rp as [|c rhead IH]; intros S e S1.
  - rewrite makedirs_rev_nil. discriminate.
  - rewrite !makedirs_rev_cons. unfold bind.
    destruct (makedirs_head rhead S) as [[[]|ea] Sa] eqn:Ea.
    + (* the head was there or made, the last step failed *)
      intros H T Hsh. apply makedirs_last_Raise in H as (-> & Hnd & Hagain).
      assert (exists ra, makedirs_head rhead T = (ra, T)) as [ra Era].
      { unfold makedirs_head in *.
        destruct (exists_path T (rev rhead)) eqn:Hex; [eauto|].
        destruct (exists_path S (rev rhead)) eqn:HexS.
        - injection Ea as <-. rewrite (exists_path_shape S T _ Hsh) in HexS.
          congruence.
        - unfold catch in *.
          destruct (makedirs_rev rhead S) as [[[]|e1] S'] eqn:E1.
          + injection Ea as <-. apply makedirs_rev_is_dir in E1.
            apply is_dir_exists in E1.
            rewrite (exists_path_shape _ T _ Hsh) in E1. congruence.
          + assert (S' = Sa) as ->.
            { destruct e1 as [| |[]| | |]; unfold raise, ret in Ea; congruence. }
            destruct (IH _ _ _ E1 T Hsh) as [e' ->].
            destruct e' as [| |[]| | |]; unfold raise, ret; eauto. }
      rewrite Era. destruct ra as [[]|ea]; [|eauto].
      rewrite (Hagain T Hsh). eauto.
    + (* the head could not be made *)
      intros [= <- <-] T Hsh. unfold makedirs_head in Ea.
      destruct (exists_path S (rev rhead)); [discriminate|].
      unfold catch in Ea. destruct (makedirs_rev rhead S) as [[[]|e1] S'] eqn:E1;
        [discriminate|].
      assert (S' = Sa) as ->.
      { destruct e1 as [| |[]| | |]; unfold raise, ret in Ea; congruence. }
      pose proof (makedirs_rev_not_dir _ _ _ _ E1) as Hnd.
      rewrite (is_dir_shape Sa T _ Hsh) in Hnd.
      destruct (IH _ _ _ E1 T Hsh) as [e' He'].
      assert (exists ra, makedirs_head rhead T = (ra, T)) as [ra Era].
      { unfold makedirs_head. destruct (exists_path T (rev rhead)); [eauto|].
        unfold catch. rewrite He'.
        destruct e' as [| |[]| | |]; unfold raise, ret; eauto. }
      rewrite Era. destruct ra as [[]|ea']; [|eauto].
      apply makedirs_last_orphan. simpl. now rewrite parent_snoc.
Qed.

(** *** The steps of [extractall] *)

Lemma ensure_upperdirs_dir_extends p S (r : result unit) S1 :
  ensure_upperdirs p S = (r, S1) -> dir_extends S S1.
Proof.
  unfold ensure_upperdirs. destruct (exists_path S p).
  - intros [= _ <-]. apply dir_extends_refl.
  - apply makedirs_rev_dir_extends.
Qed.

Lemma ensure_upperdirs_Ok p S S1 :
  ensure_upperdirs p S = (Ok tt, S1) -> exists_path S1 p = true.
Proof.
  unfold ensure_upperdirs. destruct (exists_path S p) eqn:Hex.
  - now intros [= <-].
  - intros H. apply makedirs_rev_is_dir in H. rewrite rev_involutive in H.
    now apply is_dir_exists.
Qed.

Lemma ensure_upperdirs_of_exists p T :
  exists_path T p = true -> ensure_upperdirs p T = (Ok tt, T).
Proof. unfold ensure_upperdirs. now intros ->. Qed.

(** After a failure the path is not a directory, and on a disk of that
    shape the step changes nothing. *)
Lemma ensure_upperdirs_Raise p S (e : exn) S1 :
  ensure_upperdirs p S = (Raise e, S1) ->
  is_dir S1 p = false
  /\ forall T, same_shape S1 T -> exists r', ensure_upperdirs p T = (r', T).
Proof.
  unfold ensure_upperdirs. destruct (exists_path S p); [discriminate|].
  intros H. split.
  - apply makedirs_rev_not_dir in H. now rewrite rev_involutive in H.
  - intros T Hsh. destruct (exists_path T p); [eauto|].
    destruct (makedirs_rev_fails_again _ _ _ _ H T Hsh) as [e' He']. eauto.
Qed.

Lemma write_member_Ok p (info : ZipInfo) S S1 :
  write_member p info S = (Ok tt, S1) ->
  if ZipInfo_is_dir info
  then dir_extends S S1 /\ is_dir S1 p = true
  else write_bytes p (payload info) S = (Ok tt, S1).
Proof.
  unfold write_member. destruct (ZipInfo_is_dir info); [|auto].
  destruct (is_dir S p) eqn:Hd.
  - intros [= <-]. split; [apply dir_extends_refl | exact Hd].
  - unfold catch. destruct (os_mkdir p S) as [[[]|e] S'] eqn:E.
    + intros [= <-].
      split; [eapply os_mkdir_dir_extends | eapply os_mkdir_is_dir]; eauto.
    + apply os_mkdir_Raise in E as ->.
      destruct e as [| |[]| | |]; unfold raise; try discriminate.
      intros H. apply unless_is_dir_Ok in H as [-> H]. congruence.
Qed.

(** A failure of the second step leaves the disk, and depends on its shape
    only. *)
Lemma write_member_Raise p (info : ZipInfo) S (e : exn) S1 :
  write_member p info S = (Raise e, S1) ->
  S1 = S /\ forall T, same_shape S T -> write_member p info T = (Raise e, T).
Proof.
  unfold write_member. destruct (ZipInfo_is_dir info).
  - destruct (is_dir S p) eqn:Hd; [discriminate|]. unfold catch.
    destruct (os_mkdir p S) as [[[]|e1] S'] eqn:E; [discriminate|].
    pose proof (os_mkdir_Raise _ _ _ _ E) as ->.
    assert (forall T, same_shape S T -> os_mkdir p T = (Raise e1, T)) as HT.
    { intros T Hsh. eapply os_mkdir_shape; eauto. }
    assert (forall T, same_shape S T -> is_dir T p = false) as HdT.
    { intros T Hsh. now rewrite <- (is_dir_shape S T p Hsh). }
    destruct e1 as [| |[]| | |]; unfold raise, unless_is_dir; rewrite ?Hd;
      intros [= <- <-]; (split; [reflexivity|]); intros T Hsh;
      rewrite (HdT T Hsh), (HT T Hsh); simpl; rewrite ?(HdT T Hsh); reflexivity.
  - intros H. pose proof (write_bytes_Raise _ _ _ _ _ H) as ->.
    split; [reflexivity|]. intros T Hsh. eapply write_bytes_shape; eauto.
Qed.

(** With upper directories that are not a directory, the second step
    fails. *)
Lemma write_member_orphan p (info : ZipInfo) T :
  is_dir T (parent p) = false -> exists e', write_member p info T = (Raise e', T).
Proof.
  intros Hnd. unfold write_member. destruct (ZipInfo_is_dir info).
  - destruct (is_dir T p) eqn:Hd.
    { apply is_dir_parent in Hd. congruence. }
    unfold catch. destruct (os_mkdir p T) as [[[]|e1] T'] eqn:E.
    + apply os_mkdir_Ok_parent in E. congruence.
    + pose proof (os_mkdir_Raise _ _ _ _ E) as ->.
      destruct e1 as [| |[]| | |]; unfold raise, unless_is_dir; rewrite ?Hd; eauto.
  - destruct (write_bytes p (payload info) T) as [[[]|e1] T'] eqn:E.
    + apply write_bytes_Ok_parent in E. congruence.
    + pose proof (write_bytes_Raise _ _ _ _ _ E) as ->. eauto.
Qed.

Lemma extract_member_unfold (d : list string) (info : ZipInfo) :
  extract_member d info
  = if (Nat.eqb (length (member_arcname info)) 0) && negb (ZipInfo_is_dir info)
    then raise (ValueError "Empty filename.")
    else bind (ensure_upperdirs (parent (d ++ member_arcname info)))
           (fun _ => write_member (d ++ member_arcname info) info).
Proof. reflexivity. Qed.

Lemma replayable_extract_member (d : list string) (info : ZipInfo) :
  replayable (extract_member d info).
Proof.
  rewrite extract_member_unfold.
  destruct (_ && _)%bool; [apply replayable_raise|].
  set (target := d ++ member_arcname info).
  intros S r S1. unfold bind.
  destruct (ensure_upperdirs (parent target) S) as [[[]|ea] Sa] eqn:Ea.
  - (* the upper directories stand *)
    pose proof (ensure_upperdirs_dir_extends _ _ _ _ Ea) as Hext.
    pose proof (ensure_upperdirs_Ok _ _ _ Ea) as Hex.
    intros Hw. destruct r as [[]|e].
    + (* the member was written *)
      pose proof (write_member_Ok _ _ _ _ Hw) as Hok.
      destruct (ZipInfo_is_dir info) eqn:Hi.
      * destruct Hok as [Hext' Hd].
        pose proof (dir_extends_trans _ _ _ Hext Hext') as Hall.
        split; [now apply dir_extends_le|]. intros T HT. simpl in HT.
        exists (Ok tt), T.
        rewrite (ensure_upperdirs_of_exists _ _
                   (is_dir_exists _ _ (is_dir_parent _ _ (is_dir_le _ _ _ HT Hd)))).
        unfold write_member. rewrite Hi, (is_dir_le _ _ _ HT Hd).
        split; [reflexivity|]. split; [reflexivity|].
        split; [apply same_shape_refl | now apply dir_extends_replays].
      * destruct (replayable_write_bytes _ _ _ _ _ Hok) as [Hle Hre].
        split; [eapply fs_le_trans; [now apply dir_extends_le | exact Hle]|].
        intros T HT. simpl in HT.
        destruct (Hre T HT) as (r' & T1 & E & Ho & Hsh & Hr).
        exists r', T1.
        rewrite (ensure_upperdirs_of_exists _ _
                   (exists_path_le _ _ _ (fs_le_trans _ _ _ Hle HT) Hex)).
        unfold write_member. rewrite Hi.
        split; [exact E|]. split; [exact Ho|]. split; [exact Hsh|].
        eapply replays_trans; [|exact Hr].
        apply dir_extends_replays; [exact Hext|]. eapply fs_le_trans; eauto.
    + (* the member could not be written *)
      apply write_member_Raise in Hw as [-> Hagain].
      split; [now apply dir_extends_le|]. intros T HT. simpl in HT.
      exists (Raise e), T.
      rewrite (ensure_upperdirs_of_exists _ _
                 (eq_trans (eq_sym (exists_path_shape _ _ _ HT)) Hex)).
      rewrite (Hagain T HT).
      split; [reflexivity|]. split; [simpl; eauto|].
      split; [apply same_shape_refl|].
      apply dir_extends_replays; [exact Hext | now apply same_shape_le].
  - (* the upper directories could not be made *)
    pose proof (ensure_upperdirs_dir_extends _ _ _ _ Ea) as Hext.
    apply ensure_upperdirs_Raise in Ea as [Hnd Hagain].
    intros [= <- <-]. split; [now apply dir_extends_le|].
    intros T HT. simpl in HT.
    destruct (Hagain T HT) as [r' ->].
    assert (exists e', (match r' with
                        | Ok _ => write_member target info T
                        | Raise e0 => (Raise e0, T)
                        end) = (Raise e', T)) as [e' ->].
    { destruct r' as [[]|e0]; [|eauto]. apply write_member_orphan.
      now rewrite <- (is_dir_shape Sa T _ HT). }
    exists (Raise e'), T. split; [reflexivity|]. split; [simpl; eauto|].
    split; [apply same_shape_refl|].
    apply dir_extends_replays; [exact Hext | now apply same_shape_le].
Qed.

Lemma replayable_extractall (zf : list ZipInfo) (d : list string) :
  replayable (extractall zf d).
Proof. apply replayable_for_each. intros info. apply replayable_extract_member. Qed.

Lemma replayable_flatten_member (zf : list ZipInfo) (d : list string)
  (prefix : string) (info : ZipInfo) :
  replayable (flatten_member zf d prefix info).
Proof.
  unfold flatten_member.
  destruct (negb (Py.startswith _ _)); [apply replayable_ret|].
  destruct (negb (Py.truthy _)); [apply replayable_ret|].
  destruct (ZipInfo_is_dir info); [apply replayable_Path_mkdir|].
  apply replayable_bind; [apply replayable_Path_mkdir|]. intros _.
  apply replayable_bind; [apply replayable_zf_read|]. intros data.
  apply replayable_write_bytes.
Qed.

Lemma replayable_extract_members (zf : list ZipInfo) (d : list string)
  (flatten_single_root : bool) :
  replayable (extract_members zf d flatten_single_root).
Proof.
  unfold extract_members.
  destruct (if flatten_single_root then _ else _) as [root|];
    [destruct (Py.truthy root)|]; try apply replayable_extractall.
  apply replayable_for_each. intros info. apply replayable_flatten_member.
Qed.

(** The extractor is one action on the disk. *)
Lemma extract_zip_on_disk (pf : Platform) (zip_bytes : list byte)
  (output_dir : string) (flatten_single_root : bool) (w : World) :
  extract_zip pf zip_bytes output_dir flatten_single_root w
  = on_disk (bind (Path_mkdir (resolve pf output_dir))
               (fun _ => match zip_open pf zip_bytes with
                         | None => raise BadZipFile
                         | Some zf =>
                             extract_members zf (resolve pf output_dir)
                               flatten_single_root
                         end)) w.
Proof.
  unfold extract_zip, on_disk, bind, raise.
  destruct (Path_mkdir _ (disk w)) as [[[]|e] S1]; simpl; [|reflexivity].
  destruct (zip_open pf zip_bytes); reflexivity.
Qed.

Lemma replayable_extract_zip (pf : Platform) (zip_bytes : list byte)
  (output_dir : string) (flatten_single_root : bool) :
  replayable (bind (Path_mkdir (resolve pf output_dir))
                (fun _ => match zip_open pf zip_bytes with
                          | None => raise BadZipFile
                          | Some zf =>
                              extract_members zf (resolve pf output_dir)
                                flatten_single_root
                          end)).
Proof.
  apply replayable_bind; [apply replayable_Path_mkdir|]. intros _.
  destruct (zip_open pf zip_bytes);
    [apply replayable_extract_members | apply replayable_raise].
Qed.

End Replay.

(** ** C7: extraction twice *)

(** C7.  The extraction of an archive into a destination, run again on the
    disk that a first run has left, leaves that disk as it is: the file tree
    after two runs is the file tree after one.  When the first run has
    returned the second returns as well, the files written over with the
    same contents and the directories that exist, the destination and its
    parents among them, raising no error; when the first run has raised, so
    does the second.  This holds with and without flattening. *)
Theorem extract_zip_twice (pf : Platform) (zip_bytes : list byte) (output_dir : string)
  (flatten_single_root : bool) (w : World) :
  let once := extract_zip pf zip_bytes output_dir flatten_single_root w in
  let twice := extract_zip pf zip_bytes output_dir flatten_single_root (snd once) in
  snd twice = snd once /\ same_outcome (fst once) (fst twice).
Proof.
  cbv zeta. rewrite !extract_zip_on_disk. unfold on_disk.
  destruct (bind _ _ (disk w)) as [r S1] eqn:E. simpl.
  destruct (replayable_idempotent _ _ _ _
              (replayable_extract_zip pf zip_bytes output_dir flatten_single_root) E)
    as (r' & E' & Ho).
  rewrite E'. simpl. auto.
Qed.

(** The example archive, extracted twice with flattening and twice
    without. *)
Example extract_zip_twice_flattened :
  let w1 := snd (extract_zip (archive_platform example_archive) [] "out" true
                   empty_world) in
  extract_zip (archive_platform example_archive) [] "out" true empty_world
  = (Ok tt, w1)
  /\ extract_zip (archive_platform example_archive) [] "out" true w1 = (Ok tt, w1).
Proof. vm_compute. split; reflexivity. Qed.

Example extract_zip_twice_verbatim :
  let w1 := snd (extract_zip (archive_platform example_archive) [] "out" false
                   empty_world) in
  extract_zip (archive_platform example_archive) [] "out" false empty_world
  = (Ok tt, w1)
  /\ extract_zip (archive_platform example_archive) [] "out" false w1 = (Ok tt, w1).
Proof. vm_compute. split; reflexivity. Qed.

(** An archive whose second member cannot be written, [a] being a file: the
    first run raises after it has written [a], and so does the second, on
    the same disk. *)
Example extract_zip_twice_failing :
  let zf := [ {| filename := "proj/a"; payload := [x58] |};
              {| filename := "proj/a/b"; payload := [x59] |} ] in
  let once := extract_zip (archive_platform zf) [] "out" true empty_world in
  let twice := extract_zip (archive_platform zf) [] "out" true (snd once) in
  fst once = Raise (OSError EEXIST)
  /\ disk (snd once) = <[ ["out"; "a"] := File [x58] ]> (<[ ["out"] := Dir ]> ∅)
  /\ twice = once.
Proof. vm_compute. repeat split; reflexivity. Qed.
(** ** Paths without [..] *)

Section PlainPaths.

Local Open Scope list_scope.

Implicit Types S T : gmap (list string) node.
Implicit Types p q cur : list string.

Lemma plain_app p q : plain (p ++ q) <-> plain p /\ plain q.
Proof. apply Forall_app. Qed.

Lemma plain_snoc p (c : string) : plain (p ++ [c]) <-> plain p /\ c <> ".."%string.
Proof.
  rewrite plain_app. unfold plain. rewrite Forall_singleton. reflexivity.
Qed.

Lemma is_dir_stat S p : is_dir S p = true <-> stat S p = Ok Dir.
Proof. unfold is_dir. destruct (stat S p) as [[|d]|e]; split; congruence. Qed.

Lemma is_dir_plain_resolve S p :
  plain p -> is_dir S p = true -> resolve_dir S [] p = Ok p.
Proof.
  intros Hp H. apply is_dir_resolve in H as [t H].
  now rewrite (resolve_dir_plain _ _ _ _ Hp H) in H.
Qed.

(** A directory at a path without [..] is a directory of the disk. *)
Lemma is_dir_plain_lookup S p (c : string) :
  plain (p ++ [c]) -> is_dir S (p ++ [c]) = true -> S !! (p ++ [c]) = Some Dir.
Proof.
  intros Hp H. pose proof (is_dir_plain_resolve _ _ Hp H) as R.
  apply plain_snoc in Hp as [Hp Hc].
  rewrite resolve_dir_app in R.
  destruct (resolve_dir S [] p) as [cur|e] eqn:E; [|discriminate].
  apply (resolve_dir_plain _ _ _ _ Hp) in E. simpl in E. subst cur.
  simpl in R. apply String.eqb_neq in Hc. rewrite Hc, fs_lookup_snoc in R.
  destruct (S !! (p ++ [c])) as [[|d]|]; congruence.
Qed.

Lemma mkdir_extends_refl p S : mkdir_extends p S S.
Proof. intros q. now left. Qed.

Lemma mkdir_extends_dir p S S1 : mkdir_extends p S S1 -> dir_extends S S1.
Proof. intros H q. destruct (H q) as [E | (E & F & _)]; auto. Qed.

Lemma mkdir_extends_trans p S T U :
  mkdir_extends p S T -> mkdir_extends p T U -> mkdir_extends p S U.
Proof.
  intros H1 H2 q. destruct (H1 q) as [E1 | (E1 & F1 & P1)],
    (H2 q) as [E2 | (E2 & F2 & P2)].
  - left. congruence.
  - right. repeat split; congruence.
  - right. repeat split; congruence.
  - congruence.
Qed.

Lemma mkdir_extends_prefix p p' S S1 :
  p `prefix_of` p' -> mkdir_extends p S S1 -> mkdir_extends p' S S1.
Proof.
  intros Hpp H q. destruct (H q) as [E | (E & F & P)]; [now left|].
  right. repeat split; auto. etrans; eauto.
Qed.

Lemma os_mkdir_plain p S S1 :
  plain p -> os_mkdir p S = (Ok tt, S1) -> mkdir_extends p S S1.
Proof.
  intros Hp H. apply os_mkdir_Ok in H as (pre & c & cur & -> & R & Hc & L & ->).
  apply plain_snoc in Hp as [Hp _].
  apply (resolve_dir_plain _ _ _ _ Hp) in R. simpl in R. subst cur.
  intros q. destruct (decide (pre ++ [c] = q)) as [<-|Hne].
  - right. rewrite lookup_insert_eq. auto.
  - left. now apply lookup_insert_ne.
Qed.

Lemma Path_mkdir_exist_ok_plain p S S1 :
  plain p -> Path_mkdir_exist_ok p S = (Ok tt, S1) -> mkdir_extends p S S1.
Proof.
  intros Hp. unfold Path_mkdir_exist_ok, catch.
  destruct (os_mkdir p S) as [[[]|e] S'] eqn:E.
  - intros [= <-]. now apply os_mkdir_plain.
  - apply os_mkdir_Raise in E as ->.
    destruct e as [| |[]| | |]; unfold raise; try discriminate;
      intros H; apply unless_is_dir_Ok in H as [-> H]; apply mkdir_extends_refl.
Qed.

(** [Path.mkdir] on a path without [..] adds directories on the way to the
    path, and nothing else. *)
Lemma Path_mkdir_rev_plain (rp : list string) S S1 :
  plain (rev rp) -> Path_mkdir_rev rp S = (Ok tt, S1) ->
  mkdir_extends (rev rp) S S1.
Proof.
  revert S S1. induction rp as [|c rparent IH]; intros S S1 Hp;
    rewrite Path_mkdir_rev_unfold; unfold catch;
    destruct (os_mkdir _ S) as [[[]|e] S'] eqn:E;
    try (intros [= <-]; now apply os_mkdir_plain);
    apply os_mkdir_Raise in E as ->;
    destruct e as [| |[]| | |]; unfold raise; try discriminate;
    try (intros H; apply unless_is_dir_Ok in H as [-> H]; apply mkdir_extends_refl).
  unfold bind. destruct (Path_mkdir_rev rparent S) as [[[]|e] Sa] eqn:Ea;
    [|discriminate].
  simpl in Hp. apply plain_snoc in Hp as [Hp' Hc].
  apply (IH _ _ Hp') in Ea. intros H.
  apply Path_mkdir_exist_ok_plain in H; [|simpl; now apply plain_snoc].
  eapply mkdir_extends_trans; [|exact H].
  eapply mkdir_extends_prefix; [|exact Ea]. simpl. now exists [c].
Qed.

Lemma Path_mkdir_plain p S S1 :
  plain p -> Path_mkdir p S = (Ok tt, S1) -> mkdir_extends p S S1.
Proof.
  unfold Path_mkdir. intros Hp H.
  rewrite <- (rev_involutive p). apply Path_mkdir_rev_plain; [|exact H].
  now rewrite rev_involutive.
Qed.

(** The walk fails on a missing name, or on a file. *)
Lemma resolve_dir_Raise S cur comps (e : exn) :
  plain comps -> resolve_dir S cur comps = Raise e ->
  e = OSError ENOENT
  \/ exists q d, q `prefix_of` (cur ++ comps) /\ S !! q = Some (File d).
Proof.
  intros Hp. revert cur. induction Hp as [|c comps Hc Hp IH]; intros cur; simpl;
    [discriminate|].
  apply String.eqb_neq in Hc. rewrite Hc, fs_lookup_snoc.
  destruct (S !! (cur ++ [c])) as [[|d]|] eqn:L.
  - intros H. apply IH in H as [H | (q & d & Hq & Hd)]; [now left|].
    right. exists q, d. now rewrite <- app_assoc in Hq.
  - intros _. right. exists (cur ++ [c]), d. split; [|exact L].
    exists comps. now rewrite <- app_assoc.
  - intros [= <-]. now left.
Qed.

Lemma no_file_on_the_way_prefix S p p' :
  p `prefix_of` p' -> no_file_on_the_way S p' -> no_file_on_the_way S p.
Proof. intros Hpp H q d Hq. apply H. etrans; eauto. Qed.

Lemma no_file_on_the_way_extends S S1 p :
  dir_extends S S1 -> no_file_on_the_way S p -> no_file_on_the_way S1 p.
Proof.
  intros Hext H q d Hq F. destruct (Hext q) as [E | [_ E]]; [|congruence].
  apply (H q d Hq). congruence.
Qed.

(** With no file on the way, [os.mkdir] makes the last name when the walk
    to it succeeds, or finds it made. *)
Lemma Path_mkdir_exist_ok_succeeds p (c : string) S :
  plain (p ++ [c]) -> no_file_on_the_way S (p ++ [c]) -> is_dir S p = true ->
  exists S1, Path_mkdir_exist_ok (p ++ [c]) S = (Ok tt, S1).
Proof.
  intros Hp Hno Hd. pose proof Hp as Hp'. apply plain_snoc in Hp' as [Hpp Hc].
  pose proof (is_dir_plain_resolve _ _ Hpp Hd) as R.
  unfold Path_mkdir_exist_ok, catch, os_mkdir.
  rewrite split_last_snoc, R. apply String.eqb_neq in Hc. rewrite Hc.
  rewrite fs_lookup_snoc. destruct (S !! (p ++ [c])) as [[|d]|] eqn:L.
  - unfold unless_is_dir.
    assert (is_dir S (p ++ [c]) = true) as ->; [|eauto].
    apply is_dir_resolve. exists (p ++ [c]). rewrite resolve_dir_app, R. simpl.
    now rewrite Hc, fs_lookup_snoc, L.
  - exfalso. now apply (Hno (p ++ [c]) d).
  - eauto.
Qed.

(** With no file on the way, [Path.mkdir] succeeds. *)
Lemma Path_mkdir_rev_succeeds (rp : list string) S :
  plain (rev rp) -> no_file_on_the_way S (rev rp) ->
  exists S1, Path_mkdir_rev rp S = (Ok tt, S1).
Proof.
  revert S. induction rp as [|c rparent IH]; intros S Hp Hno.
  - exists S. reflexivity.
  - simpl in Hp, Hno. pose proof Hp as Hp'. apply plain_snoc in Hp' as [Hpp Hc].
    assert (no_file_on_the_way S (rev rparent)) as Hno'.
    { eapply no_file_on_the_way_prefix; [|exact Hno]. now exists [c]. }
    rewrite Path_mkdir_rev_unfold. simpl rev. unfold catch.
    destruct (os_mkdir (rev rparent ++ [c]) S) as [[[]|e] S'] eqn:E; [eauto|].
    pose proof (os_mkdir_Raise _ _ _ _ E) as ->.
    unfold os_mkdir in E. rewrite split_last_snoc in E.
    destruct (resolve_dir S [] (rev rparent)) as [cur|e'] eqn:R.
    + (* the parent is there: the path is a directory already *)
      pose proof (resolve_dir_plain _ _ _ _ Hpp R) as Ec. simpl in Ec. subst cur.
      apply String.eqb_neq in Hc. rewrite Hc in E. rewrite fs_lookup_snoc in E.
      destruct (S !! (rev rparent ++ [c])) as [[|d]|] eqn:L; try discriminate.
      * injection E as <-. unfold unless_is_dir.
        assert (is_dir S (rev rparent ++ [c]) = true) as ->; [|eauto].
        apply is_dir_resolve. exists (rev rparent ++ [c]).
        rewrite resolve_dir_app, R. simpl. now rewrite Hc, fs_lookup_snoc, L.
      * exfalso. now apply (Hno (rev rparent ++ [c]) d).
    + injection E as <-.
      apply (resolve_dir_Raise _ _ _ _ Hpp) in R as [-> | (q & d & Hq & Hd)].
      * unfold bind. destruct (IH S Hpp Hno') as [Sa Ea]. rewrite Ea.
        apply Path_mkdir_rev_spec in Ea as [Hext Hda].
        apply Path_mkdir_exist_ok_succeeds; auto.
        eapply no_file_on_the_way_extends; eauto.
      * exfalso. simpl in Hq. now apply (Hno' q d).
Qed.

Lemma Path_mkdir_succeeds p S :
  plain p -> no_file_on_the_way S p -> exists S1, Path_mkdir p S = (Ok tt, S1).
Proof.
  intros Hp Hno. unfold Path_mkdir.
  apply Path_mkdir_rev_succeeds; now rewrite rev_involutive.
Qed.

End PlainPaths.

(** ** C3: flattened extraction *)

Section Flattened.

Local Open Scope list_scope.

Implicit Types S T : gmap (list string) node.
Implicit Types p q cur : list string.

Lemma prefix_snoc_inv q p (c : string) :
  q `prefix_of` p ++ [c] -> q `prefix_of` p \/ q = p ++ [c].
Proof.
  intros [k E]. destruct k as [|x k _] using rev_ind.
  - right. now rewrite app_nil_r in E.
  - left. rewrite app_assoc in E. apply app_inj_tail in E as [-> _]. now exists k.
Qed.

Lemma single_root_example : _single_root_dir (namelist example_archive) = Some "proj"%string.
Proof. vm_compute. reflexivity. Qed.

(** The flattened extraction of the example: the destination of
    [main.tex] is made, the file is written, and [sub] is made. *)
Lemma extract_members_example (d : list string) S :
  extract_members example_archive d true S
  = bind (bind (Path_mkdir (parent (d ++ ["main.tex"%string])))
            (fun _ => write_bytes (d ++ ["main.tex"%string]) [x58]))
      (fun _ => bind (Path_mkdir (d ++ ["sub"%string])) (fun _ => ret tt)) S.
Proof.
  unfold extract_members. rewrite single_root_example. reflexivity.
Qed.

(** Where the example ends, when it returns. *)
Lemma example_extraction_result (d : list string) S S' :
  plain d ->
  bind (Path_mkdir d) (fun _ => extract_members example_archive d true) S = (Ok tt, S') ->
  S' !! (d ++ ["main.tex"%string]) = Some (File [x58])
  /\ S' !! (d ++ ["sub"%string]) = Some Dir
  /\ forall q, (d ++ ["proj"%string]) `prefix_of` q -> S' !! q = S !! q.
Proof.
  intros Hp. unfold bind at 1.
  destruct (Path_mkdir d S) as [[[]|e] S1] eqn:E1; [|discriminate].
  rewrite extract_members_example, parent_snoc. unfold bind.
  destruct (Path_mkdir d S1) as [[[]|e] S2] eqn:E2; [|discriminate].
  destruct (write_bytes _ _ S2) as [[[]|e] S3] eqn:E3; [|discriminate].
  destruct (Path_mkdir (d ++ ["sub"%string]) S3) as [[[]|e] S4] eqn:E4; [|discriminate].
  intros [= <-].
  assert (plain (d ++ ["sub"%string])) as Hps by (apply plain_snoc; split; [exact Hp | discriminate]).
  pose proof (Path_mkdir_plain _ _ _ Hp E1) as M1.
  pose proof (Path_mkdir_plain _ _ _ Hp E2) as M2.
  pose proof (Path_mkdir_plain _ _ _ Hps E4) as M4.
  pose proof (proj2 (Path_mkdir_spec _ _ _ E2)) as D2.
  pose proof (proj2 (Path_mkdir_spec _ _ _ E4)) as D4.
  apply write_bytes_Ok in E3 as (pre & c & cur & Ep & R & _ & _ & ->).
  apply app_inj_tail in Ep as [<- <-].
  rewrite (is_dir_plain_resolve _ _ Hp D2) in R. injection R as <-.
  split; [|split].
  - destruct (M4 (d ++ ["main.tex"%string])) as [-> | (F & _)].
    + apply lookup_insert_eq.
    + now rewrite lookup_insert_eq in F.
  - now apply is_dir_plain_lookup.
  - intros q [k ->].
    assert (forall p', plain p' -> p' = d \/ p' = d ++ ["sub"%string] ->
              ~ (d ++ ["proj"%string]) ++ k `prefix_of` p') as Hnp.
    { intros p' _ [-> | ->] F.
      - apply prefix_length in F. rewrite !length_app in F. simpl in F. lia.
      - rewrite <- app_assoc in F. apply prefix_app_inv in F.
        simpl in F. apply prefix_cons_inv_1 in F. discriminate. }
    destruct (M4 ((d ++ ["proj"%string]) ++ k)) as [-> | (_ & _ & F)];
      [|now apply Hnp in F; auto].
    rewrite lookup_insert_ne.
    2:{ rewrite <- app_assoc. intros F. apply app_inv_head in F. discriminate. }
    destruct (M2 ((d ++ ["proj"%string]) ++ k)) as [-> | (_ & _ & F)];
      [|now apply Hnp in F; auto].
    destruct (M1 ((d ++ ["proj"%string]) ++ k)) as [-> | (_ & _ & F)];
      [reflexivity | now apply Hnp in F; auto].
Qed.

(** The example returns when no file stands on the way to the destination
    and nothing is in it yet. *)
Lemma example_extraction_succeeds (d : list string) S :
  plain d -> no_file_on_the_way S d ->
  (forall q, d `prefix_of` q -> q <> d -> S !! q = None) ->
  exists S',
    bind (Path_mkdir d) (fun _ => extract_members example_archive d true) S = (Ok tt, S').
Proof.
  intros Hp Hno Hempty. unfold bind at 1.
  destruct (Path_mkdir_succeeds _ _ Hp Hno) as [S1 E1]. rewrite E1.
  pose proof (Path_mkdir_plain _ _ _ Hp E1) as M1.
  pose proof (proj2 (Path_mkdir_spec _ _ _ E1)) as D1.
  rewrite extract_members_example, parent_snoc. unfold bind.
  rewrite (Path_mkdir_of_is_dir _ _ D1).
  assert (forall c : string, S1 !! (d ++ [c]) = None) as Hfresh.
  { intros c. destruct (M1 (d ++ [c])) as [-> | (_ & _ & F)].
    - apply Hempty; [now exists [c]|]. intros F.
      apply (f_equal length) in F. rewrite length_app in F. simpl in F. lia.
    - now apply prefix_snoc_not in F. }
  rewrite (write_bytes_at _ [x58] S1 d "main.tex"%string d eq_refl);
    [|now apply is_dir_plain_resolve|discriminate|rewrite Hfresh; discriminate].
  destruct (Path_mkdir_succeeds (d ++ ["sub"%string])
              (<[d ++ ["main.tex"%string] := File [x58]]> S1)) as [S4 E4].
  - apply plain_snoc. split; [exact Hp | discriminate].
  - intros q dd Hq. rewrite lookup_insert_ne.
    2:{ intros <-. apply prefix_length_eq in Hq;
          [|rewrite !length_app; simpl; lia].
        apply app_inv_head in Hq. discriminate. }
    apply prefix_snoc_inv in Hq as [Hq | ->]; [|now rewrite Hfresh].
    apply (no_file_on_the_way_extends S S1 d (mkdir_extends_dir _ _ _ M1) Hno q dd Hq).
  - rewrite E4. eauto.
Qed.

(** A member under the root: what the body of the loop does with it. *)
Lemma flatten_member_under_root (zf : list ZipInfo) (d : list string)
  (root rest : string) (info : ZipInfo) S S1 :
  filename info = (root +:+ "/" +:+ rest)%string ->
  let rel := Py.rstrip_by (Ascii.eqb "/") rest in
  (rel = ""%string -> flatten_member zf d (root +:+ "/") info S = (Ok tt, S))
  /\ (rel <> ""%string ->
      flatten_member zf d (root +:+ "/") info S = (Ok tt, S1) ->
      if ZipInfo_is_dir info
      then dir_extends S S1 /\ stat S1 (path_join d rel) = Ok Dir
      else exists i,
             zf_getinfo zf (filename info) = Some i
             /\ stat S1 (path_join d rel) = Ok (File (payload i))).
Proof.
  intros Hf rel. unfold flatten_member.
  rewrite Hf, <- string_app_assoc, startswith_app, drop_app. fold rel.
  cbn [negb]. cbv iota.
  split.
  - intros ->. reflexivity.
  - intros Hne. apply truthy_true in Hne. rewrite Hne. cbn [negb]. cbv iota.
    rewrite string_app_assoc, <- Hf.
    destruct (ZipInfo_is_dir info).
    + intros H. apply Path_mkdir_spec in H as [Hext Hd].
      split; [exact Hext | now apply is_dir_stat].
    + unfold bind.
      destruct (Path_mkdir _ S) as [[[]|e] Sa] eqn:Ea; [|discriminate].
      unfold zf_read. destruct (zf_getinfo zf (filename info)) as [i|];
        [|discriminate].
      unfold ret. intros H. exists i. split; [reflexivity|].
      pose proof (proj1 (replayable_write_bytes _ _ _ _ _ H)) as Hle.
      apply write_bytes_Ok in H as (pre & c & cur & Ep & R & Hc & _ & ->).
      unfold stat. rewrite Ep, split_last_snoc.
      rewrite (resolve_dir_le _ _ _ _ _ Hle R).
      apply String.eqb_neq in Hc. now rewrite Hc, fs_lookup_snoc, lookup_insert_eq.
Qed.

(** For a relative path the target is the path under the destination. *)
Lemma path_join_relative (d : list string) (rel : string) :
  Py.startswith rel "/" = false -> path_join d rel = d ++ path_parts rel.
Proof. unfold path_join. now intros ->. Qed.

(** At a path without [..], what [stat] finds is the node of the disk. *)
Lemma stat_plain_lookup S p (c : string) (n : node) :
  plain (p ++ [c]) -> stat S (p ++ [c]) = Ok n -> S !! (p ++ [c]) = Some n.
Proof.
  intros Hp. apply plain_snoc in Hp as [Hp Hc]. unfold stat.
  rewrite split_last_snoc.
  destruct (resolve_dir S [] p) as [cur|e] eqn:R; [|discriminate].
  apply (resolve_dir_plain _ _ _ _ Hp) in R. simpl in R. subst cur.
  apply String.eqb_neq in Hc. rewrite Hc, fs_lookup_snoc.
  destruct (S !! (p ++ [c])); congruence.
Qed.

(** A file member under the root whose rest is a relative path without
    [..]: after its step the disk holds, at the rest under the destination,
    the data of the member its name maps to. *)
Lemma flatten_member_file_at (zf : list ZipInfo) (d : list string)
  (root rest : string) (info : ZipInfo) S S1 (p : list string) (c : string) :
  filename info = (root +:+ "/" +:+ rest)%string ->
  ZipInfo_is_dir info = false ->
  Py.startswith (Py.rstrip_by (Ascii.eqb "/") rest) "/" = false ->
  path_parts (Py.rstrip_by (Ascii.eqb "/") rest) = p ++ [c] ->
  plain (d ++ p ++ [c]) ->
  flatten_member zf d (root +:+ "/") info S = (Ok tt, S1) ->
  exists i, zf_getinfo zf (filename info) = Some i
            /\ S1 !! (d ++ p ++ [c]) = Some (File (payload i)).
Proof.
  intros Hf Hi Hrel Hparts Hp H.
  destruct (flatten_member_under_root zf d root rest info S S1 Hf) as [_ Hgo].
  assert (Py.rstrip_by (Ascii.eqb "/") rest <> ""%string) as Hne.
  { intros F. rewrite F in Hparts. destruct p; discriminate. }
  specialize (Hgo Hne H). rewrite Hi in Hgo. destruct Hgo as (i & Hget & Hst).
  exists i. split; [exact Hget|].
  rewrite (path_join_relative _ _ Hrel), Hparts, app_assoc in Hst.
  rewrite app_assoc. apply stat_plain_lookup; [|exact Hst].
  now rewrite <- app_assoc.
Qed.

End Flattened.



(** A member whose rest starts with a slash is written from the root of the
    disk, not under the destination. *)
Example flatten_member_absolute_rest :
  extract_zip
    (archive_platform [ {| filename := "proj//a.tex"; payload := [x58] |} ])
    [] "out" true empty_world
  = (Ok tt,
     {| session_headers := ∅;
        disk := <[ ["a.tex"] := File [x58] ]> (<[ ["out"] := Dir ]> ∅);
        trace := [] |}).
Proof. vm_compute. reflexivity. Qed.

(** On an empty disk the example gives the destination and its two
    entries, and nothing else. *)
Example flattened_extraction_on_empty_disk :
  extract_zip (archive_platform example_archive) [] "out" true empty_world
  = (Ok tt,
     {| session_headers := ∅;
        disk := <[ ["out"; "sub"] := Dir ]>
                  (<[ ["out"; "main.tex"] := File [x58] ]>
                     (<[ ["out"] := Dir ]> ∅));
        trace := [] |}).
Proof. vm_compute. reflexivity. Qed.

(** ** C10: an entry named as the root *)

Section BareRoot.

Local Open Scope list_scope.

Lemma split_unfold (sep c : ascii) (s : string) :
  Py.split sep (String c s)
  = if Ascii.eqb c sep then ""%string :: Py.split sep s
    else match Py.split sep s with
         | [] => [String c ""]
         | w :: ws => String c w :: ws
         end.
Proof. reflexivity. Qed.

(** The pieces of a split hold no separator. *)
Lemma split_no_sep (sep : ascii) (s : string) :
  Forall (fun w => ~ In sep (list_ascii_of_string w)) (Py.split sep s).
Proof.
  induction s as [|c s IH]; [repeat constructor; simpl; tauto|].
  rewrite split_unfold. destruct (Ascii.eqb_spec c sep) as [->|Hne].
  - constructor; [simpl; tauto | exact IH].
  - destruct (Py.split sep s) as [|w ws].
    + repeat constructor. simpl. intros [F|[]]. now apply Hne.
    + inversion IH as [|? ? Hw Hws]. subst. constructor; [|exact Hws].
      simpl. intros [F|F]; [now apply Hne | now apply Hw].
Qed.

(** A text without separator, a separator and a rest split into the text
    and the pieces of the rest. *)
Lemma split_app_sep (sep : ascii) (a r : string) :
  ~ In sep (list_ascii_of_string a) ->
  Py.split sep (a +:+ String sep r)%string = a :: Py.split sep r.
Proof.
  induction a as [|c a IH]; intros Ha.
  - rewrite string_app_nil_l, split_unfold. now rewrite Ascii.eqb_refl.
  - rewrite string_app_cons, split_unfold. simpl in Ha.
    destruct (Ascii.eqb_spec c sep) as [->|Hne]; [tauto|].
    rewrite IH by tauto. reflexivity.
Qed.

(** A first segment is not empty and holds no slash. *)
Lemma first_segment_inv (name x : string) :
  first_segment name = Some x ->
  Py.truthy x = true /\ ~ In "/"%char (list_ascii_of_string x).
Proof.
  unfold first_segment, name_parts. intros H.
  assert (In x (List.filter Py.truthy (Py.split "/" name))) as Hin.
  { destruct (List.filter _ _) as [|y ys]; [discriminate|].
    injection H as ->. now left. }
  apply filter_In in Hin as [Hin Ht]. split; [exact Ht|].
  pose proof (split_no_sep "/" name) as Hall.
  rewrite List.Forall_forall in Hall. now apply Hall.
Qed.

(** An entry path that starts with a segment and a slash has that segment
    as its first one. *)
Lemma first_segment_of_prefixed (x r : string) :
  Py.truthy x = true -> ~ In "/"%char (list_ascii_of_string x) ->
  first_segment (x +:+ "/" +:+ r)%string = Some x.
Proof.
  intros Ht Hx. unfold first_segment, name_parts.
  change ("/" +:+ r)%string with (String "/" r).
  rewrite (split_app_sep "/" x r Hx). simpl. now rewrite Ht.
Qed.

Lemma startswith_longer (s p : string) :
  Py.startswith s p = true -> String.length p <= String.length s.
Proof.
  intros H. apply startswith_inv in H as [r ->]. rewrite string_app_length. lia.
Qed.

(** A text does not start with itself and a slash. *)
Lemma startswith_self_slash (root : string) :
  Py.startswith root (root +:+ "/")%string = false.
Proof.
  destruct (Py.startswith root (root +:+ "/")%string) eqn:E; [|reflexivity].
  apply startswith_longer in E. rewrite string_app_length in E. simpl in E. lia.
Qed.

(** Without the entries named as the root, the root is still detected. *)
Lemma single_root_dir_without_bare (pre post : list string) (root : string) :
  _single_root_dir (pre ++ root :: post) = Some root ->
  _single_root_dir (pre ++ post) = Some root.
Proof.
  rewrite !single_root_dir_iff. intros [Hset (n & Hn & Hp)].
  assert (n ∈ pre ++ post) as Hn'.
  { apply elem_of_app in Hn as [Hn | Hn]; [apply elem_of_app; now left|].
    apply elem_of_cons in Hn as [-> | Hn]; [|apply elem_of_app; now right].
    now rewrite startswith_self_slash in Hp. }
  split; [|eauto]. intros x. split.
  - intros (m & Hm & Hx). apply Hset. exists m. split; [|exact Hx].
    apply elem_of_app in Hm as [Hm | Hm]; apply elem_of_app;
      [now left | right; now right].
  - intros ->. exists n. split; [exact Hn'|].
    destruct (proj2 (Hset root) eq_refl) as (m & _ & Hm).
    apply first_segment_inv in Hm as [Ht Hx].
    apply startswith_inv in Hp as [r ->]. rewrite string_app_assoc.
    now apply first_segment_of_prefixed.
Qed.

Lemma detected_root_truthy (names : list string) (root : string) :
  _single_root_dir names = Some root -> Py.truthy root = true.
Proof.
  rewrite single_root_dir_iff. intros [Hset _].
  destruct (proj2 (Hset root) eq_refl) as (m & _ & Hm).
  now apply first_segment_inv in Hm.
Qed.

Lemma find_app {A} (f : A -> bool) (a b : list A) :
  find f (a ++ b) = match find f a with
                    | Some x => Some x
                    | None => find f b
                    end.
Proof.
  induction a as [|x a IH]; simpl; [reflexivity|]. destruct (f x); auto.
Qed.

(** Reading a name is not changed by the removal of a member of another
    name. *)
Lemma zf_read_without {St} (pre post : list ZipInfo) (e : ZipInfo) (name : string) :
  filename e <> name ->
  @zf_read St (pre ++ e :: post) name = @zf_read St (pre ++ post) name.
Proof.
  intros Hne. unfold zf_read, zf_getinfo.
  rewrite !rev_app_distr. simpl. rewrite <- app_assoc, !find_app. simpl.
  apply String.eqb_neq in Hne. now rewrite Hne.
Qed.

Lemma flatten_member_without (pre post : list ZipInfo) (e info : ZipInfo)
  (d : list string) (root : string) :
  filename e = root ->
  flatten_member (pre ++ e :: post) d (root +:+ "/") info
  = flatten_member (pre ++ post) d (root +:+ "/") info.
Proof.
  intros He. unfold flatten_member.
  destruct (Py.startswith (filename info) (root +:+ "/")%string) eqn:Hp;
    [|reflexivity].
  rewrite zf_read_without; [reflexivity|].
  rewrite He. intros F. rewrite <- F in Hp.
  now rewrite startswith_self_slash in Hp.
Qed.

Lemma for_each_app {St A} (xs ys : list A) (body : A -> M St unit) (s : St) :
  for_each (xs ++ ys) body s
  = bind (for_each xs body) (fun _ => for_each ys body) s.
Proof.
  revert s. induction xs as [|x xs IH]; intros s; simpl; [reflexivity|].
  unfold bind. destruct (body x s) as [[[]|e] s1]; [|reflexivity].
  rewrite IH. reflexivity.
Qed.

Lemma for_each_ext {St A} (xs : list A) (body body' : A -> M St unit) (s : St) :
  (forall x, body x = body' x) -> for_each xs body s = for_each xs body' s.
Proof.
  intros H. revert s. induction xs as [|x xs IH]; intros s; simpl; [reflexivity|].
  unfold bind. rewrite H. destruct (body' x s) as [[[]|e] s1]; [apply IH | reflexivity].
Qed.

(** The member named as the root is passed over. *)
Lemma flatten_member_bare (zf : list ZipInfo) (d : list string) (e : ZipInfo)
  (root : string) :
  filename e = root -> flatten_member zf d (root +:+ "/") e = ret tt.
Proof.
  intros He. unfold flatten_member. now rewrite He, startswith_self_slash.
Qed.

End BareRoot.

(** C10.  In an archive where a common root is detected, a member whose
    path is the root itself, without slash, is passed over by the flattened
    extraction: its step leaves the disk as it is, and the extraction of the
    archive is that of the archive without the member, on every disk and in
    its outcome as well. *)
Theorem bare_root_entry_skipped (pre post : list ZipInfo) (e : ZipInfo) (root : string)
  (d : list string) (S : gmap (list string) node) :
  _single_root_dir (namelist (pre ++ e :: post)) = Some root ->
  filename e = root ->
  flatten_member (pre ++ e :: post) d (root ++ "/") e S = (Ok tt, S)
  /\ extract_members (pre ++ e :: post) d true S
     = extract_members (pre ++ post) d true S.
Proof.
  intros Hroot He. split; [now rewrite (flatten_member_bare _ _ _ _ He)|].
  unfold extract_members. rewrite Hroot.
  assert (_single_root_dir (namelist (pre ++ post)) = Some root) as ->.
  { unfold namelist in *. rewrite map_app in *. simpl in Hroot. rewrite He in Hroot.
    now apply single_root_dir_without_bare in Hroot. }
  rewrite (detected_root_truthy _ _ Hroot).
  rewrite !for_each_app. unfold bind.
  rewrite (for_each_ext pre _ (flatten_member (pre ++ post) d (root ++ "/")))
    by (intros x; now apply flatten_member_without).
  destruct (for_each pre _ S) as [[[]|err] S1]; [|reflexivity].
  simpl for_each. unfold bind. rewrite (flatten_member_bare _ _ _ _ He). unfold ret.
  apply for_each_ext. intros x. now apply flatten_member_without.
Qed.

Lemma bare_root_entry_skipped_witness :
  extract_members
    [ {| filename := "proj"; payload := [x58] |};
      {| filename := "proj/a.tex"; payload := [x59] |} ] ["out"] true ∅
  = extract_members [ {| filename := "proj/a.tex"; payload := [x59] |} ] ["out"] true ∅.
Proof.
  refine (proj2 (bare_root_entry_skipped []
                   [ {| filename := "proj/a.tex"; payload := [x59] |} ]
                   {| filename := "proj"; payload := [x58] |} "proj" ["out"] ∅ _ eq_refl)).
  vm_compute. reflexivity.
Defined.

(** The entries [proj] and [proj/a.tex]: only the second is written. *)
Example bare_root_entry_example :
  extract_zip
    (archive_platform
       [ {| filename := "proj"; payload := [x58] |};
         {| filename := "proj/a.tex"; payload := [x59] |} ])
    [] "out" true empty_world
  = (Ok tt,
     {| session_headers := ∅;
        disk := <[ ["out"; "a.tex"] := File [x59] ]> (<[ ["out"] := Dir ]> ∅);
        trace := [] |}).
Proof. vm_compute. reflexivity. Qed.

(** * Further properties of the script *)

(** ** The session builder *)

Section SessionBuilder.

Lemma rstrip_by_snoc (p : ascii -> bool) (s : string) (c : ascii) :
  p c = true -> Py.rstrip_by p (s ++ String c "") = Py.rstrip_by p s.
Proof.
  intros Hc. induction s as [|x s IH]; ssimpl.
  - now rewrite Hc.
  - now rewrite IH.
Qed.

Lemma cookie_header_strip (C : string) : _cookie_header (Py.strip C) = _cookie_header C.
Proof. unfold _cookie_header. now rewrite strip_idem. Qed.

End SessionBuilder.

(** X1.  [_normalize_base_url] takes nothing but slashes, and only from the
    end: the text is the result followed by a run of slashes; a text that
    does not end with a slash is returned as it is; and one more slash at
    the end changes nothing. *)
Theorem normalize_base_url_only_trailing_slashes (U : string) :
  (exists t, U = _normalize_base_url U ++ t
             /\ Forall (fun c => c = "/"%char) (list_ascii_of_string t))
  /\ ((forall t, U <> t ++ "/") -> _normalize_base_url U = U)
  /\ _normalize_base_url (U ++ "/") = _normalize_base_url U.
Proof.
  assert (D : exists t, U = _normalize_base_url U ++ t
                        /\ Forall (fun c => c = "/"%char) (list_ascii_of_string t)).
  { apply normalize_base_url_decompose. }
  split; [exact D |]. split.
  - intros Hno. destruct D as (t & E & F).
    destruct (String.eqb_spec t "") as [-> | Hne].
    + now rewrite string_app_nil_r in E.
    + exfalso. destruct (string_snoc_inv t Hne) as (u & c & ->).
      rewrite list_ascii_app in F. apply Forall_app in F as [_ F].
      simpl in F. apply Forall_cons in F as [-> _].
      apply (Hno (_normalize_base_url U ++ u)).
      now rewrite string_app_assoc.
  - unfold _normalize_base_url. now apply rstrip_by_snoc.
Qed.

(** X2.  [_cookie_header] applied to its own result gives that result again,
    and white space around the cookie does not change the header. *)
Theorem cookie_header_idempotent (C : string) :
  _cookie_header (_cookie_header C) = _cookie_header C
  /\ _cookie_header (Py.strip C) = _cookie_header C.
Proof.
  split; [| apply cookie_header_strip].
  unfold _cookie_header at 2 3.
  destruct (Py.startswith (Py.lower (Py.strip C)) "overleaf.sid=") eqn:E.
  - rewrite cookie_header_strip. unfold _cookie_header. now rewrite E.
  - unfold _cookie_header.
    rewrite (strip_key_app (Py.strip C) (strip_idem C)).
    rewrite lower_app.
    change (Py.lower "overleaf.sid=") with "overleaf.sid=".
    now rewrite startswith_app.
Qed.

(** ** Common-root detection *)

(** X3.  [_single_root_dir] returns [root] exactly when [root] is a name
    (not empty, without a slash), every entry path that has a first segment
    has [root] as that segment, and some entry path is [root], a slash and
    a remainder. *)
Theorem single_root_dir_detects (names : list string) (root : string) :
  _single_root_dir names = Some root
  <-> root <> ""
      /\ ~ In "/"%char (list_ascii_of_string root)
      /\ (forall n x, n ∈ names -> first_segment n = Some x -> x = root)
      /\ (exists n rest, n ∈ names /\ n = root ++ "/" ++ rest).
Proof.
  rewrite single_root_dir_iff. split.
  - intros [Hall (n & Hn & Hs)].
    destruct (proj2 (Hall root) eq_refl) as (m & Hm & Hseg).
    apply first_segment_inv in Hseg as [Ht Hns].
    split; [now apply truthy_true |]. split; [exact Hns |]. split.
    + intros k x Hk Hx. apply (Hall x). eauto.
    + apply startswith_inv in Hs as [rest ->].
      exists ((root ++ "/") ++ rest), rest. split; [exact Hn |].
      apply string_app_assoc.
  - intros (Hne & Hns & Hall & (n & rest & Hn & ->)).
    assert (Ht : Py.truthy root = true) by now apply truthy_true.
    split.
    + intros x. split.
      * intros (k & Hk & Hx). eauto.
      * intros ->. exists (root ++ "/" ++ rest). split; [exact Hn |].
        now apply first_segment_of_prefixed.
    + exists (root ++ "/" ++ rest). split; [exact Hn |].
      rewrite <- string_app_assoc. apply startswith_app.
Qed.

(** X4.  The detection depends on which entry paths there are, not on
    their order nor on how often each occurs. *)
Theorem single_root_dir_same_entries (names names' : list string) :
  (forall n, n ∈ names <-> n ∈ names') ->
  _single_root_dir names = _single_root_dir names'.
Proof.
  intros H.
  assert (E : forall root, _single_root_dir names = Some root
                           <-> _single_root_dir names' = Some root).
  { intros root. rewrite !single_root_dir_iff.
    split; intros [Hall (n & Hn & Hs)]; (split; [| exists n; split; [now apply H | exact Hs]]);
      intros x; rewrite <- (Hall x); split; intros (k & Hk & Hx); exists k;
      (split; [now apply H | exact Hx]). }
  destruct (_single_root_dir names) as [r|] eqn:E1.
  - symmetry. now apply E.
  - destruct (_single_root_dir names') as [r'|] eqn:E2; [| reflexivity].
    now pose proof (proj2 (E r') eq_refl).
Qed.

Lemma single_root_dir_same_entries_witness :
  _single_root_dir ["proj/a.tex"; "proj/b.tex"]
  = _single_root_dir ["proj/b.tex"; "proj/a.tex"; "proj/b.tex"].
Proof.
  apply single_root_dir_same_entries.
  intros n. rewrite !elem_of_cons, !elem_of_nil. tauto.
Defined.

(** ** The fetchers *)

Section Fetchers.

Lemma not_http_error_status (r : Response) :
  ~ is_http_error r <-> ((400 <=? status_code r) && (status_code r <? 600))%Z = false.
Proof.
  unfold is_http_error. rewrite andb_false_iff, Z.leb_gt, Z.ltb_ge. lia.
Qed.

Lemma re_search_csrf_found (pre body v post : string) :
  token_at body pre v post -> re_search csrf_pattern body <> None.
Proof.
  revert body. induction pre as [|c pre IH]; intros body Ht; rewrite re_search_unfold.
  - destruct (re_match csrf_pattern body) as [gs|] eqn:E; [discriminate |].
    assert (X : re_match csrf_pattern body = Some [v])
      by (apply re_match_csrf; eauto).
    congruence.
  - destruct (re_match csrf_pattern body) as [gs|] eqn:E; [discriminate |].
    destruct Ht as [-> Hv]. ssimpl. apply IH. now split.
Qed.

End Fetchers.

(** X5.  Whatever the status of the response, [get_csrf_token] returns a
    token exactly when the status is not a 4xx or 5xx one and the token is
    the value of the leftmost tag in the text; it returns no token exactly
    when the status is not a 4xx or 5xx one and the text holds no such tag.
    A token never holds a double quote. *)
Theorem get_csrf_token_returns (pf : Platform) (base_url project_id : string)
  (w : World) :
  let r := token_response pf base_url project_id w in
  let res := fst (get_csrf_token pf base_url project_id w) in
  (forall v,
     res = Ok (Some v)
     <-> ~ is_http_error r
         /\ exists pre post,
              token_at (text r) pre v post
              /\ forall pre' v' post', token_at (text r) pre' v' post' ->
                   String.length pre <= String.length pre')
  /\ (res = Ok None
      <-> ~ is_http_error r /\ forall pre v post, ~ token_at (text r) pre v post)
  /\ (forall v, res = Ok (Some v) -> no_dquote v).
Proof.
  intros r res. unfold res. rewrite get_csrf_token_unfold. fold r.
  destruct ((400 <=? status_code r) && (status_code r <? 600))%Z eqn:Es; simpl.
  - assert (He : ~ ~ is_http_error r).
    { intros Hn. apply not_http_error_status in Hn. congruence. }
    split; [| split].
    + intros v. split; [discriminate | intros [Hn _]; contradiction].
    + split; [discriminate | intros [Hn _]; contradiction].
    + discriminate.
  - assert (Hn : ~ is_http_error r) by now apply not_http_error_status.
    destruct (re_search csrf_pattern (text r)) as [gs|] eqn:E; simpl.
    + destruct (re_search_csrf_some _ _ E) as (pre & v0 & post & -> & Ht & Hl).
      simpl. split; [| split].
      * intros v. split.
        -- intros [= <-]. split; [exact Hn |]. exists pre, post. auto.
        -- intros (_ & pre' & post' & Ht' & Hl').
           rewrite (re_search_csrf_leftmost _ _ _ _ Ht' Hl') in E.
           congruence.
      * split; [discriminate |]. intros [_ Hno]. exfalso. exact (Hno _ _ _ Ht).
      * intros v [= <-]. exact (proj2 Ht).
    + split; [| split].
      * intros v. split; [discriminate |].
        intros (_ & pre & post & Ht & _). exfalso.
        exact (re_search_csrf_found _ _ _ _ Ht E).
      * split; [intros _ | reflexivity]. split; [exact Hn |].
        intros pre v post Ht. exact (re_search_csrf_found _ _ _ _ Ht E).
      * discriminate.
Qed.

(** X6.  Whatever the status of the response, [download_zip] returns bytes
    exactly when the status is not a 4xx or 5xx one and the body starts with
    the two bytes [PK]; what it returns is the body, unchanged.  A 4xx or 5xx
    status raises the HTTP error even when the body is an archive.  The call
    leaves the disk and the session headers as they are. *)
Theorem download_zip_returns (pf : Platform) (base_url project_id : string)
  (w : World) :
  let r := archive_response pf base_url project_id w in
  let out := download_zip pf base_url project_id w in
  (forall data,
     fst out = Ok data
     <-> ~ is_http_error r /\ data = content r
         /\ exists rest, data = x50 :: x4b :: rest)
  /\ (is_http_error r -> fst out = Raise (HTTPError r))
  /\ disk (snd out) = disk w
  /\ session_headers (snd out) = session_headers w.
Proof.
  intros r out.
  destruct (download_zip_frame pf base_url project_id w) as (Hh & Hd & _).
  split; [| split; [| split; [exact Hd | exact Hh]]];
    unfold out; rewrite download_zip_unfold; fold r.
  - intros data.
    destruct ((400 <=? status_code r) && (status_code r <? 600))%Z eqn:Es; simpl.
    + split; [discriminate |]. intros [Hn _].
      apply not_http_error_status in Hn. congruence.
    + assert (Hn : ~ is_http_error r) by now apply not_http_error_status.
      destruct (bytes_startswith (content r) PK) eqn:Ep; simpl.
      * apply bytes_startswith_PK in Ep. split.
        -- intros [= <-]. auto.
        -- intros (_ & -> & _). reflexivity.
      * split; [discriminate |]. intros (_ & -> & Hr).
        apply bytes_startswith_PK in Hr. congruence.
  - intros He. now rewrite (http_error_status _ He).
Qed.

(** ** The archive extractor: what it raises *)

Section ExtractorErrors.

Local Open Scope list_scope.

Implicit Types S T : gmap (list string) node.
Implicit Types p q cur : list string.

Lemma on_disk_fst {A} (m : M (gmap (list string) node) A) (w : World) :
  fst (on_disk m w) = fst (m (disk w)).
Proof. unfold on_disk. now destruct (m (disk w)). Qed.

Lemma on_disk_disk {A} (m : M (gmap (list string) node) A) (w : World) :
  disk (snd (on_disk m w)) = snd (m (disk w)).
Proof. unfold on_disk. now destruct (m (disk w)). Qed.

Lemma resolve_dir_OSError S cur comps (e : exn) :
  resolve_dir S cur comps = Raise e -> exists oe, e = OSError oe.
Proof.
  revert cur. induction comps as [|x comps IH]; intros cur; simpl; [discriminate|].
  destruct (String.eqb x ".."); [apply IH|].
  destruct (fs_lookup S (cur ++ [x])) as [[|d]|]; [apply IH| |]; intros [= <-]; eauto.
Qed.

Lemma write_bytes_OSError p (data : list byte) S (e : exn) S1 :
  write_bytes p data S = (Raise e, S1) -> exists oe, e = OSError oe.
Proof.
  unfold write_bytes. destruct (split_last p) as [[pre c]|]; [|intros [= <- _]; eauto].
  destruct (resolve_dir S [] pre) as [cur|e'] eqn:R.
  - destruct (String.eqb c ".."); [intros [= <- _]; eauto|].
    destruct (fs_lookup S (cur ++ [c])) as [[|d]|];
      [intros [= <- _]; eauto | discriminate | discriminate].
  - intros [= <- _]. eapply resolve_dir_OSError; eauto.
Qed.

Lemma unless_is_dir_Raise p (e e' : exn) S S1 :
  unless_is_dir p e S = (Raise e', S1) -> e' = e.
Proof. unfold unless_is_dir. destruct (is_dir S p); congruence. Qed.

Lemma Path_mkdir_exist_ok_OSError p S (e : exn) S1 :
  Path_mkdir_exist_ok p S = (Raise e, S1) -> exists oe, e = OSError oe.
Proof.
  unfold Path_mkdir_exist_ok, catch.
  destruct (os_mkdir p S) as [[[]|e1] S'] eqn:E; [discriminate|].
  destruct (os_mkdir_OSError _ _ _ _ E) as [oe ->].
  destruct oe; unfold raise; try (intros [= <- _]; eauto);
    intros H; apply unless_is_dir_Raise in H as ->; eauto.
Qed.

Lemma Path_mkdir_rev_OSError (rp : list string) S (e : exn) S1 :
  Path_mkdir_rev rp S = (Raise e, S1) -> exists oe, e = OSError oe.
Proof.
  revert S e S1. induction rp as [|c rp IH]; intros S e S1;
    rewrite Path_mkdir_rev_unfold; unfold catch;
    (destruct (os_mkdir _ S) as [[[]|e1] S'] eqn:E; [discriminate|]);
    destruct (os_mkdir_OSError _ _ _ _ E) as [oe ->];
    destruct oe; unfold raise; try (intros [= <- _]; eauto);
    try (intros H; apply unless_is_dir_Raise in H as ->; eauto).
  unfold bind. destruct (Path_mkdir_rev rp S') as [[[]|e2] S2] eqn:E2.
  - apply Path_mkdir_exist_ok_OSError.
  - intros [= <- _]. eapply IH; eauto.
Qed.

Lemma Path_mkdir_OSError p S (e : exn) S1 :
  Path_mkdir p S = (Raise e, S1) -> exists oe, e = OSError oe.
Proof. apply Path_mkdir_rev_OSError. Qed.

Lemma makedirs_last_OSError p S (e : exn) S1 :
  catch (os_mkdir p) (unless_is_dir p) S = (Raise e, S1) -> exists oe, e = OSError oe.
Proof.
  unfold catch. destruct (os_mkdir p S) as [[[]|e1] S'] eqn:E; [discriminate|].
  destruct (os_mkdir_OSError _ _ _ _ E) as [oe ->].
  intros H. apply unless_is_dir_Raise in H as ->. eauto.
Qed.

Lemma makedirs_rev_OSError (rp : list string) S (e : exn) S1 :
  makedirs_rev rp S = (Raise e, S1) -> exists oe, e = OSError oe.
Proof.
  revert S e S1. induction rp as [|c rp IH]; intros S e S1.
  - rewrite makedirs_rev_nil. discriminate.
  - rewrite makedirs_rev_cons. unfold bind.
    destruct (makedirs_head rp S) as [[[]|e1] S'] eqn:E.
    + apply makedirs_last_OSError.
    + intros [= <- _]. unfold makedirs_head in E.
      destruct (exists_path S (rev rp)); [discriminate|].
      unfold catch in E.
      destruct (makedirs_rev rp S) as [[[]|e2] S2] eqn:E2; [discriminate|].
      destruct (IH _ _ _ E2) as [oe ->].
      destruct oe; unfold raise, ret in E; try discriminate; injection E as <- _; eauto.
Qed.

Lemma ensure_upperdirs_OSError p S (e : exn) S1 :
  ensure_upperdirs p S = (Raise e, S1) -> exists oe, e = OSError oe.
Proof.
  unfold ensure_upperdirs. destruct (exists_path S p); [discriminate|].
  apply makedirs_rev_OSError.
Qed.

Lemma write_member_OSError p (info : ZipInfo) S (e : exn) S1 :
  write_member p info S = (Raise e, S1) -> exists oe, e = OSError oe.
Proof.
  unfold write_member. destruct (ZipInfo_is_dir info).
  - destruct (is_dir S p); [discriminate|]. unfold catch.
    destruct (os_mkdir p S) as [[[]|e1] S'] eqn:E; [discriminate|].
    destruct (os_mkdir_OSError _ _ _ _ E) as [oe ->].
    destruct oe; unfold raise; try (intros [= <- _]; eauto).
    intros H. apply unless_is_dir_Raise in H as ->. eauto.
  - apply write_bytes_OSError.
Qed.

(** The one error of [extractall] that is not of the file system. *)
Lemma extract_member_Raise (d : list string) (info : ZipInfo) S (e : exn) S1 :
  extract_member d info S = (Raise e, S1) ->
  (exists oe, e = OSError oe)
  \/ (e = ValueError "Empty filename."
      /\ member_arcname info = [] /\ ZipInfo_is_dir info = false).
Proof.
  rewrite extract_member_unfold.
  destruct (Nat.eqb (length (member_arcname info)) 0) eqn:El;
    destruct (ZipInfo_is_dir info) eqn:Ed; simpl.
  2:{ intros [= <- _]. right. split; [reflexivity|]. split; [|reflexivity].
      apply Nat.eqb_eq in El. now destruct (member_arcname info). }
  all: unfold bind;
    destruct (ensure_upperdirs _ S) as [[[]|e1] S'] eqn:E;
    [ intros H; left; apply write_member_OSError in H; exact H
    | intros [= <- _]; left; eapply ensure_upperdirs_OSError; eauto ].
Qed.

Lemma for_each_Raise {St A} (xs : list A) (body : A -> M St unit) (s : St)
  (e : exn) (s1 : St) :
  for_each xs body s = (Raise e, s1) ->
  exists x s0, x ∈ xs /\ body x s0 = (Raise e, s1).
Proof.
  revert s. induction xs as [|x xs IH]; intros s; simpl; [discriminate|].
  unfold bind. destruct (body x s) as [[[]|e1] s'] eqn:E.
  - intros H. destruct (IH _ H) as (y & s0 & Hy & Hb).
    exists y, s0. split; [apply elem_of_cons; now right | exact Hb].
  - intros [= <- <-]. exists x, s. split; [apply elem_of_cons; now left | exact E].
Qed.

(** A member of the archive is found by its name: [zf.read] of a listed
    name does not raise. *)
Lemma zf_getinfo_member (zf : list ZipInfo) (i : ZipInfo) :
  i ∈ zf ->
  exists i', zf_getinfo zf (filename i) = Some i' /\ filename i' = filename i.
Proof.
  intros Hi. unfold zf_getinfo.
  destruct (find (fun j => String.eqb (filename j) (filename i)) (rev zf)) as [i'|] eqn:E.
  - apply find_some in E as [_ E]. apply String.eqb_eq in E. eauto.
  - exfalso. assert (Hin : In i (rev zf)).
    { apply in_rev. rewrite rev_involutive. now apply list_elem_of_In. }
    pose proof (find_none _ _ E i Hin) as K. simpl in K.
    rewrite String.eqb_refl in K. discriminate.
Qed.

Lemma flatten_member_OSError (zf : list ZipInfo) (d : list string) (prefix : string)
  (info : ZipInfo) S (e : exn) S1 :
  info ∈ zf ->
  flatten_member zf d prefix info S = (Raise e, S1) -> exists oe, e = OSError oe.
Proof.
  intros Hi. unfold flatten_member.
  destruct (negb (Py.startswith (filename info) prefix)); [discriminate|].
  destruct (negb (Py.truthy _)); [discriminate|].
  destruct (ZipInfo_is_dir info); [apply Path_mkdir_OSError|].
  unfold bind. destruct (Path_mkdir _ S) as [[[]|e1] S'] eqn:E.
  - unfold zf_read. destruct (zf_getinfo_member zf info Hi) as (i' & -> & _).
    unfold ret. apply write_bytes_OSError.
  - intros [= <- _]. eapply Path_mkdir_OSError; eauto.
Qed.

End ExtractorErrors.



(** ** The archive extractor: what it leaves on the disk *)

(** X8.  Whatever its outcome, [extract_zip] removes nothing and replaces
    no directory by a file nor a file by a directory: a directory of the
    disk is still one afterwards, and a file is still a file.  It sends no
    request and writes no header.  When it returns, the output directory
    is a directory. *)
Theorem extract_zip_only_adds (pf : Platform) (zip_bytes : list byte)
  (output_dir : string) (flatten_single_root : bool) (w : World) :
  let out := extract_zip pf zip_bytes output_dir flatten_single_root w in
  (forall p, disk w !! p = Some Dir -> disk (snd out) !! p = Some Dir)
  /\ (forall p data, disk w !! p = Some (File data) ->
        exists data', disk (snd out) !! p = Some (File data'))
  /\ session_headers (snd out) = session_headers w
  /\ trace (snd out) = trace w
  /\ (fst out = Ok tt -> is_dir (disk (snd out)) (resolve pf output_dir) = true).
Proof.
  intros out.
  destruct (extract_zip_frame pf zip_bytes output_dir flatten_single_root w) as [Hh Ht].
  assert (Hle : fs_le (disk w) (disk (snd out))).
  { unfold out. rewrite extract_zip_on_disk, on_disk_disk.
    destruct (bind _ _ (disk w)) as [r S1] eqn:E.
    exact (proj1 (replayable_extract_zip pf zip_bytes output_dir flatten_single_root
                    _ _ _ E)). }
  split; [| split; [| split; [exact Hh | split; [exact Ht |]]]].
  - intros p Hp. destruct (Hle p _ Hp) as (n' & Hn' & Hk).
    apply same_kind_Dir in Hk. now subst.
  - intros p data Hp. destruct (Hle p _ Hp) as (n' & Hn' & Hk).
    apply same_kind_File in Hk as [d' ->]. eauto.
  - unfold out. rewrite extract_zip_on_disk, on_disk_fst, on_disk_disk. unfold bind.
    destruct (Path_mkdir (resolve pf output_dir) (disk w)) as [[[]|e1] S'] eqn:E;
      [| discriminate].
    apply Path_mkdir_spec in E as [_ Hd].
    destruct (zip_open pf zip_bytes) as [zf|]; [| discriminate].
    destruct (extract_members zf _ _ S') as [r S1] eqn:Em. simpl. intros _.
    eapply is_dir_le; [| exact Hd].
    exact (proj1 (replayable_extract_members zf _ _ _ _ _ Em)).
Qed.

(** X9.  On bytes that are no archive [extract_zip] raises, and only after
    it has made the output directory: the error is that of the invalid
    archive unless making the directory failed; with it the directory is
    there; and nothing but directories has been added to the disk.  When the
    directory was there already the disk is as before. *)
Theorem extract_zip_invalid_archive (pf : Platform) (zip_bytes : list byte)
  (output_dir : string) (flatten_single_root : bool) (w : World) :
  zip_open pf zip_bytes = None ->
  let out := extract_zip pf zip_bytes output_dir flatten_single_root w in
  (fst out = Raise BadZipFile \/ exists oe, fst out = Raise (OSError oe))
  /\ dir_extends (disk w) (disk (snd out))
  /\ (fst out = Raise BadZipFile -> is_dir (disk (snd out)) (resolve pf output_dir) = true)
  /\ (is_dir (disk w) (resolve pf output_dir) = true ->
      fst out = Raise BadZipFile /\ disk (snd out) = disk w).
Proof.
  intros Hz out. unfold out.
  rewrite extract_zip_on_disk, on_disk_fst, on_disk_disk. unfold bind. rewrite Hz.
  destruct (Path_mkdir (resolve pf output_dir) (disk w)) as [[[]|e1] S'] eqn:E; simpl.
  - pose proof (Path_mkdir_spec _ _ _ E) as [Hext Hd].
    split; [now left |]. split; [exact Hext |]. split; [auto |].
    intros Hd0. rewrite (Path_mkdir_of_is_dir _ _ Hd0) in E.
    injection E as <-. auto.
  - destruct (Path_mkdir_OSError _ _ _ _ E) as [oe ->].
    split; [right; eauto |]. split.
    + eapply Path_mkdir_rev_dir_extends. exact E.
    + split; [discriminate |].
      intros Hd0. rewrite (Path_mkdir_of_is_dir _ _ Hd0) in E. discriminate.
Qed.

Lemma extract_zip_invalid_archive_witness :
  fst (extract_zip unreadable_archive_platform [] "out" true empty_world)
  = Raise BadZipFile
  /\ disk (snd (extract_zip unreadable_archive_platform [] "out" true empty_world))
     = <[ ["out"] := Dir ]> ∅.
Proof.
  split.
  - destruct (extract_zip_invalid_archive unreadable_archive_platform [] "out" true
                empty_world eq_refl) as ([H | [oe H]] & _).
    + exact H.
    + vm_compute in H. discriminate.
  - vm_compute. reflexivity.
Defined.

(** ** The archive extractor: where the members land *)

Section WriterLoop.

Local Open Scope list_scope.

Implicit Types S T : gmap (list string) node.
Implicit Types p q cur : list string.

(** A loop whose body, on each element it accepts, only adds directories
    and writes at most one file, at the path [target] gives. *)
Context {A : Type} (body : A -> M (gmap (list string) node) unit)
  (target : A -> option (list string * list byte)) (accepted : A -> Prop).

Hypothesis body_step : forall x S S',
  accepted x -> body x S = (Ok tt, S') ->
  match target x with
  | Some (t, data) => exists S0, dir_extends S S0 /\ S' = <[t := File data]> S0
  | None => dir_extends S S'
  end.

Lemma for_each_cons_Ok {St B} (x : B) (xs : list B) (f : B -> M St unit) (s s1 : St) :
  for_each (x :: xs) f s = (Ok tt, s1) ->
  exists s', f x s = (Ok tt, s') /\ for_each xs f s' = (Ok tt, s1).
Proof.
  simpl. unfold bind. destruct (f x s) as [[[]|e] s'] eqn:E; [eauto | discriminate].
Qed.

Lemma dir_extends_file S S1 q (data : list byte) :
  dir_extends S S1 -> S !! q = Some (File data) -> S1 !! q = Some (File data).
Proof. intros H Hq. destruct (H q) as [E | [E _]]; congruence. Qed.

Lemma dir_extends_file_inv S S1 q (data : list byte) :
  dir_extends S S1 -> S1 !! q = Some (File data) -> S !! q = Some (File data).
Proof. intros H Hq. destruct (H q) as [E | [_ E]]; congruence. Qed.

(** A file on the disk after the loop was there before, or is the target of
    an element. *)
Lemma writer_loop_frame (xs : list A) S S1 q (data : list byte) :
  Forall accepted xs -> for_each xs body S = (Ok tt, S1) ->
  S1 !! q = Some (File data) ->
  S !! q = Some (File data) \/ exists x, x ∈ xs /\ target x = Some (q, data).
Proof.
  revert S. induction xs as [|x xs IH]; intros S Hacc H Hq.
  - simpl in H. injection H as <-. now left.
  - apply Forall_cons in Hacc as [Hx Hacc].
    apply for_each_cons_Ok in H as (S' & Hb & H).
    destruct (IH _ Hacc H Hq) as [Hq' | (y & Hy & Ht)].
    2:{ right. exists y. split; [apply elem_of_cons; now right | exact Ht]. }
    pose proof (body_step _ _ _ Hx Hb) as Hs.
    destruct (target x) as [[t dt]|] eqn:Et.
    + destruct Hs as (S0 & Hext & ->).
      destruct (decide (t = q)) as [-> | Hne].
      * rewrite lookup_insert_eq in Hq'. injection Hq' as ->.
        right. exists x. split; [apply elem_of_cons; now left | exact Et].
      * rewrite lookup_insert_ne in Hq' by exact Hne.
        left. eapply dir_extends_file_inv; eauto.
    + left. eapply dir_extends_file_inv; eauto.
Qed.

(** A file stays as it is through the loop when every element that writes
    at its path writes what it holds. *)
Lemma writer_loop_keeps (xs : list A) S S1 q (data : list byte) :
  Forall accepted xs -> for_each xs body S = (Ok tt, S1) ->
  S !! q = Some (File data) ->
  (forall y dt, y ∈ xs -> target y = Some (q, dt) -> dt = data) ->
  S1 !! q = Some (File data).
Proof.
  revert S. induction xs as [|x xs IH]; intros S Hacc H Hq Hsame.
  - simpl in H. now injection H as <-.
  - apply Forall_cons in Hacc as [Hx Hacc].
    apply for_each_cons_Ok in H as (S' & Hb & H).
    apply (IH S' Hacc H).
    + pose proof (body_step _ _ _ Hx Hb) as Hs.
      destruct (target x) as [[t dt]|] eqn:Et.
      * destruct Hs as (S0 & Hext & ->).
        destruct (decide (t = q)) as [-> | Hne].
        -- rewrite lookup_insert_eq.
           rewrite (Hsame x dt) by (try (apply elem_of_cons; now left); exact Et).
           reflexivity.
        -- rewrite lookup_insert_ne by exact Hne. eapply dir_extends_file; eauto.
      * eapply dir_extends_file; eauto.
    + intros y dt Hy. apply Hsame. apply elem_of_cons. now right.
Qed.

(** The target of an element holds what the element wrote when no later
    element writes anything else there. *)
Lemma writer_loop_lands (pre : list A) (x : A) (post : list A) S S1 q
  (data : list byte) :
  Forall accepted (pre ++ x :: post) ->
  for_each (pre ++ x :: post) body S = (Ok tt, S1) ->
  target x = Some (q, data) ->
  (forall y dt, y ∈ post -> target y = Some (q, dt) -> dt = data) ->
  S1 !! q = Some (File data).
Proof.
  intros Hacc H Ht Hsame.
  apply Forall_app in Hacc as [_ Hacc]. apply Forall_cons in Hacc as [Hx Hacc].
  rewrite for_each_app in H. unfold bind in H.
  destruct (for_each pre body S) as [[[]|e] S'] eqn:E; [| discriminate].
  apply for_each_cons_Ok in H as (S2 & Hb & H).
  apply (writer_loop_keeps post S2 S1 q data Hacc H); [| exact Hsame].
  pose proof (body_step _ _ _ Hx Hb) as Hs. rewrite Ht in Hs.
  destruct Hs as (S0 & _ & ->). apply lookup_insert_eq.
Qed.

End WriterLoop.

Section SimplePaths.

Local Open Scope list_scope.

Lemma split_not_nil (sep : ascii) (s : string) : Py.split sep s <> [].
Proof.
  destruct s as [|c s]; [discriminate|]. rewrite split_unfold.
  destruct (Ascii.eqb c sep); [discriminate|]. now destruct (Py.split sep s).
Qed.

Lemma concat_cons (sep x y : string) (l : list string) :
  String.concat sep (x :: y :: l) = (x +:+ sep +:+ String.concat sep (y :: l))%string.
Proof. reflexivity. Qed.

(** Joining the pieces of [s.split(sep)] with [sep] gives [s] back. *)
Lemma concat_split (sep : ascii) (s : string) :
  String.concat (String sep "") (Py.split sep s) = s.
Proof.
  induction s as [|c s IH]; [reflexivity|].
  rewrite split_unfold. destruct (Ascii.eqb_spec c sep) as [-> | Hne].
  - destruct (Py.split sep s) as [|w ws] eqn:E; [now apply split_not_nil in E|].
    rewrite concat_cons, IH. reflexivity.
  - destruct (Py.split sep s) as [|w ws] eqn:E; [now apply split_not_nil in E|].
    rewrite <- IH. destruct ws as [|w' ws]; [reflexivity|].
    rewrite !concat_cons. reflexivity.
Qed.

Lemma split_inj (sep : ascii) (a b : string) :
  Py.split sep a = Py.split sep b -> a = b.
Proof.
  intros H. rewrite <- (concat_split sep a), <- (concat_split sep b). now rewrite H.
Qed.

Lemma endswith_unfold (s p : string) :
  endswith s p
  = String.eqb s p || match s with
                      | String _ s' => endswith s' p
                      | EmptyString => false
                      end.
Proof. destruct s; reflexivity. Qed.

Lemma endswith_app (a b p : string) :
  endswith (a +:+ b)%string p = false -> endswith b p = false.
Proof.
  induction a as [|c a IH]; ssimpl; [auto|].
  intros H. apply orb_false_iff in H as [_ H]. apply IH. exact H.
Qed.

(** A text that does not end with a slash loses nothing to
    [rstrip("/")]. *)
Lemma rstrip_slash_fixed (s : string) :
  endswith s "/" = false -> Py.rstrip_by (Ascii.eqb "/") s = s.
Proof.
  induction s as [|c s IH]; [reflexivity|].
  rewrite endswith_unfold. intros H. apply orb_false_iff in H as [Hc H].
  cbn [Py.rstrip_by]. rewrite (IH H). destruct s as [|c' s]; [|reflexivity].
  destruct (Ascii.eqb_spec "/" c) as [<- | Hne]; [discriminate | reflexivity].
Qed.

Lemma simple_path_Forall (s : string) :
  simple_path s = true
  <-> Forall (fun x => x <> ""%string /\ x <> "."%string /\ x <> ".."%string)
        (Py.split "/" s).
Proof.
  unfold simple_path. rewrite forallb_forall, Forall_forall.
  split; intros H x Hx.
  - apply list_elem_of_In in Hx. specialize (H x Hx).
    apply andb_true_iff in H as [H H3]. apply andb_true_iff in H as [H1 H2].
    apply truthy_true in H1. apply negb_true_iff, String.eqb_neq in H2, H3. auto.
  - apply list_elem_of_In in Hx. destruct (H x Hx) as (H1 & H2 & H3).
    apply truthy_true in H1. apply String.eqb_neq in H2, H3.
    now rewrite H1, H2, H3.
Qed.

(** The names of a simple path, as [pathlib] keeps them, are the pieces
    between its slashes. *)
Lemma simple_path_parts (s : string) :
  simple_path s = true -> path_parts s = Py.split "/" s.
Proof.
  intros H. apply simple_path_Forall in H. unfold path_parts.
  apply forallb_filter_id, forallb_forall. intros x Hx.
  rewrite Forall_forall in H. destruct (H x) as (H1 & H2 & _).
  { now apply list_elem_of_In. }
  apply truthy_true in H1. apply String.eqb_neq in H2. now rewrite H1, H2.
Qed.

Lemma simple_path_plain (s : string) :
  simple_path s = true -> plain (Py.split "/" s).
Proof.
  intros H. apply simple_path_Forall in H. unfold plain.
  eapply Forall_impl; [exact H|]. simpl. tauto.
Qed.

Lemma simple_path_relative (s : string) :
  simple_path s = true -> Py.startswith s "/" = false /\ s <> ""%string.
Proof.
  intros H. apply simple_path_Forall in H. destruct s as [|c s].
  - simpl in H. apply Forall_cons in H as [[H _] _]. contradiction.
  - split; [|discriminate]. rewrite split_unfold in H.
    destruct (Ascii.eqb_spec c "/") as [-> | Hne].
    + apply Forall_cons in H as [[H _] _]. contradiction.
    + destruct (Py.startswith (String c s) "/") eqn:E; [|reflexivity].
      apply startswith_inv in E as [r E]. ssimpl in E. congruence.
Qed.

Lemma find_all_false {B} (f : B -> bool) (l : list B) :
  (forall x, x ∈ l -> f x = false) -> find f l = None.
Proof.
  induction l as [|x l IH]; intros H; [reflexivity|]. simpl.
  rewrite (H x) by (apply elem_of_cons; now left).
  apply IH. intros y Hy. apply H. apply elem_of_cons. now right.
Qed.

(** [zf.getinfo] of a name gives the last member of that name. *)
Lemma zf_getinfo_last_occurrence (pre post : list ZipInfo) (i : ZipInfo) :
  (forall j, j ∈ post -> filename j <> filename i) ->
  zf_getinfo (pre ++ i :: post) (filename i) = Some i.
Proof.
  intros H. unfold zf_getinfo. rewrite rev_app_distr. simpl.
  rewrite <- app_assoc, find_app.
  rewrite find_all_false.
  - simpl. now rewrite String.eqb_refl.
  - intros j Hj. apply String.eqb_neq, H.
    apply list_elem_of_In, in_rev. now apply list_elem_of_In.
Qed.

Lemma flatten_member_step (zf : list ZipInfo) (d : list string) (root : string)
  (j : ZipInfo) (S S' : gmap (list string) node) :
  plain d -> j ∈ zf /\ simple_under root j = true ->
  flatten_member zf d (root +:+ "/") j S = (Ok tt, S') ->
  match flatten_target zf d root j with
  | Some (t, data) => exists S0, dir_extends S S0 /\ S' = <[t := File data]> S0
  | None => dir_extends S S'
  end.
Proof.
  intros Hd [Hj Hs]. unfold flatten_member, flatten_target.
  unfold simple_under in Hs.
  destruct (Py.startswith (filename j) (root +:+ "/")) eqn:Es; simpl in *.
  2:{ intros [= <-]. apply dir_extends_refl. }
  destruct (ZipInfo_is_dir j) eqn:Ed; simpl in *.
  { destruct (negb (Py.truthy _)).
    - intros [= <-]. apply dir_extends_refl.
    - apply Path_mkdir_rev_dir_extends. }
  apply startswith_inv in Es as [rest Ef].
  destruct (zf_getinfo_member zf j Hj) as (i' & Hg & _).
  unfold zf_read. rewrite Hg. rewrite Ef in Hs |- *. rewrite drop_app in Hs |- *.
  assert (Hns : endswith rest "/" = false).
  { unfold ZipInfo_is_dir in Ed. rewrite Ef in Ed. eapply endswith_app; eauto. }
  rewrite (rstrip_slash_fixed _ Hns).
  destruct (simple_path_relative _ Hs) as [Hrel Hne].
  apply truthy_true in Hne. rewrite Hne. simpl.
  rewrite (path_join_relative _ _ Hrel), (simple_path_parts _ Hs).
  assert (Hpl : plain (d ++ Py.split "/" rest)).
  { apply plain_app. split; [exact Hd | now apply simple_path_plain]. }
  unfold bind.
  destruct (Path_mkdir _ S) as [[[]|e] S0] eqn:Em; [|discriminate].
  unfold ret. intros Hw.
  apply write_bytes_Ok in Hw as (pre & c & cur & Hp & R & Hc & L & ->).
  rewrite Hp in Hpl. apply plain_snoc in Hpl as [Hpre _].
  apply (resolve_dir_plain _ _ _ _ Hpre) in R. simpl in R. subst cur.
  exists S0. split; [eapply Path_mkdir_rev_dir_extends; exact Em|].
  now rewrite Hp.
Qed.

(** A directory member under the root is a directory once the loop is
    through. *)
Lemma flatten_loop_dirs (zf : list ZipInfo) (d : list string) (root rest : string)
  (xs : list ZipInfo) (i : ZipInfo) (S S1 : gmap (list string) node) :
  for_each xs (flatten_member zf d (root +:+ "/")) S = (Ok tt, S1) ->
  i ∈ xs -> filename i = (root +:+ "/" +:+ rest)%string -> ZipInfo_is_dir i = true ->
  Py.rstrip_by (Ascii.eqb "/") rest <> ""%string ->
  is_dir S1 (path_join d (Py.rstrip_by (Ascii.eqb "/") rest)) = true.
Proof.
  intros H Hi Hf Hdir Hrel. revert S H.
  induction xs as [|x xs IH]; intros S H; [now apply elem_of_nil in Hi|].
  apply for_each_cons_Ok in H as (S' & Hb & H).
  apply elem_of_cons in Hi as [<- | Hi]; [| now apply (IH Hi S')].
  pose proof (proj2 (flatten_member_under_root zf d root rest i S S' Hf) Hrel Hb) as K.
  rewrite Hdir in K. destruct K as [_ K]. apply is_dir_stat in K.
  eapply is_dir_le; [| exact K].
  refine (proj1 (replayable_for_each xs _ _ _ _ _ H)).
  intros y. apply replayable_flatten_member.
Qed.

End SimplePaths.

Section Landing.

Local Open Scope list_scope.

Lemma extract_zip_Ok (pf : Platform) (zip_bytes : list byte) (output_dir : string)
  (flatten_single_root : bool) (w w1 : World) :
  extract_zip pf zip_bytes output_dir flatten_single_root w = (Ok tt, w1) ->
  exists zf S',
    zip_open pf zip_bytes = Some zf
    /\ Path_mkdir (resolve pf output_dir) (disk w) = (Ok tt, S')
    /\ extract_members zf (resolve pf output_dir) flatten_single_root S'
       = (Ok tt, disk w1).
Proof.
  rewrite extract_zip_on_disk. unfold on_disk, bind.
  destruct (Path_mkdir (resolve pf output_dir) (disk w)) as [[[]|e] S'] eqn:E;
    [| discriminate].
  destruct (zip_open pf zip_bytes) as [zf|]; [| discriminate].
  destruct (extract_members zf _ _ S') as [r S1] eqn:Em.
  intros [= -> <-]. exists zf, S'. auto.
Qed.

Lemma member_arcname_plain (info : ZipInfo) : plain (member_arcname info).
Proof.
  unfold plain, member_arcname. apply Forall_forall. intros x Hx.
  apply list_elem_of_In, filter_In in Hx as [_ Hx].
  apply andb_true_iff in Hx as [_ Hx]. now apply negb_true_iff, String.eqb_neq in Hx.
Qed.

Lemma extract_member_step (d : list string) (j : ZipInfo)
  (S S' : gmap (list string) node) :
  plain d -> extract_member d j S = (Ok tt, S') ->
  match extractall_target d j with
  | Some (t, data) => exists S0, dir_extends S S0 /\ S' = <[t := File data]> S0
  | None => dir_extends S S'
  end.
Proof.
  intros Hd. rewrite extract_member_unfold.
  destruct (_ && _); [discriminate|]. unfold bind.
  destruct (ensure_upperdirs _ S) as [[[]|e] S0] eqn:Eu; [|discriminate].
  apply ensure_upperdirs_dir_extends in Eu.
  intros Hw. apply write_member_Ok in Hw. unfold extractall_target.
  destruct (ZipInfo_is_dir j).
  - destruct Hw as [Hw _]. eapply dir_extends_trans; eauto.
  - apply write_bytes_Ok in Hw as (pre & c & cur & Hp & R & Hc & L & ->).
    assert (Hpl : plain (d ++ member_arcname j)).
    { apply plain_app. split; [exact Hd | apply member_arcname_plain]. }
    rewrite Hp in Hpl. apply plain_snoc in Hpl as [Hpre _].
    apply (resolve_dir_plain _ _ _ _ Hpre) in R. simpl in R. subst cur.
    exists S0. split; [exact Eu|]. now rewrite Hp.
Qed.

Lemma extractall_loop_dirs (d : list string) (xs : list ZipInfo) (i : ZipInfo)
  (S S1 : gmap (list string) node) :
  for_each xs (extract_member d) S = (Ok tt, S1) ->
  i ∈ xs -> ZipInfo_is_dir i = true ->
  is_dir S1 (d ++ member_arcname i) = true.
Proof.
  intros H Hi Hdir. revert S H.
  induction xs as [|x xs IH]; intros S H; [now apply elem_of_nil in Hi|].
  apply for_each_cons_Ok in H as (S' & Hb & H).
  apply elem_of_cons in Hi as [<- | Hi]; [| now apply (IH Hi S')].
  rewrite extract_member_unfold in Hb. rewrite Hdir, andb_false_r in Hb.
  unfold bind in Hb.
  destruct (ensure_upperdirs _ S) as [[[]|e] S0]; [|discriminate].
  apply write_member_Ok in Hb. rewrite Hdir in Hb. destruct Hb as [_ K].
  eapply is_dir_le; [| exact K].
  refine (proj1 (replayable_for_each xs _ _ _ _ _ H)).
  intros y. apply replayable_extract_member.
Qed.

End Landing.

(** X10.  The archive has one root directory and every file member under it
    has a simple path after the root (plain names between single slashes);
    the output directory [d] has no [..].  When [extract_zip] returns, each
    file member [root/rest] that is the last of its name is the file
    [d/rest] with the data of the member; each directory member under the
    root is a directory under [d]; and a file of the disk was there before
    with the same data, or is [d/rest] for a file member [root/rest]: the
    root directory itself is not made, and no file is written elsewhere. *)
Theorem flattened_members_land (pf : Platform) (zip_bytes : list byte)
  (output_dir : string) (w w1 : World) (zf : list ZipInfo) (root : string) :
  let d := resolve pf output_dir in
  plain d ->
  zip_open pf zip_bytes = Some zf ->
  _single_root_dir (namelist zf) = Some root ->
  forallb (simple_under root) zf = true ->
  extract_zip pf zip_bytes output_dir true w = (Ok tt, w1) ->
  (forall pre i post rest,
     zf = (pre ++ i :: post)%list ->
     filename i = root ++ "/" ++ rest ->
     ZipInfo_is_dir i = false ->
     (forall j, j ∈ post -> filename j <> filename i) ->
     disk w1 !! (d ++ Py.split "/" rest)%list = Some (File (payload i)))
  /\ (forall i rest,
        i ∈ zf ->
        filename i = root ++ "/" ++ rest ->
        ZipInfo_is_dir i = true ->
        Py.rstrip_by (Ascii.eqb "/") rest <> "" ->
        is_dir (disk w1) (path_join d (Py.rstrip_by (Ascii.eqb "/") rest)) = true)
  /\ (forall q data,
        disk w1 !! q = Some (File data) ->
        disk w !! q = Some (File data)
        \/ exists i rest,
             i ∈ zf /\ filename i = root ++ "/" ++ rest
             /\ ZipInfo_is_dir i = false /\ q = (d ++ Py.split "/" rest)%list).
Proof.
  intros d Hd Hz Hroot Hsimple Hrun.
  apply extract_zip_Ok in Hrun as (zf' & S' & Hz' & Hmk & Hrun).
  rewrite Hz in Hz'. injection Hz' as <-. fold d in Hmk, Hrun.
  unfold extract_members in Hrun. rewrite Hroot in Hrun.
  rewrite (detected_root_truthy _ _ Hroot) in Hrun.
  assert (Hacc : Forall (fun j => j ∈ zf /\ simple_under root j = true) zf).
  { apply Forall_forall. intros j Hj. split; [exact Hj|].
    rewrite forallb_forall in Hsimple. apply Hsimple. now apply list_elem_of_In. }
  pose proof (fun x S S' => flatten_member_step zf d root x S S' Hd) as Hstep.
  split; [| split].
  - intros pre i post rest -> Hf Hfile Hlast.
    assert (Hs : Py.startswith (filename i) (root ++ "/") = true).
    { rewrite Hf, <- string_app_assoc. apply startswith_app. }
    apply (writer_loop_lands _ _ _ Hstep pre i post S' (disk w1) _ _ Hacc Hrun).
    + unfold flatten_target. rewrite Hs, Hfile. simpl.
      rewrite (zf_getinfo_last_occurrence pre post i Hlast).
      rewrite Hf, <- string_app_assoc, drop_app. reflexivity.
    + intros y dt Hy. unfold flatten_target.
      destruct (Py.startswith (filename y) (root ++ "/")) eqn:Ey; [|discriminate].
      destruct (negb (ZipInfo_is_dir y)); [|discriminate]. simpl.
      destruct (zf_getinfo _ (filename y)) as [i'|]; [|discriminate].
      intros [= Ht _]. exfalso. apply (Hlast y Hy).
      apply startswith_inv in Ey as [rest' Ey].
      rewrite Ey, drop_app in Ht. apply app_inv_head, split_inj in Ht.
      rewrite Ey, Hf, Ht. apply string_app_assoc.
  - intros i rest Hi Hf Hdir Hrel.
    exact (flatten_loop_dirs zf d root rest zf i S' (disk w1) Hrun Hi Hf Hdir Hrel).
  - intros q data Hq.
    destruct (writer_loop_frame _ _ _ Hstep zf S' (disk w1) q data Hacc Hrun Hq)
      as [Hq' | (x & Hx & Ht)].
    + left. apply Path_mkdir_spec in Hmk as [Hext _].
      eapply dir_extends_file_inv; eauto.
    + right. unfold flatten_target in Ht.
      destruct (Py.startswith (filename x) (root ++ "/")) eqn:Ex; [|discriminate].
      destruct (ZipInfo_is_dir x) eqn:Edx; [discriminate|]. simpl in Ht.
      destruct (zf_getinfo _ (filename x)) as [i'|]; [|discriminate].
      injection Ht as <- _.
      apply startswith_inv in Ex as [rest Ex].
      exists x, rest. rewrite Ex, drop_app.
      repeat split; auto. apply string_app_assoc.
Qed.

Lemma flattened_members_land_witness :
  let zf := [ {| filename := "proj/main.tex"; payload := [x58] |};
              {| filename := "proj/sub/"; payload := [] |};
              {| filename := "proj/sub/fig.txt"; payload := [x59] |};
              {| filename := "proj/main.tex"; payload := [x5a] |} ] in
  let w1 := snd (extract_zip (archive_platform zf) [] "out" true empty_world) in
  disk w1 !! ["out"; "sub"; "fig.txt"] = Some (File [x59])
  /\ disk w1 !! ["out"; "main.tex"] = Some (File [x5a]).
Proof.
  intros zf w1.
  assert (Hplain : plain (resolve (archive_platform zf) "out")).
  { repeat constructor. discriminate. }
  assert (Hrun : extract_zip (archive_platform zf) [] "out" true empty_world = (Ok tt, w1)).
  { vm_compute. reflexivity. }
  assert (Hroot : _single_root_dir (namelist zf) = Some "proj").
  { vm_compute. reflexivity. }
  pose proof (flattened_members_land (archive_platform zf) [] "out" empty_world w1 zf
                "proj" Hplain eq_refl Hroot eq_refl Hrun) as (Hfiles & _ & _).
  split.
  - apply (Hfiles [ {| filename := "proj/main.tex"; payload := [x58] |};
                    {| filename := "proj/sub/"; payload := [] |} ]
                  {| filename := "proj/sub/fig.txt"; payload := [x59] |}
                  [ {| filename := "proj/main.tex"; payload := [x5a] |} ]
                  "sub/fig.txt" eq_refl eq_refl eq_refl).
    intros j Hj. apply elem_of_cons in Hj as [-> | Hj];
      [discriminate | now apply elem_of_nil in Hj].
  - apply (Hfiles [ {| filename := "proj/main.tex"; payload := [x58] |};
                    {| filename := "proj/sub/"; payload := [] |};
                    {| filename := "proj/sub/fig.txt"; payload := [x59] |} ]
                  {| filename := "proj/main.tex"; payload := [x5a] |}
                  [] "main.tex" eq_refl eq_refl eq_refl).
    intros j Hj. now apply elem_of_nil in Hj.
Defined.

(** X11.  No root directory is detected, or flattening is off; the output
    directory [d] has no [..].  When [extract_zip] returns, each file member
    is the file at [d] followed by the names of its path, without the empty
    ones, [.] and [..], and holds the data of the member unless a later file
    member has the same names; each directory member is a directory there;
    and a file of the disk was there before with the same data, or is such
    a path of a file member with its data: no file is written outside
    [d]. *)
Theorem verbatim_members_land (pf : Platform) (zip_bytes : list byte)
  (output_dir : string) (flatten_single_root : bool) (w w1 : World)
  (zf : list ZipInfo) :
  let d := resolve pf output_dir in
  plain d ->
  zip_open pf zip_bytes = Some zf ->
  (if flatten_single_root then _single_root_dir (namelist zf) else None) = None ->
  extract_zip pf zip_bytes output_dir flatten_single_root w = (Ok tt, w1) ->
  (forall pre i post,
     zf = (pre ++ i :: post)%list ->
     ZipInfo_is_dir i = false ->
     (forall j, j ∈ post -> ZipInfo_is_dir j = false ->
        member_arcname j <> member_arcname i) ->
     disk w1 !! (d ++ member_arcname i)%list = Some (File (payload i)))
  /\ (forall i, i ∈ zf -> ZipInfo_is_dir i = true ->
        is_dir (disk w1) (d ++ member_arcname i)%list = true)
  /\ (forall q data,
        disk w1 !! q = Some (File data) ->
        disk w !! q = Some (File data)
        \/ exists i,
             i ∈ zf /\ ZipInfo_is_dir i = false
             /\ q = (d ++ member_arcname i)%list /\ data = payload i).
Proof.
  intros d Hd Hz Hroot Hrun.
  apply extract_zip_Ok in Hrun as (zf' & S' & Hz' & Hmk & Hrun).
  rewrite Hz in Hz'. injection Hz' as <-. fold d in Hmk, Hrun.
  unfold extract_members in Hrun. rewrite Hroot in Hrun. unfold extractall in Hrun.
  assert (Hacc : Forall (fun _ : ZipInfo => True) zf) by now apply Forall_forall.
  pose proof (fun x S S' (_ : True) => extract_member_step d x S S' Hd) as Hstep.
  split; [| split].
  - intros pre i post -> Hfile Hlast.
    apply (writer_loop_lands _ _ _ Hstep pre i post S' (disk w1) _ _ Hacc Hrun).
    + unfold extractall_target. now rewrite Hfile.
    + intros y dt Hy. unfold extractall_target.
      destruct (ZipInfo_is_dir y) eqn:Edy; [discriminate|].
      intros [= Ht _]. exfalso. apply (Hlast y Hy Edy).
      now apply app_inv_head in Ht.
  - intros i Hi Hdir.
    exact (extractall_loop_dirs d zf i S' (disk w1) Hrun Hi Hdir).
  - intros q data Hq.
    destruct (writer_loop_frame _ _ _ Hstep zf S' (disk w1) q data Hacc Hrun Hq)
      as [Hq' | (x & Hx & Ht)].
    + left. apply Path_mkdir_spec in Hmk as [Hext _].
      eapply dir_extends_file_inv; eauto.
    + right. unfold extractall_target in Ht.
      destruct (ZipInfo_is_dir x) eqn:Edx; [discriminate|].
      injection Ht as <- <-. exists x. auto.
Qed.

Lemma verbatim_members_land_witness :
  let zf := [ {| filename := "a.tex"; payload := [x58] |};
              {| filename := "fig/"; payload := [] |};
              {| filename := "../fig/./b.png"; payload := [x59] |} ] in
  let w1 := snd (extract_zip (archive_platform zf) [] "out" true empty_world) in
  disk w1 !! ["out"; "fig"; "b.png"] = Some (File [x59]).
Proof.
  intros zf w1.
  assert (Hplain : plain (resolve (archive_platform zf) "out")).
  { repeat constructor. discriminate. }
  assert (Hrun : extract_zip (archive_platform zf) [] "out" true empty_world = (Ok tt, w1)).
  { vm_compute. reflexivity. }
  assert (Hroot : (if true then _single_root_dir (namelist zf) else None) = None).
  { vm_compute. reflexivity. }
  pose proof (verbatim_members_land (archive_platform zf) [] "out" true empty_world w1 zf
                Hplain eq_refl Hroot Hrun) as (Hfiles & _ & _).
  apply (Hfiles [ {| filename := "a.tex"; payload := [x58] |};
                  {| filename := "fig/"; payload := [] |} ]
                {| filename := "../fig/./b.png"; payload := [x59] |}
                [] eq_refl eq_refl).
  intros j Hj. now apply elem_of_nil in Hj.
Defined.

(** ** Members that leave the output directory *)

Section Escapes.

Local Open Scope list_scope.

Lemma rstrip_by_cons_nonempty (p : ascii -> bool) (c : ascii) (s : string) :
  Py.rstrip_by p (String c s) <> ""%string ->
  exists t, Py.rstrip_by p (String c s) = String c t.
Proof.
  cbn [Py.rstrip_by]. destruct (Py.rstrip_by p s); [|eauto].
  destruct (p c); [contradiction | eauto].
Qed.

Lemma split_without_sep (sep : ascii) (s : string) :
  ~ In sep (list_ascii_of_string s) -> Py.split sep s = [s].
Proof.
  induction s as [|c s IH]; [reflexivity|]. simpl list_ascii_of_string.
  intros H. rewrite split_unfold.
  destruct (Ascii.eqb_spec c sep) as [-> | Hne]; [exfalso; apply H; now left|].
  rewrite IH; [reflexivity|]. intros Hin. apply H. now right.
Qed.

Lemma endswith_inv (s p : string) :
  endswith s p = true -> exists a, s = (a +:+ p)%string.
Proof.
  induction s as [|c s IH]; rewrite endswith_unfold; intros H;
    apply orb_true_iff in H as [H | H]; try discriminate.
  - apply String.eqb_eq in H as <-. now exists ""%string.
  - apply String.eqb_eq in H as <-. now exists ""%string.
  - destruct (IH H) as [a ->]. now exists (String c a).
Qed.

(** Whether a text ends with [p] is decided by an end of it that is as
    long as [p] or longer. *)
Lemma endswith_app_r (a b p : string) :
  String.length p <= String.length b ->
  endswith (a +:+ b)%string p = endswith b p.
Proof.
  intros Hl. induction a as [|x a IH]; [reflexivity|].
  rewrite string_app_cons, endswith_unfold, IH.
  destruct (String.eqb_spec (String x (a +:+ b)%string) p) as [E | _]; [|reflexivity].
  exfalso. apply (f_equal String.length) in E. simpl in E.
  rewrite string_app_length in E. lia.
Qed.

Lemma endswith_without_sep (sep : ascii) (s : string) :
  ~ In sep (list_ascii_of_string s) -> endswith s (String sep "") = false.
Proof.
  intros Hns. destruct (endswith s (String sep "")) eqn:E; [|reflexivity].
  exfalso. apply endswith_inv in E as [a ->]. apply Hns.
  rewrite list_ascii_app. apply in_or_app. right. now left.
Qed.

End Escapes.

(** X12.  A member whose name has a second slash right after the root
    directory, [root//rest], is extracted by the flattening loop without
    regard to the output directory: what the loop does with it is the same
    for every output directory, since the path joined to the output
    directory is absolute. *)
Theorem flatten_member_ignores_destination (zf : list ZipInfo) (d d' : list string)
  (root rest : string) (info : ZipInfo) :
  filename info = root ++ "/" ++ "/" ++ rest ->
  flatten_member zf d (root ++ "/") info = flatten_member zf d' (root ++ "/") info.
Proof.
  intros Hf. unfold flatten_member.
  assert (Hf' : filename info = (root ++ "/") ++ String "/" rest).
  { rewrite Hf. now rewrite string_app_assoc. }
  rewrite Hf', startswith_app, drop_app. cbn [negb].
  remember (Py.rstrip_by (Ascii.eqb "/") (String "/" rest)) as rel eqn:Erel.
  destruct (Py.truthy rel) eqn:Et; cbn [negb]; [| reflexivity].
  assert (Hs : Py.startswith rel "/" = true).
  { apply truthy_true in Et. rewrite Erel in Et.
    apply rstrip_by_cons_nonempty in Et as [t Et]. rewrite Erel, Et.
    apply (startswith_app "/" t). }
  unfold path_join. now rewrite Hs.
Qed.

Lemma flatten_member_ignores_destination_witness :
  flatten_member [ {| filename := "proj//a.tex"; payload := [x58] |} ] ["out"] "proj/"
    {| filename := "proj//a.tex"; payload := [x58] |}
  = flatten_member [ {| filename := "proj//a.tex"; payload := [x58] |} ] [] "proj/"
      {| filename := "proj//a.tex"; payload := [x58] |}.
Proof.
  apply (flatten_member_ignores_destination _ ["out"] [] "proj" "a.tex"). reflexivity.
Defined.

(** X13.  The flattening loop keeps [..] in the path of a member: a file
    member [root/../name] is written beside the output directory, as the
    file [name] of the directory that holds the output directory. *)
Theorem flatten_member_parent_escape (zf : list ZipInfo) (d0 : list string)
  (c0 root name : string) (info i : ZipInfo) (S : gmap (list string) node) :
  plain (d0 ++ [c0])%list ->
  is_dir S (d0 ++ [c0])%list = true ->
  filename info = root ++ "/../" ++ name ->
  name <> "" -> name <> "." -> name <> ".." ->
  ~ In "/"%char (list_ascii_of_string name) ->
  zf_getinfo zf (filename info) = Some i ->
  S !! (d0 ++ [name])%list <> Some Dir ->
  flatten_member zf (d0 ++ [c0])%list (root ++ "/") info S
  = (Ok tt, <[(d0 ++ [name])%list := File (payload i)]> S).
Proof.
  intros Hpl Hd Hf Hn1 Hn2 Hn3 Hns Hg Hfree.
  assert (Hf' : filename info = (root ++ "/") ++ ("../" ++ name)).
  { rewrite Hf. now rewrite string_app_assoc. }
  assert (Hsplit : Py.split "/" ("../" ++ name) = [".."; name]).
  { change ("../" ++ name) with (".." ++ String "/" name).
    rewrite split_app_sep.
    - now rewrite split_without_sep.
    - simpl. intros [H | [H | []]]; discriminate. }
  assert (Hlen : 1 <= String.length name).
  { destruct name; [contradiction | simpl; lia]. }
  assert (Hend : endswith ("../" ++ name) "/" = false).
  { rewrite (endswith_app_r "../" name "/" Hlen).
    now apply endswith_without_sep. }
  unfold flatten_member, zf_read. rewrite Hg.
  rewrite Hf', startswith_app, drop_app. cbn [negb].
  rewrite (rstrip_slash_fixed _ Hend).
  assert (Ht : Py.truthy ("../" ++ name) = true) by (apply truthy_true; discriminate).
  rewrite Ht. cbn [negb].
  assert (Hdirflag : ZipInfo_is_dir info = false).
  { unfold ZipInfo_is_dir. rewrite Hf', endswith_app_r; [exact Hend|].
    rewrite string_app_length. simpl. lia. }
  rewrite Hdirflag.
  assert (Hrel : Py.startswith ("../" ++ name) "/" = false) by reflexivity.
  rewrite (path_join_relative _ _ Hrel).
  assert (Hparts : path_parts ("../" ++ name) = [".."; name]).
  { unfold path_parts. rewrite Hsplit. simpl.
    apply truthy_true in Hn1. apply String.eqb_neq in Hn2.
    now rewrite Hn1, Hn2. }
  rewrite Hparts.
  replace ((d0 ++ [c0]) ++ [".."; name])%list
    with (((d0 ++ [c0]) ++ [".."]) ++ [name])%list
    by now rewrite <- !app_assoc.
  rewrite parent_snoc.
  assert (Hres : resolve_dir S [] (d0 ++ [c0])%list = Ok (d0 ++ [c0])%list)
    by now apply is_dir_plain_resolve.
  assert (Hup : resolve_dir S [] ((d0 ++ [c0]) ++ [".."])%list = Ok d0).
  { rewrite resolve_dir_app, Hres. simpl. unfold parent.
    now rewrite removelast_last. }
  assert (Hupdir : is_dir S ((d0 ++ [c0]) ++ [".."])%list = true).
  { apply is_dir_resolve. eauto. }
  unfold bind. rewrite (Path_mkdir_of_is_dir _ _ Hupdir).
  unfold ret.
  apply (write_bytes_at _ _ _ _ _ _ eq_refl Hup); [|exact Hfree].
  exact Hn3.
Qed.

Lemma flatten_member_parent_escape_witness :
  flatten_member [ {| filename := "proj/../evil"; payload := [x58] |} ] ["home"; "out"]
    "proj/" {| filename := "proj/../evil"; payload := [x58] |}
    (<[ ["home"; "out"] := Dir ]> (<[ ["home"] := Dir ]> ∅))
  = (Ok tt,
     <[ ["home"; "evil"] := File [x58] ]>
       (<[ ["home"; "out"] := Dir ]> (<[ ["home"] := Dir ]> ∅))).
Proof.
  apply (flatten_member_parent_escape
           [ {| filename := "proj/../evil"; payload := [x58] |} ]
           ["home"] "out" "proj" "evil"
           {| filename := "proj/../evil"; payload := [x58] |}
           {| filename := "proj/../evil"; payload := [x58] |}).
  - repeat constructor; discriminate.
  - vm_compute. reflexivity.
  - reflexivity.
  - discriminate.
  - discriminate.
  - discriminate.
  - simpl. intros [H | [H | [H | [H | []]]]]; discriminate.
  - reflexivity.
  - vm_compute. discriminate.
Defined.

(** ** The entry point *)

Section EntryPoint.

Local Open Scope list_scope.

Lemma session_setup_run (pf : Platform) (args : Args) (w : World) :
  session_setup pf args w
  = (Ok tt, {| session_headers := cookie_headers pf args;
               disk := disk w;
               trace := trace w ++ [EvSetHeader "Cookie" (_cookie_header (arg_cookie args))] |}).
Proof. reflexivity. Qed.

Lemma attach_token_headers (pf : Platform) (args : Args) (csrf : option string)
  (w : World) :
  session_headers w = cookie_headers pf args ->
  session_headers (snd (attach_token csrf w)) = token_headers pf args csrf
  /\ disk (snd (attach_token csrf w)) = disk w.
Proof.
  intros H. unfold attach_token, token_headers.
  destruct csrf as [t|]; [destruct (Py.truthy t)|]; simpl; rewrite ?H; auto.
Qed.

(** The run of [main], stage by stage. *)
Lemma main_run (pf : Platform) (args : Args) (w : World) :
  main pf args w
  = let base_url := _normalize_base_url (arg_base_url args) in
    match get_csrf_token pf base_url (arg_project_id args)
            (snd (session_setup pf args w)) with
    | (Raise e, w2) => (Raise e, w2)
    | (Ok csrf, w2) =>
        match download_zip pf base_url (arg_project_id args)
                (snd (attach_token csrf w2)) with
        | (Raise e, w4) => (Raise e, w4)
        | (Ok zip_bytes, w4) =>
            match extract_zip pf zip_bytes (arg_output_dir args) true w4 with
            | (Raise e, w5) => (Raise e, w5)
            | (Ok _, w5) =>
                print ("Extracted to " +:+ path_str (resolve pf (arg_output_dir args))) w5
            end
        end
    end.
Proof.
  rewrite main_unfold. cbv zeta. unfold bind at 1. rewrite session_setup_run.
  cbn [snd]. unfold bind at 1.
  destruct (get_csrf_token _ _ _ _) as [[csrf|e] w2]; [|reflexivity].
  unfold bind at 1. pose proof (attach_token_ok csrf w2) as Ha.
  destruct (attach_token csrf w2) as [[[]|e] w3]; [|discriminate]. cbn [snd].
  unfold bind at 1.
  destruct (download_zip _ _ _ w3) as [[zb|e] w4]; [|reflexivity].
  unfold bind at 1. reflexivity.
Qed.

Lemma extract_zip_fs_le (pf : Platform) (zip_bytes : list byte) (output_dir : string)
  (flatten_single_root : bool) (w : World) :
  fs_le (disk w) (disk (snd (extract_zip pf zip_bytes output_dir flatten_single_root w))).
Proof.
  rewrite extract_zip_on_disk, on_disk_disk.
  destruct (bind _ _ (disk w)) as [r S1] eqn:E.
  exact (proj1 (replayable_extract_zip pf zip_bytes output_dir flatten_single_root
                  _ _ _ E)).
Qed.

Lemma extract_zip_Ok_is_dir (pf : Platform) (zip_bytes : list byte) (output_dir : string)
  (flatten_single_root : bool) (w w1 : World) :
  extract_zip pf zip_bytes output_dir flatten_single_root w = (Ok tt, w1) ->
  is_dir (disk w1) (resolve pf output_dir) = true.
Proof.
  intros H. apply extract_zip_Ok in H as (zf & S' & _ & Hmk & Hrun).
  apply Path_mkdir_spec in Hmk as [_ Hd].
  eapply is_dir_le; [| exact Hd].
  exact (proj1 (replayable_extract_members zf _ _ _ _ _ Hrun)).
Qed.

(** The effects of a run of [main], in order. *)
Lemma main_trace_full (pf : Platform) (args : Args) (w : World) :
  let base_url := _normalize_base_url (arg_base_url args) in
  let o1 := get_csrf_token pf base_url (arg_project_id args)
              (snd (session_setup pf args w)) in
  trace (snd (main pf args w))
  = trace w
    ++ [EvSetHeader "Cookie" (_cookie_header (arg_cookie args));
        EvGet (base_url +:+ "/project/" +:+ arg_project_id args) (cookie_headers pf args)]
    ++ match fst o1 with
       | Raise _ => []
       | Ok csrf =>
           token_attachment (Ok csrf)
           ++ [EvGet (base_url +:+ "/project/" +:+ arg_project_id args +:+ "/download/zip")
                 (token_headers pf args csrf)]
           ++ match fst (main pf args w) with
              | Ok _ => [EvPrint ("Extracted to "
                                  +:+ path_str (resolve pf (arg_output_dir args)))]
              | Raise _ => []
              end
       end.
Proof.
  intros base_url o1. unfold o1. rewrite main_run. cbv zeta. fold base_url.
  rewrite session_setup_run. cbn [snd].
  set (w1 := {| session_headers := cookie_headers pf args; disk := disk w;
                trace := trace w ++ [_] |}).
  pose proof (get_csrf_token_frame pf base_url (arg_project_id args) w1) as (Hh2 & _ & Ht2).
  destruct (get_csrf_token pf base_url (arg_project_id args) w1) as [[csrf|e] w2];
    cbn [fst snd] in *.
  2:{ rewrite Ht2. unfold w1. cbn [trace session_headers]. now rewrite <- app_assoc. }
  pose proof (attach_token_headers pf args csrf w2 Hh2) as [Hh3 _].
  pose proof (attach_token_trace csrf w2) as Ht3.
  set (w3 := snd (attach_token csrf w2)) in *.
  pose proof (download_zip_frame pf base_url (arg_project_id args) w3) as (_ & _ & Ht4).
  assert (Hpre : trace w3 ++ [EvGet (base_url +:+ "/project/" +:+ arg_project_id args
                                     +:+ "/download/zip") (session_headers w3)]
                 = trace w
                   ++ [EvSetHeader "Cookie" (_cookie_header (arg_cookie args));
                       EvGet (base_url +:+ "/project/" +:+ arg_project_id args)
                         (cookie_headers pf args)]
                   ++ token_attachment (Ok csrf)
                   ++ [EvGet (base_url +:+ "/project/" +:+ arg_project_id args
                              +:+ "/download/zip") (token_headers pf args csrf)]).
  { rewrite Ht3, Ht2, Hh3. unfold w1. cbn [trace session_headers].
    now rewrite <- !app_assoc. }
  destruct (download_zip pf base_url (arg_project_id args) w3) as [[zb|e] w4];
    cbn [fst snd] in *.
  2:{ rewrite Ht4, Hpre. now rewrite app_nil_r. }
  pose proof (extract_zip_frame pf zb (arg_output_dir args) true w4) as [_ Ht5].
  destruct (extract_zip pf zb (arg_output_dir args) true w4) as [[[]|e] w5];
    cbn [fst snd] in *.
  - unfold print. cbn [fst snd trace]. rewrite Ht5, Ht4, Hpre.
    now rewrite <- !app_assoc.
  - rewrite Ht5, Ht4, Hpre. now rewrite app_nil_r.
Qed.

Lemma requests_app (a b : list event) : requests (a ++ b) = requests a ++ requests b.
Proof. unfold requests. apply omap_app. Qed.

Lemma printed_app (a b : list event) : printed (a ++ b) = printed a ++ printed b.
Proof. unfold printed. apply omap_app. Qed.

Lemma token_attachment_quiet (res : result (option string)) :
  requests (token_attachment res) = [] /\ printed (token_attachment res) = [].
Proof.
  destruct res as [[t|]|e]; simpl; try (split; reflexivity).
  destruct (Py.truthy t); split; reflexivity.
Qed.

End EntryPoint.

(** X14.  [main] uses its base URL only without its trailing slashes and
    its cookie only without the white space around it: a run on the
    arguments as given is the run on the normalized base URL and the
    trimmed cookie. *)
Theorem main_normalized_inputs (pf : Platform) (args : Args) (w : World) :
  main pf args w
  = main pf {| arg_project_id := arg_project_id args;
               arg_cookie := Py.strip (arg_cookie args);
               arg_base_url := _normalize_base_url (arg_base_url args);
               arg_output_dir := arg_output_dir args |} w.
Proof.
  rewrite !main_unfold. unfold session_setup. cbn [arg_project_id arg_cookie
    arg_base_url arg_output_dir].
  rewrite cookie_header_strip.
  assert (E : _normalize_base_url (_normalize_base_url (arg_base_url args))
              = _normalize_base_url (arg_base_url args))
    by apply rstrip_by_idem.
  rewrite !E. reflexivity.
Qed.

(** X15.  [main] sends one request, for the project page, with the session's
    default headers and the cookie header; when the token fetch returns it
    sends a second and last one, for the archive, with the same headers and,
    if a token that is not empty was found, the token header.  Both URLs are
    built on the base URL without its trailing slashes. *)
Theorem main_requests (pf : Platform) (args : Args) (w : World) :
  let base_url := _normalize_base_url (arg_base_url args) in
  let o1 := get_csrf_token pf base_url (arg_project_id args)
              (snd (session_setup pf args w)) in
  requests (trace (snd (main pf args w)))
  = (requests (trace w)
     ++ (base_url +:+ "/project/" +:+ arg_project_id args, cookie_headers pf args)
        :: match fst o1 with
           | Ok csrf =>
               [(base_url +:+ "/project/" +:+ arg_project_id args +:+ "/download/zip",
                 token_headers pf args csrf)]
           | Raise _ => []
           end)%list
  /\ (forall csrf,
        cidict_get (cookie_headers pf args) "Cookie" "" = _cookie_header (arg_cookie args)
        /\ cidict_get (token_headers pf args csrf) "Cookie" ""
           = _cookie_header (arg_cookie args))
  /\ (forall token, token <> "" ->
        cidict_get (token_headers pf args (Some token)) "X-CSRF-Token" "" = token)
  /\ token_headers pf args None = cookie_headers pf args
  /\ token_headers pf args (Some "") = cookie_headers pf args.
Proof.
  intros base_url o1. split; [| split; [| split; [| split; reflexivity]]].
  - pose proof (main_trace_full pf args w) as H. cbv zeta in H.
    fold base_url in H. fold o1 in H. rewrite H.
    destruct (fst o1) as [csrf|e].
    + rewrite !requests_app, (proj1 (token_attachment_quiet (Ok csrf))).
      destruct (fst (main pf args w)); reflexivity.
    + rewrite !requests_app. reflexivity.
  - intros csrf. unfold cidict_get, token_headers, cookie_headers.
    change (Py.lower "Cookie") with "cookie".
    split; [now rewrite lookup_insert_eq |].
    destruct csrf as [t|]; [destruct (Py.truthy t) |];
      rewrite ?lookup_insert_ne by discriminate; now rewrite lookup_insert_eq.
  - intros token Ht. unfold cidict_get, token_headers.
    apply truthy_true in Ht. rewrite Ht.
    change (Py.lower "X-CSRF-Token") with "x-csrf-token".
    now rewrite lookup_insert_eq.
Qed.

(** X16.  [main] prints its one line, the path of the output directory
    after ["Extracted to "], exactly when it returns, and as its last
    effect; the output directory is then a directory.  A run that raises
    prints nothing. *)
Theorem main_prints_when_done (pf : Platform) (args : Args) (w : World) :
  let out := main pf args w in
  let line := "Extracted to " ++ path_str (resolve pf (arg_output_dir args)) in
  printed (trace (snd out))
  = (printed (trace w) ++ match fst out with
                          | Ok _ => [line]
                          | Raise _ => []
                          end)%list
  /\ (fst out = Ok tt ->
      last (trace (snd out)) = Some (EvPrint line)
      /\ is_dir (disk (snd out)) (resolve pf (arg_output_dir args)) = true).
Proof.
  intros out line. split.
  - unfold out. rewrite (main_trace_full pf args w). cbv zeta.
    destruct (fst (get_csrf_token _ _ _ _)) as [csrf|e] eqn:E1.
    + rewrite !printed_app, (proj2 (token_attachment_quiet (Ok csrf))).
      destruct (fst (main pf args w)) as [[]|e]; reflexivity.
    + rewrite (main_propagates_token_error pf args w e E1).
      rewrite !printed_app. cbn. now rewrite app_nil_r.
  - unfold out. rewrite main_run. cbv zeta.
    destruct (get_csrf_token _ _ _ _) as [[csrf|e] w2]; [| discriminate].
    destruct (download_zip _ _ _ _) as [[zb|e] w4]; [| discriminate].
    destruct (extract_zip pf zb (arg_output_dir args) true w4) as [[[]|e] w5] eqn:Ex;
      [| discriminate].
    intros _. unfold print. cbn [fst snd trace disk]. split.
    + apply last_snoc.
    + eapply extract_zip_Ok_is_dir; eauto.
Qed.

(** X17.  [main] touches the disk only after both fetches have returned:
    when the token fetch raises, or the archive fetch raises, the disk is
    as it was.  In every case nothing is removed from the disk: a
    directory is still one after the run, and a file is still a file. *)
Theorem main_disk (pf : Platform) (args : Args) (w : World) :
  let base_url := _normalize_base_url (arg_base_url args) in
  let o1 := get_csrf_token pf base_url (arg_project_id args)
              (snd (session_setup pf args w)) in
  let out := main pf args w in
  (forall e, fst o1 = Raise e -> disk (snd out) = disk w)
  /\ (forall csrf e,
        fst o1 = Ok csrf ->
        fst (download_zip pf base_url (arg_project_id args)
               (snd (attach_token csrf (snd o1)))) = Raise e ->
        disk (snd out) = disk w)
  /\ (forall p, disk w !! p = Some Dir -> disk (snd out) !! p = Some Dir)
  /\ (forall p data, disk w !! p = Some (File data) ->
        exists data', disk (snd out) !! p = Some (File data')).
Proof.
  intros base_url o1 out.
  assert (Hrun : (forall e, fst o1 = Raise e -> disk (snd out) = disk w)
                 /\ (forall csrf e,
                       fst o1 = Ok csrf ->
                       fst (download_zip pf base_url (arg_project_id args)
                              (snd (attach_token csrf (snd o1)))) = Raise e ->
                       disk (snd out) = disk w)
                 /\ fs_le (disk w) (disk (snd out))).
  { unfold out, o1. rewrite main_run. cbv zeta. fold base_url.
    rewrite session_setup_run. cbn [snd].
    set (w1 := {| session_headers := cookie_headers pf args; disk := disk w;
                  trace := _ |}).
    pose proof (get_csrf_token_frame pf base_url (arg_project_id args) w1)
      as (Hh2 & Hd2 & _).
    destruct (get_csrf_token pf base_url (arg_project_id args) w1) as [[csrf|e] w2];
      cbn [fst snd] in *.
    2:{ split; [intros _ _; exact Hd2 |]. split; [discriminate |].
        rewrite Hd2. apply fs_le_refl. }
    split; [discriminate |].
    pose proof (attach_token_headers pf args csrf w2 Hh2) as [_ Hd3].
    set (w3 := snd (attach_token csrf w2)) in *.
    pose proof (download_zip_frame pf base_url (arg_project_id args) w3) as (_ & Hd4 & _).
    destruct (download_zip pf base_url (arg_project_id args) w3) as [[zb|e] w4] eqn:Ed;
      cbn [fst snd] in *.
    2:{ split.
        - intros c e' [= <-] _. now rewrite Hd4, Hd3, Hd2.
        - rewrite Hd4, Hd3, Hd2. apply fs_le_refl. }
    split.
    { intros c e' [= <-] He. fold w3 in He. rewrite Ed in He. discriminate. }
    pose proof (extract_zip_fs_le pf zb (arg_output_dir args) true w4) as Hle.
    rewrite Hd4, Hd3, Hd2 in Hle.
    destruct (extract_zip pf zb (arg_output_dir args) true w4) as [[[]|e] w5];
      cbn [fst snd] in *; exact Hle. }
  destruct Hrun as (H1 & H2 & Hle).
  split; [exact H1 |]. split; [exact H2 |]. split.
  - intros p Hp. destruct (Hle p _ Hp) as (n' & Hn' & Hk).
    apply same_kind_Dir in Hk. now subst.
  - intros p data Hp. destruct (Hle p _ Hp) as (n' & Hn' & Hk).
    apply same_kind_File in Hk as [d' ->]. eauto.
Qed.

Section EndToEnd.

Lemma extract_zip_disk_only (pf : Platform) (zip_bytes : list byte) (output_dir : string)
  (flatten_single_root : bool) (w w' : World) :
  disk w = disk w' ->
  fst (extract_zip pf zip_bytes output_dir flatten_single_root w)
  = fst (extract_zip pf zip_bytes output_dir flatten_single_root w')
  /\ disk (snd (extract_zip pf zip_bytes output_dir flatten_single_root w))
     = disk (snd (extract_zip pf zip_bytes output_dir flatten_single_root w')).
Proof.
  intros H. rewrite !extract_zip_on_disk, !on_disk_fst, !on_disk_disk, H. auto.
Qed.

End EndToEnd.

(** X18.  When the token fetch returns and the answer to the archive
    request has no 4xx or 5xx status and starts with [PK], the run of
    [main] ends as the extraction of that answer into the output directory
    does on the disk as it was before the run, flattening on: [main]
    returns or raises what [extract_zip] does, and leaves the disk that
    [extract_zip] leaves. *)
Theorem main_extracts_the_download (pf : Platform) (args : Args) (w : World)
  (csrf : option string) :
  let base_url := _normalize_base_url (arg_base_url args) in
  let o1 := get_csrf_token pf base_url (arg_project_id args)
              (snd (session_setup pf args w)) in
  let r2 := transport pf (base_url ++ "/project/" ++ arg_project_id args ++ "/download/zip")
              (token_headers pf args csrf) in
  let ex := extract_zip pf (content r2) (arg_output_dir args) true w in
  fst o1 = Ok csrf ->
  ~ is_http_error r2 ->
  (exists rest, content r2 = x50 :: x4b :: rest) ->
  fst (main pf args w) = fst ex
  /\ disk (snd (main pf args w)) = disk (snd ex).
Proof.
  intros base_url o1 r2 ex H1 Hst Hpk. unfold o1 in H1.
  rewrite main_run. cbv zeta. fold base_url.
  rewrite session_setup_run in H1 |- *. cbn [snd] in H1 |- *.
  set (w1 := {| session_headers := cookie_headers pf args; disk := disk w;
                trace := _ |}) in *.
  pose proof (get_csrf_token_frame pf base_url (arg_project_id args) w1)
    as (Hh2 & Hd2 & _).
  destruct (get_csrf_token pf base_url (arg_project_id args) w1) as [[c|e] w2];
    cbn [fst snd] in *; [| discriminate].
  injection H1 as ->.
  pose proof (attach_token_headers pf args csrf w2 Hh2) as [Hh3 Hd3].
  set (w3 := snd (attach_token csrf w2)) in *.
  pose proof (download_zip_frame pf base_url (arg_project_id args) w3) as (_ & Hd4 & _).
  pose proof (download_zip_unfold pf base_url (arg_project_id args) w3) as Hdl.
  cbv zeta in Hdl. unfold archive_response in Hdl. rewrite Hh3 in Hdl. fold r2 in Hdl.
  rewrite (proj1 (not_http_error_status r2) Hst) in Hdl.
  rewrite (proj2 (bytes_startswith_PK (content r2)) Hpk) in Hdl.
  rewrite Hdl in Hd4 |- *. cbn [snd] in Hd4.
  set (w4 := {| session_headers := token_headers pf args csrf; disk := disk w3;
                trace := _ |}) in *.
  assert (Hdw : disk w4 = disk w) by (rewrite Hd4, Hd3, Hd2; reflexivity).
  destruct (extract_zip_disk_only pf (content r2) (arg_output_dir args) true w4 w Hdw)
    as [Hf Hd].
  fold ex in Hf, Hd.
  destruct (extract_zip pf (content r2) (arg_output_dir args) true w4) as [[[]|e] w5];
    cbn [fst snd] in *.
  - unfold print. cbn [fst snd disk]. auto.
  - auto.
Qed.

Lemma main_extracts_the_download_witness :
  let args := {| arg_project_id := "p1"; arg_cookie := "abc";
                 arg_base_url := "https://overleaf.example.com/";
                 arg_output_dir := "out" |} in
  fst (main project_platform args empty_world) = Ok tt
  /\ disk (snd (main project_platform args empty_world)) !! ["out"; "main.tex"]
     = Some (File [x58]).
Proof.
  intros args.
  assert (H1 : fst (get_csrf_token project_platform
                      (_normalize_base_url (arg_base_url args)) (arg_project_id args)
                      (snd (session_setup project_platform args empty_world)))
               = Ok (Some "abc123")).
  { vm_compute. reflexivity. }
  destruct (main_extracts_the_download project_platform args empty_world
              (Some "abc123") H1) as [Hf Hd].
  - intros [H _]. vm_compute in H. now apply H.
  - eexists. vm_compute. reflexivity.
  - rewrite Hf, Hd. split; vm_compute; reflexivity.
Defined.

(** ** The archive extractor: when the flattening loop goes through *)

Section FlatteningSucceeds.

Local Open Scope list_scope.

Implicit Types S T : gmap (list string) node.
Implicit Types p q t : list string.

Lemma flatten_member_rel (zf : list ZipInfo) (d : list string) (root : string)
  (info : ZipInfo) :
  flatten_member zf d (root +:+ "/") info
  = match member_rel root info with
    | None => ret tt
    | Some rel =>
        if ZipInfo_is_dir info then Path_mkdir (path_join d rel)
        else bind (Path_mkdir (parent (path_join d rel)))
               (fun _ => bind (zf_read zf (filename info))
                           (fun data => write_bytes (path_join d rel) data))
    end.
Proof.
  unfold flatten_member, member_rel.
  destruct (Py.startswith (filename info) (root +:+ "/")); [|reflexivity].
  cbn [negb]. now destruct (Py.truthy _).
Qed.

Context (zf : list ZipInfo) (d : list string) (root : string).
Hypothesis d_plain : plain d.
Hypothesis zf_simple : all_simple root zf = true.
Hypothesis zf_no_clash : no_clash root zf = true.

Lemma all_simple_spec (i : ZipInfo) (rel : string) :
  i ∈ zf -> member_rel root i = Some rel -> simple_path rel = true.
Proof.
  intros Hi Hr. unfold all_simple in zf_simple. rewrite forallb_forall in zf_simple.
  specialize (zf_simple i (proj1 (list_elem_of_In _ _) Hi)). now rewrite Hr in zf_simple.
Qed.

Lemma no_clash_spec (i j : ZipInfo) (r r' : string) :
  i ∈ zf -> j ∈ zf ->
  member_rel root i = Some r -> ZipInfo_is_dir i = false ->
  member_rel root j = Some r' ->
  Py.split "/" r `prefix_of` Py.split "/" r' ->
  r' = r /\ ZipInfo_is_dir j = false.
Proof.
  intros Hi Hj Hr Hfile Hr' Hpre.
  unfold no_clash in zf_no_clash. rewrite forallb_forall in zf_no_clash.
  pose proof (zf_no_clash i (proj1 (list_elem_of_In _ _) Hi)) as H.
  rewrite Hr, Hfile in H. cbn [orb] in H. rewrite forallb_forall in H.
  specialize (H j (proj1 (list_elem_of_In _ _) Hj)). rewrite Hr' in H.
  rewrite (bool_decide_eq_true_2 _ Hpre) in H. cbn [negb orb] in H.
  apply andb_true_iff in H as [H1 H2].
  apply String.eqb_eq in H1. apply negb_true_iff in H2. auto.
Qed.

Lemma prefix_antisym_list p t : p `prefix_of` t -> t `prefix_of` p -> p = t.
Proof.
  intros H1 H2. apply prefix_length_eq; [exact H1|]. now apply prefix_length.
Qed.

(** A prefix of a path under [d] is a prefix of [d] or lies below [d]. *)
Lemma prefix_under q t :
  q `prefix_of` d ++ t -> q `prefix_of` d \/ (d `prefix_of` q /\ q <> d).
Proof.
  intros H. destruct (decide (q = d)) as [-> | Hne]; [now left|].
  destruct (prefix_weak_total q d (d ++ t) H) as [K | K]; [now exists t | now left |].
  right. auto.
Qed.

Lemma app_not_prefix t : t <> [] -> ~ (d ++ t) `prefix_of` d.
Proof.
  intros Ht H. apply prefix_length in H. rewrite length_app in H.
  destruct t; [contradiction | simpl in H; lia].
Qed.

(** No file stands on the way to a member's place, nor to an upper
    directory of it. *)
Lemma so_far_no_file (done : list ZipInfo) S (x : ZipInfo) (rel : string) t :
  flattened_so_far root d done S ->
  (forall j, j ∈ done -> j ∈ zf) -> x ∈ zf ->
  member_rel root x = Some rel ->
  t `prefix_of` Py.split "/" rel ->
  (ZipInfo_is_dir x = false -> t <> Py.split "/" rel) ->
  no_file_on_the_way S (d ++ t).
Proof.
  intros (I1 & I1' & I2) Hdone Hx Hr Ht Hfile q data Hq Hl.
  destruct (prefix_under q t Hq) as [Hqd | [Hqd Hne]].
  - exact (I1' q data Hqd Hl).
  - destruct (I2 q _ Hqd Hne Hl) as (j & rj & Hj & Hrj & Hjf & ->).
    apply prefix_app_inv in Hq.
    assert (Hpre : Py.split "/" rj `prefix_of` Py.split "/" rel) by (etrans; eauto).
    destruct (no_clash_spec j x rj rel (Hdone j Hj) Hx Hrj Hjf Hr Hpre) as [-> Hxf].
    apply (Hfile Hxf). now apply prefix_antisym_list.
Qed.

(** The place of a file member is no directory. *)
Lemma so_far_not_dir (done : list ZipInfo) S (x : ZipInfo) (rel : string) :
  flattened_so_far root d done S ->
  (forall j, j ∈ done -> j ∈ zf) -> x ∈ zf ->
  member_rel root x = Some rel -> ZipInfo_is_dir x = false ->
  S !! (d ++ Py.split "/" rel) <> Some Dir.
Proof.
  intros (I1 & I1' & I2) Hdone Hx Hr Hfile Hl.
  assert (Hnd : d ++ Py.split "/" rel <> d).
  { intros E. apply (app_not_prefix (Py.split "/" rel) (split_not_nil _ _)).
    now rewrite E. }
  assert (Hpd : d `prefix_of` d ++ Py.split "/" rel) by now eexists.
  destruct (I2 _ _ Hpd Hnd Hl) as (j & rj & Hj & Hrj & Hpre & Hne).
  apply prefix_app_inv in Hpre.
  destruct (no_clash_spec x j rel rj Hx (Hdone j Hj) Hr Hfile Hrj Hpre) as [-> Hjf].
  now apply Hne.
Qed.

(** New directories on the way to a member keep the account. *)
Lemma so_far_mkdir (done : list ZipInfo) S S' (x : ZipInfo) (rel : string) t :
  flattened_so_far root d done S ->
  member_rel root x = Some rel ->
  t `prefix_of` Py.split "/" rel ->
  (ZipInfo_is_dir x = false -> t <> Py.split "/" rel) ->
  mkdir_extends (d ++ t) S S' ->
  flattened_so_far root d (x :: done) S'.
Proof.
  intros (I1 & I1' & I2) Hr Ht Hfile Hext.
  pose proof (mkdir_extends_dir _ _ _ Hext) as Hde.
  split; [| split].
  - eapply is_dir_le; [apply dir_extends_le|]; eauto.
  - eapply no_file_on_the_way_extends; eauto.
  - intros q n Hqd Hne Hl.
    destruct (Hext q) as [E | (E & E' & Hq)].
    + rewrite E in Hl. destruct (I2 q n Hqd Hne Hl) as (j & rj & Hj & Hrest).
      exists j, rj. split; [apply elem_of_cons; now right | exact Hrest].
    + rewrite E' in Hl. injection Hl as <-.
      exists x, rel. split; [apply elem_of_cons; now left|]. split; [exact Hr|].
      split; [etrans; [exact Hq | now apply prefix_app]|].
      intros Hxf ->. apply prefix_app_inv in Hq.
      apply (Hfile Hxf). symmetry. now apply prefix_antisym_list.
Qed.

(** The file of a member keeps the account. *)
Lemma so_far_write (done : list ZipInfo) S (x : ZipInfo) (rel : string)
  (data : list byte) :
  flattened_so_far root d (x :: done) S ->
  member_rel root x = Some rel -> ZipInfo_is_dir x = false ->
  S !! (d ++ Py.split "/" rel) <> Some Dir ->
  flattened_so_far root d (x :: done) (<[d ++ Py.split "/" rel := File data]> S).
Proof.
  intros (I1 & I1' & I2) Hr Hfile Hnd.
  assert (Hnp : ~ (d ++ Py.split "/" rel) `prefix_of` d)
    by apply app_not_prefix, split_not_nil.
  split; [| split].
  - eapply is_dir_le; [| exact I1]. now apply (insert_file_le _ _ data).
  - intros q dt Hq Hl. destruct (decide (d ++ Py.split "/" rel = q)) as [<- | Hne].
    + contradiction.
    + rewrite lookup_insert_ne in Hl by exact Hne. exact (I1' q dt Hq Hl).
  - intros q n Hqd Hne Hl. destruct (decide (d ++ Py.split "/" rel = q)) as [<- | Hne'].
    + rewrite lookup_insert_eq in Hl. injection Hl as <-.
      exists x, rel. split; [apply elem_of_cons; now left|]. auto.
    + rewrite lookup_insert_ne in Hl by exact Hne'. exact (I2 q n Hqd Hne Hl).
Qed.

(** One turn of the loop goes through and keeps the account. *)
Lemma flatten_member_succeeds (done : list ZipInfo) S (x : ZipInfo) :
  flattened_so_far root d done S ->
  (forall j, j ∈ done -> j ∈ zf) -> x ∈ zf ->
  exists S', flatten_member zf d (root +:+ "/") x S = (Ok tt, S')
             /\ flattened_so_far root d (x :: done) S'.
Proof.
  intros Hinv Hdone Hx. rewrite flatten_member_rel.
  destruct (member_rel root x) as [rel|] eqn:Hr.
  2:{ exists S. split; [reflexivity|]. destruct Hinv as (I1 & I1' & I2).
      split; [exact I1 | split; [exact I1'|]].
      intros q n Hqd Hne Hl. destruct (I2 q n Hqd Hne Hl) as (j & rj & Hj & Hrest).
      exists j, rj. split; [apply elem_of_cons; now right | exact Hrest]. }
  pose proof (all_simple_spec x rel Hx Hr) as Hsim.
  destruct (simple_path_relative _ Hsim) as [Hrel _].
  rewrite (path_join_relative _ _ Hrel), (simple_path_parts _ Hsim).
  assert (Hpl : plain (d ++ Py.split "/" rel)).
  { apply plain_app. split; [exact d_plain | now apply simple_path_plain]. }
  destruct (ZipInfo_is_dir x) eqn:Edx.
  - assert (Hnf : no_file_on_the_way S (d ++ Py.split "/" rel)).
    { apply (so_far_no_file done S x rel _ Hinv Hdone Hx Hr); [reflexivity | congruence]. }
    destruct (Path_mkdir_succeeds _ _ Hpl Hnf) as [S' Hmk].
    exists S'. split; [exact Hmk|].
    apply (so_far_mkdir done S S' x rel (Py.split "/" rel) Hinv Hr);
      [reflexivity | congruence |].
    now apply Path_mkdir_plain.
  - destruct (exists_last (split_not_nil "/" rel)) as (p' & c & Hp).
    rewrite Hp in Hpl |- *. rewrite app_assoc in Hpl |- *. rewrite parent_snoc.
    assert (Hpl' : plain (d ++ p') /\ c <> ".."%string) by now apply plain_snoc.
    destruct Hpl' as [Hpl' Hc].
    assert (Hp' : p' `prefix_of` Py.split "/" rel) by (rewrite Hp; now exists [c]).
    assert (Hp'ne : ZipInfo_is_dir x = false -> p' <> Py.split "/" rel).
    { intros _ E. rewrite Hp in E. apply (f_equal length) in E.
      rewrite length_app in E. simpl in E. lia. }
    assert (Hnf : no_file_on_the_way S (d ++ p'))
      by exact (so_far_no_file done S x rel p' Hinv Hdone Hx Hr Hp' Hp'ne).
    destruct (Path_mkdir_succeeds _ _ Hpl' Hnf) as [S0 Hmk].
    pose proof (Path_mkdir_plain _ _ _ Hpl' Hmk) as Hext.
    pose proof (Path_mkdir_spec _ _ _ Hmk) as [_ Hd0].
    assert (Hnd : S0 !! ((d ++ p') ++ [c]) <> Some Dir).
    { rewrite <- app_assoc, <- Hp.
      destruct (Hext (d ++ Py.split "/" rel)) as [E | (_ & _ & Hq)].
      - rewrite E. exact (so_far_not_dir done S x rel Hinv Hdone Hx Hr Edx).
      - apply prefix_app_inv in Hq. exfalso. apply (Hp'ne Edx).
        now apply prefix_antisym_list. }
    destruct (zf_getinfo_member zf x Hx) as (i' & Hg & _).
    exists (<[(d ++ p') ++ [c] := File (payload i')]> S0). split.
    + unfold bind. rewrite Hmk. unfold zf_read. rewrite Hg. unfold ret.
      apply (write_bytes_at _ _ _ (d ++ p') c (d ++ p') eq_refl); auto.
      now apply is_dir_plain_resolve.
    + rewrite <- app_assoc, <- Hp in Hnd |- *.
      apply so_far_write; auto.
      exact (so_far_mkdir done S S0 x rel p' Hinv Hr Hp' Hp'ne Hext).
Qed.

(** The loop goes through. *)
Lemma flatten_loop_succeeds (xs done : list ZipInfo) S :
  flattened_so_far root d done S ->
  (forall j, j ∈ done -> j ∈ zf) -> (forall j, j ∈ xs -> j ∈ zf) ->
  exists S1, for_each xs (flatten_member zf d (root +:+ "/")) S = (Ok tt, S1).
Proof.
  revert done S. induction xs as [|x xs IH]; intros done S Hinv Hdone Hxs.
  - exists S. reflexivity.
  - assert (Hx : x ∈ zf) by (apply Hxs, elem_of_cons; now left).
    destruct (flatten_member_succeeds done S x Hinv Hdone Hx) as (S' & Hb & Hinv').
    destruct (IH (x :: done) S' Hinv') as [S1 H1].
    + intros j Hj. apply elem_of_cons in Hj as [-> | Hj]; auto.
    + intros j Hj. apply Hxs, elem_of_cons. now right.
    + exists S1. simpl. unfold bind. now rewrite Hb.
Qed.

End FlatteningSucceeds.



(** X20.  When a root directory is detected, a member whose name starts
    with a slash is skipped by the flattening loop, whatever follows the
    slash: the disk is left as it is, although the first name of such a
    member counts for the detection. *)
Theorem leading_slash_member_skipped (zf : list ZipInfo) (d : list string)
  (root rest : string) (info : ZipInfo) (S : gmap (list string) node) :
  _single_root_dir (namelist zf) = Some root ->
  filename info = "/" ++ rest ->
  flatten_member zf d (root ++ "/") info S = (Ok tt, S).
Proof.
  intros Hroot Hf.
  assert (Hns : ~ In "/"%char (list_ascii_of_string root)).
  { apply single_root_dir_iff in Hroot as [Hall _].
    destruct (proj2 (Hall root) eq_refl) as (n & _ & Hseg).
    now apply first_segment_inv in Hseg. }
  unfold flatten_member. rewrite Hf.
  destruct (Py.startswith ("/" ++ rest) (root ++ "/")) eqn:E; [| reflexivity].
  exfalso. apply startswith_inv in E as [r E].
  destruct root as [|c root]; ssimpl in E.
  - pose proof (detected_root_truthy _ _ Hroot) as Ht. discriminate.
  - injection E as <- _. apply Hns. now left.
Qed.

Lemma leading_slash_member_skipped_witness :
  let zf := [ {| filename := "/proj/a.tex"; payload := [x58] |};
              {| filename := "proj/b.tex"; payload := [x59] |} ] in
  flatten_member zf ["out"] "proj/" {| filename := "/proj/a.tex"; payload := [x58] |} ∅
  = (Ok tt, ∅).
Proof.
  intros zf.
  apply (leading_slash_member_skipped zf ["out"] "proj" "proj/a.tex").
  - vm_compute. reflexivity.
  - reflexivity.
Defined.

Example leading_slash_member_lost :
  extract_zip
    (archive_platform
       [ {| filename := "/proj/a.tex"; payload := [x58] |};
         {| filename := "proj/b.tex"; payload := [x59] |} ])
    [] "out" true empty_world
  = (Ok tt,
     {| session_headers := ∅;
        disk := <[ ["out"; "b.tex"] := File [x59] ]> (<[ ["out"] := Dir ]> ∅);
        trace := [] |}).
Proof. vm_compute. reflexivity. Qed.
